(** * Secure Data Vault (app.py): a shallow embedding and its properties

    The development follows the layout of [app.py]:

    - Python values: [str] as a list of code points, [bytes] as a list of
      [Byte.byte], exceptions as an inductive type, the strict UTF-8 codec
      behind [str.encode()] and [bytes.decode()];
    - [hashlib.sha256] (FIPS 180-4) and [hexdigest];
    - the interface of [cryptography.fernet.Fernet] and of [json];
    - the files [secret.key] and [data.json], the Streamlit session state
      with its shared (aliased) per-user attempt dictionaries;
    - the functions of [app.py] under their own names;
    - the properties of the specification. *)

From Stdlib.Strings Require Import String Ascii.
From Stdlib Require Import ZArith NArith List Bool Lia DecimalN.
From Stdlib.Strings Require Import Byte.
From stdpp Require Import base decidable option list numbers.
Import ListNotations.

Local Open Scope N_scope.

(** ** Python values *)

(** A Python [str] is a sequence of code points [0 .. 0x10FFFF]; lone
    surrogates [0xD800 .. 0xDFFF] are legal members of a [str]. *)
Definition pystr : Type := list N.

(** A Python [bytes] object. *)
Definition bytes : Type := list byte.

#[global] Instance byte_eq_decision : EqDecision byte := Byte.byte_eq_dec.

(** The exceptions that the modelled code can meet. [RerunException] and
    [StopException] are Streamlit's script-control exceptions; they derive
    from [BaseException], not from [Exception]. *)
Inductive exn : Type :=
| UnicodeEncodeError
| UnicodeDecodeError
| InvalidToken
| JSONDecodeError
| OSError
| ValueError
| KeyError
| RerunException
| StopException.

(** [isinstance(e, Exception)], what a clause [except Exception] catches. *)
Definition is_Exception (e : exn) : bool :=
  match e with
  | RerunException | StopException => false
  | _ => true
  end.

(** The result of evaluating a Python expression: a value or a raised
    exception. *)
Inductive outcome (A : Type) : Type :=
| Ret (a : A)
| Raise (e : exn).
Arguments Ret {A} a.
Arguments Raise {A} e.

Definition obind {A B : Type} (o : outcome A) (k : A -> outcome B) : outcome B :=
  match o with
  | Ret a => k a
  | Raise e => Raise e
  end.

(** ** Code points and the UTF-8 codec *)

Definition is_surrogate (c : N) : bool := (0xD800 <=? c) && (c <=? 0xDFFF).

(** A Unicode scalar value: a code point that is not a surrogate. *)
Definition is_scalar (c : N) : bool := (c <? 0x110000) && negb (is_surrogate c).

(** Text without lone surrogates: exactly the [str] values that
    [str.encode()] accepts. *)
Definition well_formed (s : pystr) : Prop := Forall (fun c => is_scalar c = true) s.

Definition well_formedb (s : pystr) : bool := forallb is_scalar s.

(** The byte with value [n] ([x00] outside [0 .. 255], never used there). *)
Definition byte_of (n : N) : byte :=
  match Byte.of_N n with
  | Some b => b
  | None => x00
  end.

(** The UTF-8 encoding of one code point, as byte values; [None] for a
    surrogate (and for a number that is no code point). *)
Definition utf8_encode_cp (c : N) : option (list N) :=
  if c <? 0x80 then Some [c]
  else if c <? 0x800 then Some [0xC0 + c / 64; 0x80 + c mod 64]
  else if c <? 0x10000 then
    if is_surrogate c then None
    else Some [0xE0 + c / 4096; 0x80 + (c / 64) mod 64; 0x80 + c mod 64]
  else if c <? 0x110000 then
    Some [0xF0 + c / 262144; 0x80 + (c / 4096) mod 64;
          0x80 + (c / 64) mod 64; 0x80 + c mod 64]
  else None.

Fixpoint utf8_encode (s : pystr) : option (list N) :=
  match s with
  | [] => Some []
  | c :: s' =>
      match utf8_encode_cp c, utf8_encode s' with
      | Some bs, Some rest => Some (bs ++ rest)
      | _, _ => None
      end
  end.

(** [s.encode()]: strict UTF-8. *)
Definition str_encode (s : pystr) : outcome bytes :=
  match utf8_encode s with
  | Some ns => Ret (map byte_of ns)
  | None => Raise UnicodeEncodeError
  end.

Definition is_cont (b : N) : bool := (0x80 <=? b) && (b <? 0xC0).

(** Strict UTF-8 decoding of byte values: overlong forms, surrogates,
    values above [0x10FFFF], stray continuation bytes and truncated
    sequences are all rejected. *)
Fixpoint utf8_decode (bs : list N) : option pystr :=
  match bs with
  | [] => Some []
  | b0 :: r0 =>
      if b0 <? 0x80 then
        match utf8_decode r0 with Some s => Some (b0 :: s) | None => None end
      else if b0 <? 0xC0 then None
      else if b0 <? 0xE0 then
        match r0 with
        | b1 :: r1 =>
            let c := (b0 - 0xC0) * 64 + (b1 - 0x80) in
            if is_cont b1 && (0x80 <=? c) then
              match utf8_decode r1 with Some s => Some (c :: s) | None => None end
            else None
        | _ => None
        end
      else if b0 <? 0xF0 then
        match r0 with
        | b1 :: b2 :: r2 =>
            let c := (b0 - 0xE0) * 4096 + (b1 - 0x80) * 64 + (b2 - 0x80) in
            if is_cont b1 && is_cont b2 && (0x800 <=? c) && negb (is_surrogate c) then
              match utf8_decode r2 with Some s => Some (c :: s) | None => None end
            else None
        | _ => None
        end
      else if b0 <? 0xF8 then
        match r0 with
        | b1 :: b2 :: b3 :: r3 =>
            let c := (b0 - 0xF0) * 262144 + (b1 - 0x80) * 4096
                     + (b2 - 0x80) * 64 + (b3 - 0x80) in
            if is_cont b1 && is_cont b2 && is_cont b3
               && (0x10000 <=? c) && (c <? 0x110000) then
              match utf8_decode r3 with Some s => Some (c :: s) | None => None end
            else None
        | _ => None
        end
      else None
  end.

(** [b.decode()]: strict UTF-8. *)
Definition bytes_decode (b : bytes) : outcome pystr :=
  match utf8_decode (map Byte.to_N b) with
  | Some s => Ret s
  | None => Raise UnicodeDecodeError
  end.

(** Bytes that are all ASCII (below [0x80]), such as base64 text. *)
Definition is_ascii (b : bytes) : Prop := Forall (fun x => Byte.to_N x < 0x80) b.

(** The [str] of ASCII bytes, character by character. *)
Definition lit (b : bytes) : pystr := map Byte.to_N b.

(** A [str] literal. *)
Definition text (s : string) : pystr :=
  map N_of_ascii (list_ascii_of_string s).
Arguments text s%_string.

(** ** hashlib.sha256 (FIPS 180-4) *)

Module SHA256.

(** 32-bit words are numbers below [2^32]. *)
Definition modulus : N := 0x100000000.

Definition add32 (a b : N) : N := (a + b) mod modulus.

Definition rotr (n x : N) : N :=
  N.lor (N.shiftr x n) (N.shiftl x (32 - n) mod modulus).

Definition shr (n x : N) : N := N.shiftr x n.

Definition not32 (x : N) : N := N.lxor x 0xFFFFFFFF.

Definition Ch (x y z : N) : N := N.lxor (N.land x y) (N.land (not32 x) z).

Definition Maj (x y z : N) : N :=
  N.lxor (N.lxor (N.land x y) (N.land x z)) (N.land y z).

Definition Sigma0 (x : N) : N := N.lxor (N.lxor (rotr 2 x) (rotr 13 x)) (rotr 22 x).
Definition Sigma1 (x : N) : N := N.lxor (N.lxor (rotr 6 x) (rotr 11 x)) (rotr 25 x).
Definition sigma0 (x : N) : N := N.lxor (N.lxor (rotr 7 x) (rotr 18 x)) (shr 3 x).
Definition sigma1 (x : N) : N := N.lxor (N.lxor (rotr 17 x) (rotr 19 x)) (shr 10 x).

(** The first sixty-four primes. *)
Definition primes : list N :=
  [2; 3; 5; 7; 11; 13; 17; 19; 23; 29; 31; 37; 41; 43; 47; 53;
   59; 61; 67; 71; 73; 79; 83; 89; 97; 101; 103; 107; 109; 113; 127; 131;
   137; 139; 149; 151; 157; 163; 167; 173; 179; 181; 191; 193; 197; 199; 211; 223;
   227; 229; 233; 239; 241; 251; 257; 263; 269; 271; 277; 281; 283; 293; 307; 311].

(** The integer cube root, one bit at a time from bit [i - 1] down. *)
Fixpoint cube_root (i : nat) (n r : N) : N :=
  match i with
  | O => r
  | S i' =>
      let c := r + 2 ^ N.of_nat i' in
      cube_root i' n (if c * c * c <=? n then c else r)
  end.

(** The first 32 bits of the fractional part of the cube root, and of the
    square root, of [p]. *)
Definition frac_cube_root (p : N) : N := cube_root 36 (p * 2 ^ 96) 0 mod modulus.
Definition frac_square_root (p : N) : N := N.sqrt (p * 2 ^ 64) mod modulus.

(** The round constants: the cube roots of the first sixty-four primes. *)
Definition K : list N := Eval vm_compute in map frac_cube_root primes.

(** The eight working variables / the intermediate hash value. *)
Record state : Type := State {
  ha : N; hb : N; hc : N; hd : N; he : N; hf : N; hg : N; hh : N
}.

(** The initial hash value: the square roots of the first eight primes. *)
Definition H0 : state :=
  Eval vm_compute in
    State (frac_square_root 2) (frac_square_root 3) (frac_square_root 5)
          (frac_square_root 7) (frac_square_root 11) (frac_square_root 13)
          (frac_square_root 17) (frac_square_root 19).

(** Big-endian bytes of a number, [n] of them. *)
Fixpoint be_bytes (n : nat) (x : N) : list N :=
  match n with
  | O => []
  | S n' => be_bytes n' (x / 256) ++ [x mod 256]
  end.

(** Padding: a [1] bit, zeros up to 56 modulo 64, the bit length on 64 bits. *)
Definition pad (msg : list N) : list N :=
  let len := N.of_nat (length msg) in
  let k := (119 - len mod 64) mod 64 in
  msg ++ [0x80] ++ repeat 0 (N.to_nat k) ++ be_bytes 8 ((8 * len) mod 0x10000000000000000).

(** Big-endian 32-bit words of a byte sequence. *)
Fixpoint to_words (bs : list N) : list N :=
  match bs with
  | b0 :: b1 :: b2 :: b3 :: rest =>
      (((b0 * 256 + b1) * 256 + b2) * 256 + b3) :: to_words rest
  | _ => []
  end.

(** The message schedule: [n] further words after the sixteen of the block. *)
Fixpoint schedule (n : nat) (w : list N) : list N :=
  match n with
  | O => w
  | S n' =>
      let t := length w in
      let x := add32 (add32 (sigma1 (nth (t - 2) w 0)) (nth (t - 7) w 0))
                     (add32 (sigma0 (nth (t - 15) w 0)) (nth (t - 16) w 0)) in
      schedule n' (w ++ [x])
  end.

Definition round (s : state) (kw : N * N) : state :=
  let t1 := add32 (add32 (add32 (hh s) (Sigma1 (he s))) (Ch (he s) (hf s) (hg s)))
                  (add32 (fst kw) (snd kw)) in
  let t2 := add32 (Sigma0 (ha s)) (Maj (ha s) (hb s) (hc s)) in
  State (add32 t1 t2) (ha s) (hb s) (hc s) (add32 (hd s) t1) (he s) (hf s) (hg s).

Definition compress (h : state) (block : list N) : state :=
  let w := schedule 48 block in
  let s := fold_left round (combine K w) h in
  State (add32 (ha h) (ha s)) (add32 (hb h) (hb s))
        (add32 (hc h) (hc s)) (add32 (hd h) (hd s))
        (add32 (he h) (he s)) (add32 (hf h) (hf s))
        (add32 (hg h) (hg s)) (add32 (hh h) (hh s)).

(** One block of sixteen words per step; [fuel] bounds the number of
    blocks and is the number of words at the call site. *)
Fixpoint process (fuel : nat) (ws : list N) (h : state) : state :=
  match fuel with
  | O => h
  | S fuel' =>
      match ws with
      | [] => h
      | _ => process fuel' (skipn 16 ws) (compress h (firstn 16 ws))
      end
  end.

Definition digest_words (h : state) : list N :=
  [ha h; hb h; hc h; hd h; he h; hf h; hg h; hh h].

(** [hashlib.sha256(msg).digest()]: 32 bytes. *)
Definition digest (msg : bytes) : bytes :=
  let ws := to_words (pad (map Byte.to_N msg)) in
  map byte_of (flat_map (be_bytes 4) (digest_words (process (length ws) ws H0))).

Definition hex_digit (n : N) : N := if n <? 10 then 48 + n else 87 + n.

(** [.hexdigest()]: two lowercase hexadecimal digits per byte. *)
Definition hex (b : bytes) : pystr :=
  flat_map (fun x => [hex_digit (Byte.to_N x / 16); hex_digit (Byte.to_N x mod 16)]) b.

Definition hexdigest (msg : bytes) : pystr := hex (digest msg).

End SHA256.

(** ** The libraries behind [app.py]: cryptography.fernet and json *)

(** What one call of [Fernet.encrypt] reads from its environment: the clock
    ([time.time()]) and 16 bytes of [os.urandom] for the IV. *)
Record entropy : Type := Entropy { now : N; iv : bytes }.

(** The contract of [cryptography.fernet.Fernet] that [app.py] relies on.
    A key is accepted by [Fernet(key)] when [Fernet_valid_key] holds of it;
    [Fernet_decrypt] raises (in practice [InvalidToken]) on a token that does
    not authenticate under the key; tokens are URL-safe base64 text. *)
Class FernetLib : Type := {
  Fernet_generate_key : bytes -> bytes;
  Fernet_valid_key : bytes -> bool;
  Fernet_encrypt : bytes -> entropy -> bytes -> bytes;
  Fernet_decrypt : bytes -> bytes -> outcome bytes;
  Fernet_token_ascii :
    forall key r data, is_ascii (Fernet_encrypt key r data);
  Fernet_roundtrip :
    forall key r data,
      Fernet_valid_key key = true ->
      Fernet_decrypt key (Fernet_encrypt key r data) = Ret data;
  Fernet_decrypt_raises :
    forall key token e,
      Fernet_decrypt key token = Raise e -> is_Exception e = true
}.

(** The authentication of Fernet tokens (HMAC-SHA256 under the signing half
    of the key), idealised as in symbolic models of cryptography: a token
    that decrypts under a key was made by [Fernet.encrypt] under that key
    from the data returned, and two keys never make the same token. The
    library guarantees both up to a negligible probability of forgery;
    here a forgery is taken to be impossible. Only the property of
    [decrypt_data] on foreign and tampered tokens assumes these laws. *)
Class FernetAuthentic {fernet : FernetLib} : Prop := {
  Fernet_authentic :
    forall key token data,
      Fernet_valid_key key = true ->
      Fernet_decrypt key token = Ret data ->
      exists r, token = Fernet_encrypt key r data;
  Fernet_key_separation :
    forall key key' r r' data data',
      Fernet_valid_key key = true -> Fernet_valid_key key' = true ->
      Fernet_encrypt key r data = Fernet_encrypt key' r' data' ->
      key = key'
}.

(** ** The vault: [{username: {itemId: {"encrypted_text", "passkey_hash"}}}] *)

(** A Python [dict] with [str] keys, in insertion order. *)
Abbreviation dict V := (list (pystr * V)).

Fixpoint dict_get {V : Type} (d : dict V) (k : pystr) : option V :=
  match d with
  | [] => None
  | (k', v) :: d' => if decide (k' = k) then Some v else dict_get d' k
  end.

(** [k in d] *)
Definition dict_mem {V : Type} (d : dict V) (k : pystr) : bool :=
  match dict_get d k with Some _ => true | None => false end.

(** [d[k] = v]: an existing key keeps its position, a new key goes last. *)
Fixpoint dict_set {V : Type} (d : dict V) (k : pystr) (v : V) : dict V :=
  match d with
  | [] => [(k, v)]
  | (k', v') :: d' =>
      if decide (k' = k) then (k', v) :: d' else (k', v') :: dict_set d' k v
  end.

Definition dict_keys {V : Type} (d : dict V) : list pystr := map fst d.

Record item : Type := Item { encrypted_text : pystr; passkey_hash : pystr }.

Abbreviation vault := (dict (dict item)).

(** The contract of [json]: [json_loads] is [None] where [json.loads] raises
    [JSONDecodeError]; [json_dump] is the text that [json.dump(data, f,
    indent=4)] writes, as the bytes that reach the file. *)
Class JsonLib : Type := {
  json_loads : pystr -> option vault;
  json_dump : vault -> bytes
}.

(** The values that [json.loads] returns on arbitrary text: a document
    need not be a vault, nor an object. *)
Unset Elimination Schemes.
Inductive json_value : Type :=
| JNull
| JBool (b : bool)
| JInt (n : Z)
| JFloat (repr : pystr)
| JStr (s : pystr)
| JList (l : list json_value)
| JObj (d : list (pystr * json_value)).
Set Elimination Schemes.

(** [json.loads] without the restriction to vaults: it returns any JSON
    value, and raises [JSONDecodeError] on text that is not JSON or another
    exception, such as the [ValueError] of an integer beyond the digit
    limit. *)
Class JsonValues : Type := {
  json_loads_value : pystr -> outcome json_value
}.

(** A vault as a JSON value. *)
Definition of_item (it : item) : json_value :=
  JObj [(text "encrypted_text", JStr (encrypted_text it));
        (text "passkey_hash", JStr (passkey_hash it))].

Definition of_items (items : dict item) : json_value :=
  JObj (map (fun x => (fst x, of_item (snd x))) items).

Definition of_vault (v : vault) : json_value :=
  JObj (map (fun x => (fst x, of_items (snd x))) v).

(** ** Program state *)

(** One [{'attempts': count, 'locked': bool}] dictionary. *)
Record attempt_state : Type := AttemptState { attempts : Z; locked : bool }.

(** The pages of [st.session_state.current_page]. *)
Inductive page : Type := Login | Home | Store | Retrieve.

(** What the script shows. *)
Inductive message : Type :=
| KeyFileNotFound
| FailedToInitialize
| ErrorReadingData
| FailedToSaveData
| LoginHeader
| LoginInfo
| Welcome (user : pystr)
| PleaseEnterUsername
| HomeHeader (user : pystr)
| ChooseAction
| AccountLocked
| StoreHeader
| StoredSuccessfully
| ProvideBoth
| RetrieveHeader
| NoDataYet
| MaxRetrievalAttempts
| DecryptedData
| Decrypted (text : pystr)
| DecryptionFailed
| IncorrectPasskey (attempt : Z)
| MaxAttemptsLocked
| PleaseEnterPasskey
| InvalidState.

Inductive ui : Type :=
| st_info (m : message)
| st_error (m : message)
| st_warning (m : message)
| st_success (m : message)
| st_header (m : message)
| st_subheader (m : message)
| st_write (m : message).

(** A reference to an attempt dictionary on the heap. *)
Abbreviation loc := nat (only parsing).

(** The state that one run of the script reads and writes: the two files,
    the Streamlit session state, the module global [stored_data] and the
    page shown so far. The values of [login_attempts] are references:
    [login_attempts[user]] and a local variable can name the same
    dictionary. *)
Record world : Type := World {
  key_file : option bytes;
  data_file : option bytes;
  read_only : bool;
  logged_in_user : option pystr;
  login_attempts : dict loc;
  heap : list attempt_state;
  current_page : page;
  stored_data : vault;
  display : list ui
}.

Definition set_key_file (x : option bytes) (w : world) : world :=
  World x (data_file w) (read_only w) (logged_in_user w) (login_attempts w)
        (heap w) (current_page w) (stored_data w) (display w).
Definition set_data_file (x : option bytes) (w : world) : world :=
  World (key_file w) x (read_only w) (logged_in_user w) (login_attempts w)
        (heap w) (current_page w) (stored_data w) (display w).
Definition set_logged_in_user (x : option pystr) (w : world) : world :=
  World (key_file w) (data_file w) (read_only w) x (login_attempts w)
        (heap w) (current_page w) (stored_data w) (display w).
Definition set_login_attempts (x : dict loc) (w : world) : world :=
  World (key_file w) (data_file w) (read_only w) (logged_in_user w) x
        (heap w) (current_page w) (stored_data w) (display w).
Definition set_heap (x : list attempt_state) (w : world) : world :=
  World (key_file w) (data_file w) (read_only w) (logged_in_user w)
        (login_attempts w) x (current_page w) (stored_data w) (display w).
Definition set_current_page (x : page) (w : world) : world :=
  World (key_file w) (data_file w) (read_only w) (logged_in_user w)
        (login_attempts w) (heap w) x (stored_data w) (display w).
Definition set_stored_data (x : vault) (w : world) : world :=
  World (key_file w) (data_file w) (read_only w) (logged_in_user w)
        (login_attempts w) (heap w) (current_page w) x (display w).
Definition set_display (x : list ui) (w : world) : world :=
  World (key_file w) (data_file w) (read_only w) (logged_in_user w)
        (login_attempts w) (heap w) (current_page w) (stored_data w) x.

(** ** The monad of script fragments: state, and exceptions that keep the
    state reached when they were raised. *)

Definition M (A : Type) : Type := world -> outcome A * world.

Definition ret {A : Type} (a : A) : M A := fun w => (Ret a, w).

Definition bind {A B : Type} (c : M A) (k : A -> M B) : M B :=
  fun w =>
    match c w with
    | (Ret a, w') => k a w'
    | (Raise e, w') => (Raise e, w')
    end.

Definition raise {A : Type} (e : exn) : M A := fun w => (Raise e, w).

Definition gets {A : Type} (f : world -> A) : M A := fun w => (Ret (f w), w).

Definition modify (f : world -> world) : M unit := fun w => (Ret tt, f w).

(** A pure expression evaluated inside a script fragment. *)
Definition lift {A : Type} (o : outcome A) : M A := fun w => (o, w).

Declare Scope py_scope.
Delimit Scope py_scope with py.
Notation "x <- c1 ;; c2" := (bind c1 (fun x => c2))
  (at level 100, c1 at next level, c2 at level 200, right associativity) : py_scope.
Notation "c1 ;; c2" := (bind c1 (fun _ => c2))
  (at level 100, c2 at level 200, right associativity) : py_scope.

(** [try: body except <catches>: handler] *)
Definition try_except {A : Type} (body : M A) (catches : exn -> bool)
    (handler : M A) : M A :=
  fun w =>
    match body w with
    | (Ret a, w') => (Ret a, w')
    | (Raise e, w') => if catches e then handler w' else (Raise e, w')
    end.

(** The same for an expression without effects. *)
Definition try_pure {A : Type} (body : outcome A) (catches : exn -> bool)
    (handler : outcome A) : outcome A :=
  match body with
  | Ret a => Ret a
  | Raise e => if catches e then handler else Raise e
  end.

Definition show (u : ui) : M unit := modify (fun w => set_display (display w ++ [u]) w).

(** [st.rerun()] and [st.stop()] leave the script by raising. *)
Definition st_rerun {A : Type} : M A := raise RerunException.
Definition st_stop {A : Type} : M A := raise StopException.

Definition fresh_attempts : attempt_state := AttemptState 0 false.

(** A new dictionary object. *)
Definition alloc (s : attempt_state) : M loc :=
  fun w => (Ret (length (heap w)), set_heap (heap w ++ [s]) w).

(** Reading through a reference. *)
Definition deref (l : loc) : M attempt_state :=
  gets (fun w => default fresh_attempts (heap w !! l)).

(** In-place update of the dictionary behind a reference. *)
Definition update (l : loc) (f : attempt_state -> attempt_state) : M unit :=
  modify (fun w => set_heap (alter f l (heap w)) w).

Definition with_attempts (n : Z) (s : attempt_state) : attempt_state :=
  AttemptState n (locked s).
Definition with_locked (b : bool) (s : attempt_state) : attempt_state :=
  AttemptState (attempts s) b.
Definition incr_attempts (s : attempt_state) : attempt_state :=
  AttemptState (attempts s + 1) (locked s).

(** The attempt dictionary that [login_attempts[user]] names, if any. *)
Definition attempt_of (w : world) (user : pystr) : option attempt_state :=
  match dict_get (login_attempts w) user with
  | Some l => heap w !! l
  | None => None
  end.

(** Python truthiness of [st.session_state.logged_in_user]. *)
Definition truthy (user : option pystr) : bool :=
  match user with
  | Some (_ :: _) => true
  | _ => false
  end.

Definition nonempty (s : pystr) : bool :=
  match s with
  | [] => false
  | _ :: _ => true
  end.

(** The decimal digits of a number, as [str(n)] prints them. *)
Fixpoint uint_chars (d : Decimal.uint) : pystr :=
  match d with
  | Decimal.Nil => []
  | Decimal.D0 d' => 48 :: uint_chars d'
  | Decimal.D1 d' => 49 :: uint_chars d'
  | Decimal.D2 d' => 50 :: uint_chars d'
  | Decimal.D3 d' => 51 :: uint_chars d'
  | Decimal.D4 d' => 52 :: uint_chars d'
  | Decimal.D5 d' => 53 :: uint_chars d'
  | Decimal.D6 d' => 54 :: uint_chars d'
  | Decimal.D7 d' => 55 :: uint_chars d'
  | Decimal.D8 d' => 56 :: uint_chars d'
  | Decimal.D9 d' => 57 :: uint_chars d'
  end.

Definition decimal (n : N) : pystr := uint_chars (N.to_uint n).

(** [f"data_{n}"] *)
Definition data_id_of (n : N) : pystr := text "data_" ++ decimal n.

(** Text mode reading: [\r\n] and [\r] become [\n]. *)
Fixpoint universal_newlines (s : pystr) : pystr :=
  match s with
  | [] => []
  | c :: r =>
      if decide (c = 13) then
        match r with
        | c' :: r' =>
            if decide (c' = 10) then 10 :: universal_newlines r'
            else 10 :: universal_newlines r
        | [] => [10]
        end
      else c :: universal_newlines r
  end.

(** [open(path, 'r').read()] of a file with the given content, under a
    UTF-8 locale. *)
Definition read_text (raw : bytes) : outcome pystr :=
  obind (bytes_decode raw) (fun s => Ret (universal_newlines s)).

(** ** app.py *)

Definition MAX_ATTEMPTS : Z := 3.

(** [hash_passkey], lines 33-34. *)
Definition hash_passkey (passkey : pystr) : outcome pystr :=
  obind (str_encode passkey) (fun b => Ret (SHA256.hexdigest b)).

(** The forms and buttons of each page, as one run of the script sees them. *)
Record login_form : Type := LoginForm {
  username_login : pystr;
  password_login : pystr;
  submitted_login : bool
}.

Record home_buttons : Type := HomeButtons {
  store_button : bool;
  retrieve_button : bool;
  logout_button : bool
}.

Record store_form : Type := StoreForm {
  data_to_store : pystr;
  passkey_store : pystr;
  submitted_store : bool;
  store_back_button : bool;
  store_entropy : entropy
}.

Record retrieve_form : Type := RetrieveForm {
  passkey_retrieve : pystr;
  submitted_retrieve : bool;
  retrieve_back_button : bool
}.

(** The widget values of one run, for whichever page is shown. *)
Record widgets : Type := Widgets {
  on_login : login_form;
  on_home : home_buttons;
  on_store : store_form;
  on_retrieve : retrieve_form
}.

Section App.

Context {fernet : FernetLib} {json : JsonLib}.

Local Open Scope py_scope.

(** [generate_key], lines 13-17; [urandom] is what [os.urandom(32)]
    returns inside [Fernet.generate_key()]. *)
Definition generate_key (urandom : bytes) : M bytes :=
  let key := Fernet_generate_key urandom in
  ro <- gets read_only ;;
  if (ro : bool) then raise OSError
  else modify (set_key_file (Some key)) ;; ret key.

(** [load_key], lines 19-24. *)
Definition load_key (urandom : bytes) : M bytes :=
  kf <- gets key_file ;;
  match kf with
  | Some content => ret content
  | None => show (st_info KeyFileNotFound) ;; generate_key urandom
  end.

(** [Fernet(key)]: the object holds the key; a malformed key is refused. *)
Definition Fernet (key : bytes) : outcome bytes :=
  if Fernet_valid_key key then Ret key else Raise ValueError.

(** Lines 26-31: [KEY = load_key()] and the guarded [Fernet(KEY)]. *)
Definition init_cipher_suite (urandom : bytes) : M bytes :=
  KEY <- load_key urandom ;;
  try_except (lift (Fernet KEY)) is_Exception
             (show (st_error FailedToInitialize) ;; st_stop).

(** The module global [cipher_suite]. *)
Variable cipher_suite : bytes.

(** [encrypt_data], lines 36-37. *)
Definition encrypt_data (r : entropy) (text : pystr) : outcome pystr :=
  obind (str_encode text) (fun b =>
    bytes_decode (Fernet_encrypt cipher_suite r b)).

(** [decrypt_data], lines 39-43; [None] is Python's [None]. *)
Definition decrypt_data (encrypted_text : pystr) : outcome (option pystr) :=
  try_pure
    (obind (str_encode encrypted_text) (fun b =>
     obind (Fernet_decrypt cipher_suite b) (fun p =>
     obind (bytes_decode p) (fun s => Ret (Some s)))))
    is_Exception
    (Ret None).

(** [load_data], lines 46-56. *)
Definition load_data : M vault :=
  df <- gets data_file ;;
  match df with
  | Some raw =>
      try_except
        (content <- lift (read_text raw) ;;
         if nonempty content then
           match json_loads content with
           | Some v => ret v
           | None => raise JSONDecodeError
           end
         else ret [])
        (fun e => match e with JSONDecodeError => true | _ => false end)
        (show (st_error ErrorReadingData) ;; ret [])
  | None => ret []
  end.

(** [save_data], lines 58-63. *)
Definition save_data (data : vault) : M unit :=
  try_except
    (ro <- gets read_only ;;
     if (ro : bool) then raise OSError
     else modify (set_data_file (Some (json_dump data))))
    (fun e => match e with OSError => true | _ => false end)
    (show (st_error FailedToSaveData)).

(** [navigate_to], lines 135-142. *)
Definition navigate_to (page_name : page) : M unit :=
  user <- gets logged_in_user ;;
  la <- gets login_attempts ;;
  match user with
  | Some u =>
      if negb (match page_name with Retrieve => true | _ => false end)
         && truthy user && dict_mem la u
      then
        match dict_get la u with
        | Some l => update l (with_attempts 0)
        | None => raise KeyError
        end
      else ret tt
  | None => ret tt
  end ;;
  modify (set_current_page page_name) ;;
  st_rerun.

(** [render_login], lines 145-168. *)
Definition render_login (inp : login_form) : M unit :=
  show (st_header LoginHeader) ;;
  show (st_info LoginInfo) ;;
  if submitted_login inp then
    if nonempty (username_login inp) then
      modify (set_logged_in_user (Some (username_login inp))) ;;
      la <- gets login_attempts ;;
      match dict_get la (username_login inp) with
      | None =>
          l <- alloc (AttemptState 0 false) ;;
          modify (fun w =>
            set_login_attempts (dict_set (login_attempts w) (username_login inp) l) w)
      | Some l =>
          update l (with_locked false) ;;
          update l (with_attempts 0)
      end ;;
      show (st_success (Welcome (username_login inp))) ;;
      navigate_to Home
    else show (st_warning PleaseEnterUsername)
  else ret tt.

(** [render_home], lines 170-197. *)
Definition render_home (inp : home_buttons) : M unit :=
  user <- gets logged_in_user ;;
  match user with
  | Some ((_ :: _) as u) =>
      show (st_header (HomeHeader u)) ;;
      show (st_write ChooseAction) ;;
      (if store_button inp then navigate_to Store else ret tt) ;;
      is_locked <- gets (fun w =>
        match attempt_of w u with
        | Some s => locked s
        | None => false
        end) ;;
      (if (is_locked : bool) then show (st_error AccountLocked)
       else if retrieve_button inp then navigate_to Retrieve else ret tt) ;;
      if logout_button inp then
        la <- gets login_attempts ;;
        (if dict_mem la u then
           l <- alloc (AttemptState 0 false) ;;
           modify (fun w => set_login_attempts (dict_set (login_attempts w) u l) w)
         else ret tt) ;;
        modify (set_logged_in_user None) ;;
        navigate_to Login
      else ret tt
  | _ => navigate_to Login
  end.

(** [render_store], lines 199-230. *)
Definition render_store (inp : store_form) : M unit :=
  user <- gets logged_in_user ;;
  match user with
  | Some ((_ :: _) as u) =>
      show (st_header StoreHeader) ;;
      (if submitted_store inp then
         if nonempty (data_to_store inp) && nonempty (passkey_store inp) then
           hashed_pk <- lift (hash_passkey (passkey_store inp)) ;;
           encrypted_dt <- lift (encrypt_data (store_entropy inp) (data_to_store inp)) ;;
           sd <- gets stored_data ;;
           (if negb (dict_mem sd u)
            then modify (set_stored_data (dict_set sd u []))
            else ret tt) ;;
           sd <- gets stored_data ;;
           let data_id :=
             data_id_of (N.of_nat (length (default [] (dict_get sd u))) + 1) in
           match dict_get sd u with
           | Some items =>
               modify (set_stored_data
                 (dict_set sd u (dict_set items data_id (Item encrypted_dt hashed_pk))))
           | None => raise KeyError
           end ;;
           sd <- gets stored_data ;;
           save_data sd ;;
           show (st_success StoredSuccessfully)
         else show (st_warning ProvideBoth)
       else ret tt) ;;
      if store_back_button inp then navigate_to Home else ret tt
  | _ => navigate_to Login
  end.

(** The [for] loop of lines 258-270 over the items of the user: the first
    item whose hash matches ends the loop, whether it decrypts or not.
    The result is [found_data]; [r] is [user_attempts_state]. *)
Fixpoint scan_items (items : dict item) (hashed_input_pk : pystr) (r : loc) : M bool :=
  match items with
  | [] => ret false
  | (data_id, data_item) :: rest =>
      if decide (passkey_hash data_item = hashed_input_pk) then
        decrypted_text <- lift (decrypt_data (encrypted_text data_item)) ;;
        match decrypted_text with
        | Some text =>
            show (st_subheader DecryptedData) ;;
            show (st_success (Decrypted text)) ;;
            update r (with_attempts 0) ;;
            ret true
        | None =>
            show (st_error DecryptionFailed) ;;
            ret true
        end
      else scan_items rest hashed_input_pk r
  end.

(** [render_retrieve], lines 232-291. *)
Definition render_retrieve (inp : retrieve_form) : M unit :=
  user <- gets logged_in_user ;;
  match user with
  | Some ((_ :: _) as u) =>
      show (st_header RetrieveHeader) ;;
      sd <- gets stored_data ;;
      match dict_get sd u with
      | None | Some [] => show (st_info NoDataYet)
      | Some items =>
          dflt <- alloc (AttemptState 0 false) ;;
          la <- gets login_attempts ;;
          let user_attempts_state := default dflt (dict_get la u) in
          s <- deref user_attempts_state ;;
          if locked s then show (st_error MaxRetrievalAttempts)
          else
            if submitted_retrieve inp then
              if nonempty (passkey_retrieve inp) then
                hashed_input_pk <- lift (hash_passkey (passkey_retrieve inp)) ;;
                found_data <- scan_items items hashed_input_pk user_attempts_state ;;
                (if negb found_data then
                   update user_attempts_state incr_attempts ;;
                   s' <- deref user_attempts_state ;;
                   show (st_warning (IncorrectPasskey (attempts s'))) ;;
                   if (MAX_ATTEMPTS <=? attempts s')%Z then
                     update user_attempts_state (with_locked true) ;;
                     show (st_error MaxAttemptsLocked) ;;
                     st_rerun
                   else ret tt
                 else ret tt) ;;
                modify (fun w =>
                  set_login_attempts
                    (dict_set (login_attempts w) u user_attempts_state) w)
              else show (st_warning PleaseEnterPasskey)
            else ret tt
      end ;;
      if retrieve_back_button inp then navigate_to Home else ret tt
  | _ => navigate_to Login
  end.

(** The page dispatch at the end of the script, lines 295-310. *)
Definition render_page (inp : widgets) : M unit :=
  page_now <- gets current_page ;;
  user <- gets logged_in_user ;;
  if (match page_now with Login => true | _ => false end) || negb (truthy user)
  then render_login (on_login inp)
  else
    match page_now with
    | Home => render_home (on_home inp)
    | Store => render_store (on_store inp)
    | Retrieve => render_retrieve (on_retrieve inp)
    | Login => show (st_warning InvalidState) ;; navigate_to Login
    end.

End App.

(** [load_data], lines 46-56, over every value that [json.loads] may
    return and every exception that it may raise: line 51 hands the value on
    whatever its type, and the handler of line 52 catches
    [json.JSONDecodeError] only. The pages work on a vault; [load_data]
    above is this function on the data files whose document is a vault or
    is not JSON. *)
Definition load_data_json {jv : JsonValues} : M json_value :=
  (df <- gets data_file ;;
   match df with
   | Some raw =>
       try_except
         (content <- lift (read_text raw) ;;
          if nonempty content then lift (json_loads_value content)
          else ret (JObj []))
         (fun e => match e with JSONDecodeError => true | _ => false end)
         (show (st_error ErrorReadingData) ;; ret (JObj []))
   | None => ret (JObj [])
   end)%py.

(** One run of the whole script: the key and the cipher (lines 26-31), the
    vault read from [data.json] (line 124), then the current page. *)
Definition script {fernet : FernetLib} {json : JsonLib}
    (urandom : bytes) (inp : widgets) : M unit :=
  (cipher_suite <- init_cipher_suite urandom ;;
   data <- load_data ;;
   modify (set_stored_data data) ;;
   render_page cipher_suite inp)%py.

(** The state of a fresh session (lines 127-132) beside the given files. *)
Definition initial_world (key data : option bytes) (ro : bool) : world :=
  World key data ro None [] [] Login [] [].

(** The worlds that runs of the script reach from a fresh session. *)
Inductive reachable {fernet : FernetLib} {json : JsonLib} : world -> Prop :=
| reachable_initial key data ro : reachable (initial_world key data ro)
| reachable_run w urandom inp :
    reachable w -> reachable (snd (script urandom inp w)).

(** ** Notions used to state the properties *)

(** The first item, in insertion order, whose stored hash is [h]. *)
Fixpoint first_match (items : dict item) (h : pystr) : option (pystr * item) :=
  match items with
  | [] => None
  | (data_id, data_item) :: rest =>
      if decide (passkey_hash data_item = h) then Some (data_id, data_item)
      else first_match rest h
  end.

(** The attempt state that the code reads for a user: the dictionary of
    [login_attempts], or [{'attempts': 0, 'locked': False}] for a user
    without one. *)
Definition state_of (w : world) (user : pystr) : attempt_state :=
  default fresh_attempts (attempt_of w user).

(** The counter stays within [0 .. MAX_ATTEMPTS] and a user at the
    threshold is locked. *)
Definition attempt_ok (s : attempt_state) : Prop :=
  (0 <= attempts s <= MAX_ATTEMPTS)%Z
  /\ (attempts s = MAX_ATTEMPTS -> locked s = true).

(** The references of [login_attempts] are live and no dictionary is shared
    between two users. *)
Definition refs_ok (w : world) : Prop :=
  (forall u l, dict_get (login_attempts w) u = Some l -> (l < length (heap w))%nat)
  /\ (forall u1 u2 l,
        dict_get (login_attempts w) u1 = Some l ->
        dict_get (login_attempts w) u2 = Some l -> u1 = u2).

Definition session_ok (w : world) : Prop :=
  refs_ok w /\ forall u, attempt_ok (state_of w u).

(** The AttemptGuard of the specification, section 4.4: what one run of the
    script may do to the attempt state of a user. *)
Inductive guard_step (s : attempt_state) : attempt_state -> Prop :=
| guard_stay : guard_step s s
| guard_login : guard_step s (AttemptState 0 false)
| guard_reset_attempts : guard_step s (AttemptState 0 (locked s))
| guard_failure :
    locked s = false -> (attempts s + 1 < MAX_ATTEMPTS)%Z ->
    guard_step s (AttemptState (attempts s + 1) false)
| guard_lock :
    locked s = false -> (attempts s + 1 >= MAX_ATTEMPTS)%Z ->
    guard_step s (AttemptState (attempts s + 1) true).

(** The world after showing [us]. *)
Definition shown (us : list ui) (w : world) : world :=
  set_display (display w ++ us) w.

(** The world [w] with another session and more on the page. *)
Definition with_session (la : dict loc) (h : list attempt_state) (us : list ui)
    (w : world) : world :=
  World (key_file w) (data_file w) (read_only w) (logged_in_user w) la h
        (current_page w) (stored_data w) (display w ++ us).

(** The world in which [navigate_to p] leaves the script. *)
Definition after_navigate (p : page) (w : world) : world :=
  set_current_page p
    match p, logged_in_user w with
    | Retrieve, _ => w
    | _, Some ((_ :: _) as u) =>
        match dict_get (login_attempts w) u with
        | Some l => set_heap (alter (with_attempts 0) l (heap w)) w
        | None => w
        end
    | _, _ => w
    end.

(** The vault after lines 217-222: the collection of [u], created if
    absent, with [it] under the next id. *)
Definition stored (sd : vault) (u : pystr) (it : item) : vault :=
  let sd1 := if dict_mem sd u then sd else dict_set sd u [] in
  let items := default [] (dict_get sd1 u) in
  dict_set sd1 u
    (dict_set items (data_id_of (N.of_nat (length items) + 1)) it).

(** The retrieval form is submitted alone (a run has one trigger) with a
    non-empty passkey whose hash is [h]. *)
Definition submits (inp : retrieve_form) (h : pystr) : Prop :=
  submitted_retrieve inp = true
  /\ passkey_retrieve inp <> []
  /\ retrieve_back_button inp = false
  /\ hash_passkey (passkey_retrieve inp) = Ret h.

(** A failed retrieval attempt on [items]: a submitted passkey whose hash
    matches no stored item. *)
Definition failed_attempt (items : dict item) (inp : retrieve_form) : Prop :=
  exists h, submits inp h
            /\ Forall (fun x => passkey_hash (snd x) <> h) items.

(** User [u] is logged in and has stored [items]. *)
Definition retrieving (w : world) (u : pystr) (items : dict item) : Prop :=
  logged_in_user w = Some u /\ u <> []
  /\ dict_get (stored_data w) u = Some items /\ items <> [].

(** The user whose attempt state a page other than Login may touch. *)
Definition user_of (w : world) : pystr := default [] (logged_in_user w).

(** [extends u la h la' h']: from the session [(la, h)] to [(la', h')] the
    heap has only grown, the entries of users other than [u] and the
    dictionaries they name are untouched, and [u] names its old dictionary
    or one allocated since. *)
Definition extends (u : pystr) (la : dict loc) (h : list attempt_state)
    (la' : dict loc) (h' : list attempt_state) : Prop :=
  (length h <= length h')%nat
  /\ (forall u', u' <> u -> dict_get la' u' = dict_get la u')
  /\ (forall l, (l < length h)%nat -> dict_get la u <> Some l -> h' !! l = h !! l)
  /\ match dict_get la' u with
     | Some l' => dict_get la u = Some l' \/ (length h <= l' < length h')%nat
     | None => dict_get la u = None
     end.

(** The attempt state of a user and the well-formedness of references, on
    a session given by its two components. *)
Definition state_in (la : dict loc) (h : list attempt_state) (u : pystr) : attempt_state :=
  default fresh_attempts
    match dict_get la u with Some l => h !! l | None => None end.

Definition refs_in (la : dict loc) (h : list attempt_state) : Prop :=
  (forall u l, dict_get la u = Some l -> (l < length h)%nat)
  /\ (forall u1 u2 l, dict_get la u1 = Some l -> dict_get la u2 = Some l -> u1 = u2).

(** What one run does to a session: the frame of [extends] for one user,
    and a step of the guard for that user. *)
Definition run_of (u : pystr) (w w' : world) : Prop :=
  extends u (login_attempts w) (heap w) (login_attempts w') (heap w')
  /\ guard_step (state_of w u) (state_of w' u).

(** Two worlds with the same session. *)
Definition same_session (w w' : world) : Prop :=
  login_attempts w' = login_attempts w /\ heap w' = heap w.

(** The ids of a collection that the application built: [data_k] is a key
    only for [k] from [1] to the number of items. *)
Definition sequential (items : dict item) : Prop :=
  forall k, dict_get items (data_id_of k) <> None ->
            1 <= k <= N.of_nat (length items).

(** A vault all of whose collections have sequential ids. *)
Definition vault_sequential (sd : vault) : Prop :=
  forall u items, dict_get sd u = Some items -> sequential items.

(** On the text [content] the two views of [json.loads] agree: the document
    is a vault, or it is not JSON. *)
Definition reads_vault {json : JsonLib} {jv : JsonValues} (content : pystr) : Prop :=
  match json_loads content with
  | Some v => json_loads_value content = Ret (of_vault v)
  | None => json_loads_value content = Raise JSONDecodeError
  end.

(** The files and the vault are the same in [w'] as in [w]. *)
Definition same_vault (w w' : world) : Prop :=
  key_file w' = key_file w /\ read_only w' = read_only w
  /\ data_file w' = data_file w /\ stored_data w' = stored_data w.

(** The decrypted texts among what a page shows, in order. *)
Definition plaintexts (us : list ui) : list pystr :=
  flat_map (fun x => match x with st_success (Decrypted t) => [t] | _ => [] end) us.

(** The logged-in user has a name and an attempt dictionary. *)
Definition user_known (w : world) : Prop :=
  forall u, logged_in_user w = Some u ->
            u <> [] /\ dict_mem (login_attempts w) u = true.

(** ** A small instance of the two library interfaces

    The properties below hold for every implementation of [FernetLib] and
    [JsonLib]. This instance shows that the interfaces can be implemented,
    and lets the functions of [app.py] run on concrete inputs: a token is the
    hexadecimal text of the key followed by the data, and is accepted under
    that key only. *)

Module Toy.

Definition hex_bytes (b : bytes) : bytes := map byte_of (SHA256.hex b).

Definition unhex_digit (c : N) : option N :=
  if (48 <=? c) && (c <? 58) then Some (c - 48)
  else if (97 <=? c) && (c <? 103) then Some (c - 87)
  else None.

Fixpoint unhex (t : list N) : option bytes :=
  match t with
  | [] => Some []
  | h :: l :: rest =>
      match unhex_digit h, unhex_digit l, unhex rest with
      | Some a, Some b, Some r => Some (byte_of (16 * a + b) :: r)
      | _, _, _ => None
      end
  | _ => None
  end.

Definition generate_key (urandom : bytes) : bytes :=
  firstn 44 (hex_bytes urandom ++ repeat x41 44).

Definition valid_key (key : bytes) : bool := (length key =? 44)%nat.

Definition encrypt (key : bytes) (r : entropy) (data : bytes) : bytes :=
  hex_bytes (key ++ data).

Definition decrypt (key token : bytes) : outcome bytes :=
  match unhex (map Byte.to_N token) with
  | Some b =>
      if decide (firstn (length key) b = key)
      then Ret (skipn (length key) b)
      else Raise InvalidToken
  | None => Raise InvalidToken
  end.

(** A vault is never parsed back, and is written as an empty file. *)
Definition loads (s : pystr) : option vault := None.
Definition dump (v : vault) : bytes := [].

End Toy.

(** ** The scenario of the specification, on the small instance

    User [alice] stores [hello world] under the passkey [abc123] and a
    second note under [xyz789]; [wrong] is a passkey of no item. *)

Module Demo.

Definition alice : pystr := Eval vm_compute in text "alice".
Definition hello_world : pystr := Eval vm_compute in text "hello world".
Definition second_note : pystr := Eval vm_compute in text "second note".
Definition abc123 : pystr := Eval vm_compute in text "abc123".
Definition xyz789 : pystr := Eval vm_compute in text "xyz789".
Definition wrong : pystr := Eval vm_compute in text "wrong".

Definition key : bytes := Eval vm_compute in Toy.generate_key [x2a].

Definition noon : entropy := Entropy 1700000000 [].

Definition utf8 (s : pystr) : bytes := map byte_of (default [] (utf8_encode s)).

Definition token_of (text : pystr) : pystr := lit (Toy.encrypt key noon (utf8 text)).

Definition hash_of (passkey : pystr) : pystr := SHA256.hexdigest (utf8 passkey).

Definition hash_abc123 : pystr := Eval vm_compute in hash_of abc123.
Definition hash_xyz789 : pystr := Eval vm_compute in hash_of xyz789.
Definition hash_wrong : pystr := Eval vm_compute in hash_of wrong.

Definition item1 : item := Eval vm_compute in Item (token_of hello_world) hash_abc123.
Definition item2 : item := Eval vm_compute in Item (token_of second_note) hash_xyz789.

(** An item whose hash is that of [abc123] and whose ciphertext is no token. *)
Definition corrupted : item := Eval vm_compute in Item (text "!!") hash_abc123.

Definition items : dict item := [(data_id_of 1, item1); (data_id_of 2, item2)].

(** [alice] is logged in, on the Retrieve page, with the given collection
    and no failed attempt. *)
Definition world_with (v : dict item) : world :=
  World (Some key) None false (Some alice) [(alice, 0%nat)]
        [AttemptState 0 false] Retrieve [(alice, v)] [].

Definition try_passkey (passkey : pystr) : retrieve_form :=
  RetrieveForm passkey true false.

Definition store_form_of (text passkey : pystr) : store_form :=
  StoreForm text passkey true false noon.

Definition idle : widgets :=
  Widgets (LoginForm alice [] true) (HomeButtons false false false)
          (store_form_of hello_world abc123) (try_passkey wrong).

(** The widgets of a run: nothing is pressed but what the run is about. *)
Definition quiet : widgets :=
  Widgets (LoginForm [] [] false) (HomeButtons false false false)
          (StoreForm [] [] false false noon) (RetrieveForm [] false false).

Definition logs_in (user : pystr) : widgets :=
  Widgets (LoginForm user [] true) (on_home quiet) (on_store quiet) (on_retrieve quiet).
Definition presses (b : home_buttons) : widgets :=
  Widgets (on_login quiet) b (on_store quiet) (on_retrieve quiet).
Definition stores (text passkey : pystr) : widgets :=
  Widgets (on_login quiet) (on_home quiet) (store_form_of text passkey) (on_retrieve quiet).
Definition goes_back : widgets :=
  Widgets (on_login quiet) (on_home quiet) (StoreForm [] [] false true noon)
          (RetrieveForm [] false true).
Definition retrieves (passkey : pystr) : widgets :=
  Widgets (on_login quiet) (on_home quiet) (on_store quiet) (try_passkey passkey).

(** One run of the current page on a cleared screen. *)
Definition run {fernet : FernetLib} {json : JsonLib} (inp : widgets) (w : world) : world :=
  snd (render_page key inp (set_display [] w)).

(** The runs of a session, in order. *)
Definition runs {fernet : FernetLib} {json : JsonLib} (inps : list widgets) (w : world) : world :=
  fold_left (fun w inp => run inp w) inps w.

End Demo.

(** ** Further scenes on the small instance *)

Module Scene.

Definition bob : pystr := Eval vm_compute in text "bob".

(** [alice] is logged in on page [p] with the attempt state [s] and the
    collection [v]; [ro] tells whether the files can be written. *)
Definition world_at (p : page) (s : attempt_state) (v : dict item) (ro : bool) : world :=
  World (Some Demo.key) None ro (Some Demo.alice) [(Demo.alice, 0%nat)] [s] p
        [(Demo.alice, v)] [].

(** The vault after [alice] has stored [hello world] under [abc123]. *)
Definition vault1 : vault := [(Demo.alice, [(data_id_of 1, Demo.item1)])].

(** An implementation of [JsonLib] that knows one vault: every vault is
    written as the one-character text [v], and that text reads back as
    [v0]. It reads back what it wrote exactly when it wrote [v0]. *)
Definition json_of (v0 : vault) : JsonLib := {|
  json_loads := fun s => if decide (s = [118]) then Some v0 else None;
  json_dump := fun _ => [x76]
|}.



(** The files that the store of [vault1] left, in a session where the
    vault in memory is empty: [alice] is logged in, on the Retrieve page. *)
Definition later : world :=
  World (Some Demo.key) (Some [x76]) false (Some Demo.alice) [(Demo.alice, 0%nat)]
        [AttemptState 0 false] Retrieve [] [].

End Scene.

(** * Properties *)

(** ** The UTF-8 codec *)

Ltac Zify.zify_post_hook ::= Z.to_euclidean_division_equations.

Lemma byte_to_N_lt (b : byte) : Byte.to_N b < 256.
Proof. pose proof (Byte.to_N_bounded b). lia. Qed.

Lemma byte_of_to_N (b : byte) : byte_of (Byte.to_N b) = b.
Proof. unfold byte_of. now rewrite Byte.of_to_N. Qed.

Lemma to_N_byte_of (n : N) : n < 256 -> Byte.to_N (byte_of n) = n.
Proof.
  intros Hn. unfold byte_of.
  destruct (Byte.of_N n) as [b|] eqn:E.
  - now apply Byte.to_of_N.
  - apply Byte.of_N_None_iff in E. lia.
Qed.

Ltac decide_tests :=
  repeat match goal with
  | |- context [?a <? ?b] => destruct (N.ltb_spec a b); try lia
  | |- context [?a <=? ?b] => destruct (N.leb_spec a b); try lia
  | H : context [?a <? ?b] |- _ => destruct (N.ltb_spec a b); try lia
  | H : context [?a <=? ?b] |- _ => destruct (N.leb_spec a b); try lia
  end.

Lemma utf8_encode_cp_bytes c bs :
  utf8_encode_cp c = Some bs -> Forall (fun b => b < 256) bs.
Proof.
  unfold utf8_encode_cp, is_surrogate. intros H.
  decide_tests; simpl in H; try discriminate;
    injection H as <-; repeat (constructor; [lia|]); constructor.
Qed.

Lemma utf8_decode_encode_cp c bs rest :
  utf8_encode_cp c = Some bs ->
  utf8_decode (bs ++ rest) =
    match utf8_decode rest with Some s => Some (c :: s) | None => None end.
Proof.
  unfold utf8_encode_cp. intros H.
  destruct (N.ltb_spec c 0x80); [injection H as <-|].
  { simpl. destruct (N.ltb_spec c 128); [reflexivity | lia]. }
  destruct (N.ltb_spec c 0x800); [injection H as <-|].
  { cbn [app utf8_decode]. unfold is_cont. decide_tests. cbn [andb].
    replace ((192 + c / 64 - 192) * 64 + (128 + c mod 64 - 128)) with c by lia.
    reflexivity. }
  destruct (N.ltb_spec c 0x10000).
  { destruct (is_surrogate c) eqn:Es; [discriminate|]. injection H as <-.
    cbn [app utf8_decode]. unfold is_cont.
    replace ((224 + c / 4096 - 224) * 4096 + (128 + (c / 64) mod 64 - 128) * 64
             + (128 + c mod 64 - 128)) with c by lia.
    rewrite Es. decide_tests. reflexivity. }
  destruct (N.ltb_spec c 0x110000); [injection H as <-|discriminate].
  cbn [app utf8_decode]. unfold is_cont.
  replace ((240 + c / 262144 - 240) * 262144 + (128 + (c / 4096) mod 64 - 128) * 4096
           + (128 + (c / 64) mod 64 - 128) * 64 + (128 + c mod 64 - 128)) with c by lia.
  decide_tests. reflexivity.
Qed.

Lemma utf8_decode_encode s bs :
  utf8_encode s = Some bs -> utf8_decode bs = Some s.
Proof.
  revert bs. induction s as [|c s IH]; intros bs H; simpl in H.
  - now injection H as <-.
  - destruct (utf8_encode_cp c) as [b1|] eqn:E1; [|discriminate].
    destruct (utf8_encode s) as [b2|] eqn:E2; [|discriminate].
    injection H as <-.
    rewrite (utf8_decode_encode_cp _ _ _ E1), (IH _ eq_refl). reflexivity.
Qed.

Lemma utf8_encode_bytes s bs :
  utf8_encode s = Some bs -> Forall (fun b => b < 256) bs.
Proof.
  revert bs. induction s as [|c s IH]; intros bs H; simpl in H.
  - injection H as <-. constructor.
  - destruct (utf8_encode_cp c) as [b1|] eqn:E1; [|discriminate].
    destruct (utf8_encode s) as [b2|] eqn:E2; [|discriminate].
    injection H as <-. apply Forall_app. split.
    + eapply utf8_encode_cp_bytes; eassumption.
    + now apply IH.
Qed.

Lemma utf8_encode_cp_scalar c :
  is_scalar c = true <-> exists bs, utf8_encode_cp c = Some bs.
Proof.
  unfold is_scalar, utf8_encode_cp, is_surrogate. split.
  - intros H. decide_tests; simpl in *; try discriminate; eauto.
  - intros [bs H]. decide_tests; simpl in *; try discriminate; reflexivity.
Qed.

Lemma utf8_encode_well_formed s :
  well_formed s <-> exists bs, utf8_encode s = Some bs.
Proof.
  unfold well_formed. induction s as [|c s IH]; simpl.
  - split; [eauto | constructor].
  - split.
    + intros H. inversion H as [|? ? Hc Hs]; subst.
      apply utf8_encode_cp_scalar in Hc as [b1 ->].
      apply IH in Hs as [b2 ->]. eauto.
    + intros [bs H].
      destruct (utf8_encode_cp c) as [b1|] eqn:E1; [|discriminate].
      destruct (utf8_encode s) as [b2|] eqn:E2; [|discriminate].
      constructor.
      * apply utf8_encode_cp_scalar. eauto.
      * apply IH. eauto.
Qed.

Lemma map_to_N_byte_of ns :
  Forall (fun b => b < 256) ns -> map Byte.to_N (map byte_of ns) = ns.
Proof.
  induction 1 as [|n ns Hn _ IH]; simpl; [reflexivity|].
  now rewrite to_N_byte_of, IH.
Qed.

(** Text without lone surrogates encodes, and decodes back to itself. *)
Lemma str_encode_decode s :
  well_formed s -> exists b, str_encode s = Ret b /\ bytes_decode b = Ret s.
Proof.
  intros H. apply utf8_encode_well_formed in H as [ns E].
  exists (map byte_of ns). unfold str_encode, bytes_decode. rewrite E. split; [reflexivity|].
  rewrite map_to_N_byte_of by (eapply utf8_encode_bytes; eassumption).
  now rewrite (utf8_decode_encode _ _ E).
Qed.

(** A lone surrogate does not encode. *)
Lemma str_encode_raises s :
  ~ well_formed s -> str_encode s = Raise UnicodeEncodeError.
Proof.
  intros H. unfold str_encode.
  destruct (utf8_encode s) as [ns|] eqn:E; [|reflexivity].
  exfalso. apply H, utf8_encode_well_formed. eauto.
Qed.

Lemma utf8_decode_ascii b :
  is_ascii b -> utf8_decode (map Byte.to_N b) = Some (lit b).
Proof.
  unfold lit. induction 1 as [|x b Hx _ IH]; simpl; [reflexivity|].
  destruct (N.ltb_spec (Byte.to_N x) 128); [|lia]. now rewrite IH.
Qed.

Lemma utf8_encode_ascii b :
  is_ascii b -> utf8_encode (lit b) = Some (map Byte.to_N b).
Proof.
  unfold lit. induction 1 as [|x b Hx _ IH]; simpl; [reflexivity|].
  unfold utf8_encode_cp. destruct (N.ltb_spec (Byte.to_N x) 128); [|lia].
  now rewrite IH.
Qed.

(** ASCII bytes decode to the text of the same characters, which encodes
    back to the same bytes. *)
Lemma bytes_decode_ascii b :
  is_ascii b -> bytes_decode b = Ret (lit b) /\ str_encode (lit b) = Ret b.
Proof.
  intros H. unfold bytes_decode, str_encode.
  rewrite (utf8_decode_ascii _ H), (utf8_encode_ascii _ H). split; [reflexivity|].
  f_equal. rewrite map_map. rewrite <- (map_id b) at 2.
  apply map_ext. intros x. apply byte_of_to_N.
Qed.

Example utf8_euro_sign : str_encode [0x20AC] = Ret [xe2; x82; xac].
Proof. reflexivity. Qed.

Example utf8_astral : str_encode [0x10348] = Ret [xf0; x90; x8d; x88].
Proof. reflexivity. Qed.

Example utf8_rejects_overlong : bytes_decode [xc0; x80] = Raise UnicodeDecodeError.
Proof. reflexivity. Qed.

Example utf8_rejects_surrogate : bytes_decode [xed; xa0; x80] = Raise UnicodeDecodeError.
Proof. reflexivity. Qed.

Example utf8_rejects_truncated : bytes_decode [xe2; x82] = Raise UnicodeDecodeError.
Proof. reflexivity. Qed.

Example utf8_rejects_beyond_unicode :
  bytes_decode [xf4; x90; x80; x80] = Raise UnicodeDecodeError.
Proof. reflexivity. Qed.

(** The decoder accepts only what the encoder produces. *)
Lemma utf8_encode_decode_aux n :
  forall bs s, (length bs <= n)%nat ->
    Forall (fun b => b < 256) bs ->
    utf8_decode bs = Some s -> utf8_encode s = Some bs.
Proof.
  induction n as [|n IH]; intros bs s Hlen Hb H.
  - destruct bs; [|simpl in Hlen; lia]. simpl in H. now injection H as <-.
  - destruct bs as [|b0 r0]; [simpl in H; now injection H as <-|].
    cbn [utf8_decode] in H. cbn [length] in Hlen.
    inversion Hb as [|? ? Hb0 Hr0]; subst.
    destruct (N.ltb_spec b0 0x80).
    { destruct (utf8_decode r0) as [s0|] eqn:E; [|discriminate]. injection H as <-.
      cbn [utf8_encode]. rewrite (IH r0 s0) by (assumption || lia).
      unfold utf8_encode_cp. destruct (N.ltb_spec b0 128); [reflexivity | lia]. }
    destruct (N.ltb_spec b0 0xC0); [discriminate|].
    destruct (N.ltb_spec b0 0xE0).
    { destruct r0 as [|b1 r1]; [discriminate|]. cbn [length] in Hlen.
      inversion Hr0 as [|? ? Hb1 Hr1]; subst.
      unfold is_cont in H.
      destruct (N.leb_spec 0x80 b1); [|discriminate].
      destruct (N.ltb_spec b1 0xC0); [|discriminate].
      destruct (N.leb_spec 0x80 ((b0 - 0xC0) * 64 + (b1 - 0x80))); [|discriminate].
      cbn [andb] in H.
      destruct (utf8_decode r1) as [s1|] eqn:E; [|discriminate]. injection H as <-.
      cbn [utf8_encode]. rewrite (IH r1 s1) by (assumption || lia).
      unfold utf8_encode_cp.
      destruct (N.ltb_spec ((b0 - 192) * 64 + (b1 - 128)) 128); [lia|].
      destruct (N.ltb_spec ((b0 - 192) * 64 + (b1 - 128)) 2048); [|lia].
      cbn [app]. f_equal. repeat (f_equal; try lia). }
    destruct (N.ltb_spec b0 0xF0).
    { destruct r0 as [|b1 [|b2 r2]]; try discriminate. cbn [length] in Hlen.
      inversion Hr0 as [|? ? Hb1 Hr1]; subst.
      inversion Hr1 as [|? ? Hb2 Hr2]; subst.
      unfold is_cont in H.
      destruct (N.leb_spec 0x80 b1); [|discriminate].
      destruct (N.ltb_spec b1 0xC0); [|discriminate].
      destruct (N.leb_spec 0x80 b2); [|discriminate].
      destruct (N.ltb_spec b2 0xC0); [|discriminate].
      set (c := (b0 - 0xE0) * 4096 + (b1 - 0x80) * 64 + (b2 - 0x80)) in *.
      destruct (N.leb_spec 0x800 c); [|discriminate].
      destruct (is_surrogate c) eqn:Es; [discriminate|].
      cbn [andb negb] in H.
      destruct (utf8_decode r2) as [s2|] eqn:E; [|discriminate]. injection H as <-.
      cbn [utf8_encode]. rewrite (IH r2 s2) by (assumption || lia).
      unfold utf8_encode_cp. rewrite Es.
      destruct (N.ltb_spec c 128); [lia|].
      destruct (N.ltb_spec c 2048); [lia|].
      destruct (N.ltb_spec c 65536); [|subst c; lia].
      cbn [app]. subst c. f_equal. repeat (f_equal; try lia). }
    destruct (N.ltb_spec b0 0xF8); [|discriminate].
    destruct r0 as [|b1 [|b2 [|b3 r3]]]; try discriminate. cbn [length] in Hlen.
    inversion Hr0 as [|? ? Hb1 Hr1]; subst.
    inversion Hr1 as [|? ? Hb2 Hr2]; subst.
    inversion Hr2 as [|? ? Hb3 Hr3]; subst.
    unfold is_cont in H.
    destruct (N.leb_spec 0x80 b1); [|discriminate].
    destruct (N.ltb_spec b1 0xC0); [|discriminate].
    destruct (N.leb_spec 0x80 b2); [|discriminate].
    destruct (N.ltb_spec b2 0xC0); [|discriminate].
    destruct (N.leb_spec 0x80 b3); [|discriminate].
    destruct (N.ltb_spec b3 0xC0); [|discriminate].
    set (c := (b0 - 0xF0) * 262144 + (b1 - 0x80) * 4096 + (b2 - 0x80) * 64 + (b3 - 0x80)) in *.
    destruct (N.leb_spec 0x10000 c); [|discriminate].
    destruct (N.ltb_spec c 0x110000); [|discriminate].
    cbn [andb] in H.
    destruct (utf8_decode r3) as [s3|] eqn:E; [|discriminate]. injection H as <-.
    cbn [utf8_encode]. rewrite (IH r3 s3) by (assumption || lia).
    unfold utf8_encode_cp.
    destruct (N.ltb_spec c 128); [lia|].
    destruct (N.ltb_spec c 2048); [lia|].
    destruct (N.ltb_spec c 65536); [lia|].
    destruct (N.ltb_spec c 1114112); [|lia].
    cbn [app]. subst c.
    f_equal. repeat (f_equal; try lia).
Qed.

(** What decodes is well-formed text, and encodes back to the same bytes:
    the UTF-8 codec is a bijection between well-formed text and the byte
    sequences that decode. *)
Lemma bytes_decode_encode b s : bytes_decode b = Ret s -> str_encode s = Ret b.
Proof.
  unfold bytes_decode, str_encode. intros H.
  destruct (utf8_decode (map Byte.to_N b)) as [s'|] eqn:E; [|discriminate].
  injection H as ->.
  rewrite (utf8_encode_decode_aux (length (map Byte.to_N b)) _ _ (Nat.le_refl _)
             ltac:(apply Forall_map, Forall_forall; intros; apply byte_to_N_lt) E).
  f_equal. rewrite map_map. rewrite <- (map_id b) at 2.
  apply map_ext. intros x. apply byte_of_to_N.
Qed.

Section Cipher.
Context {fernet : FernetLib}.
Variable cipher_suite : bytes.

(** C1, for text that encodes. For every plaintext [P] without a lone
    surrogate code point, that is for every [str] that [P.encode()]
    accepts, encrypting [P] under the key of the process returns a
    ciphertext, whatever the clock and the IV, and [decrypt_data] of that
    ciphertext returns [P]. *)
Theorem encrypt_decrypt_roundtrip r P :
  Fernet_valid_key cipher_suite = true ->
  well_formed P ->
  exists c, encrypt_data cipher_suite r P = Ret c
            /\ decrypt_data cipher_suite c = Ret (Some P).
Proof.
  intros Hk HP.
  destruct (str_encode_decode P HP) as (b & Eb & Db).
  pose proof (Fernet_token_ascii cipher_suite r b) as Ha.
  destruct (bytes_decode_ascii _ Ha) as [Dt Et].
  exists (lit (Fernet_encrypt cipher_suite r b)). split.
  - unfold encrypt_data. rewrite Eb. simpl. exact Dt.
  - unfold decrypt_data. rewrite Et. simpl.
    rewrite (Fernet_roundtrip _ _ _ Hk). simpl. rewrite Db. reflexivity.
Qed.

Lemma encrypt_data_surrogate r P :
  ~ well_formed P -> encrypt_data cipher_suite r P = Raise UnicodeEncodeError.
Proof. intros H. unfold encrypt_data. now rewrite (str_encode_raises _ H). Qed.

Lemma decrypt_data_total c :
  decrypt_data cipher_suite c = Ret None
  \/ exists token payload p,
       str_encode c = Ret token
       /\ Fernet_decrypt cipher_suite token = Ret payload
       /\ bytes_decode payload = Ret p
       /\ decrypt_data cipher_suite c = Ret (Some p).
Proof.
  unfold decrypt_data, str_encode, bytes_decode.
  destruct (utf8_encode c) as [ns|]; simpl; [|now left].
  destruct (Fernet_decrypt cipher_suite (map byte_of ns)) as [payload|e] eqn:E; simpl.
  - destruct (utf8_decode (map Byte.to_N payload)) as [p|] eqn:D; simpl; [|now left].
    right. exists (map byte_of ns), payload, p. rewrite D. auto.
  - rewrite (Fernet_decrypt_raises _ _ _ E). now left.
Qed.
End Cipher.

(** ** [decrypt_data] on foreign and tampered tokens *)


Section Authentication.
Context {fernet : FernetLib} {authentic : FernetAuthentic}.
Variable cipher_suite : bytes.



End Authentication.

(** ** hashlib.sha256 and [hash_passkey] *)

Lemma Forall_weaken {A : Type} (P Q : A -> Prop) (l : list A) :
  (forall x, P x -> Q x) -> Forall P l -> Forall Q l.
Proof. intros HPQ. induction 1; constructor; auto. Qed.

Module SHA256Facts.
Import SHA256.

Lemma length_be_bytes n x : length (be_bytes n x) = n.
Proof.
  revert x. induction n as [|n IH]; intros x; simpl; [reflexivity|].
  rewrite length_app, IH. simpl. lia.
Qed.

Lemma length_digest msg : length (digest msg) = 32%nat.
Proof.
  unfold digest, digest_words. rewrite length_map.
  cbn [flat_map]. rewrite !length_app, !length_be_bytes. reflexivity.
Qed.

Lemma length_hex b : length (hex b) = (2 * length b)%nat.
Proof.
  unfold hex. induction b as [|x b IH]; simpl; [reflexivity|].
  rewrite IH. lia.
Qed.

Lemma length_hexdigest msg : length (hexdigest msg) = 64%nat.
Proof. unfold hexdigest. now rewrite length_hex, length_digest. Qed.

Lemma hex_digit_lt n : n < 16 -> hex_digit n < 103.
Proof. unfold hex_digit. intros H. destruct (N.ltb_spec n 10); lia. Qed.

Lemma hex_chars b : Forall (fun c => c < 103) (hex b).
Proof.
  unfold hex. induction b as [|x b IH]; simpl; [constructor|].
  pose proof (byte_to_N_lt x).
  constructor; [apply hex_digit_lt; lia|].
  constructor; [apply hex_digit_lt; lia|]. exact IH.
Qed.
End SHA256Facts.

Lemma hash_passkey_spec passkey :
  well_formed passkey ->
  exists b, str_encode passkey = Ret b
            /\ hash_passkey passkey = Ret (SHA256.hexdigest b).
Proof.
  intros H. destruct (str_encode_decode _ H) as (b & E & _).
  exists b. unfold hash_passkey. now rewrite E.
Qed.

(** [hashlib.sha256] on test vectors: the empty message, one block, two
    blocks, and the passkey of the scenario. *)
Example sha256_empty :
  SHA256.hexdigest []
  = text "e3b0c44298fc1c149afbf4c8996fb92427ae41e4649b934ca495991b7852b855".
Proof. vm_compute. reflexivity. Qed.

Example sha256_abc :
  SHA256.hexdigest (map byte_of (text "abc"))
  = text "ba7816bf8f01cfea414140de5dae2223b00361a396177a9cb410ff61f20015ad".
Proof. vm_compute. reflexivity. Qed.

Example sha256_two_blocks :
  SHA256.hexdigest (repeat x61 120)
  = text "2f3d335432c70b580af0e8e1b3674a7c020d683aa5f73aaaedfdc55af904c21c".
Proof. vm_compute. reflexivity. Qed.

Example hash_passkey_abc123 :
  hash_passkey (text "abc123")
  = Ret (text "6ca13d52ca70c883e0f0bb101e425a89e8624de51db2d2392593af6a84118090").
Proof. vm_compute. reflexivity. Qed.

(** C9. For every well-formed passkey (a [str] without a lone surrogate),
    [hash_passkey] returns a digest, raising nothing; the digest has 64
    characters whatever the passkey; equal passkeys have equal digests. *)
Theorem hash_passkey_deterministic_fixed_length passkey :
  well_formed passkey ->
  exists digest,
    hash_passkey passkey = Ret digest
    /\ length digest = 64%nat
    /\ forall passkey', passkey' = passkey -> hash_passkey passkey' = Ret digest.
Proof.
  intros H. destruct (hash_passkey_spec _ H) as (b & _ & E).
  exists (SHA256.hexdigest b). split; [exact E|].
  split; [apply SHA256Facts.length_hexdigest|].
  now intros ? ->.
Qed.

(** ** Dictionaries, navigation and retrieval *)

Section DictFacts.
Context {V : Type}.
Implicit Types (d : dict V) (k : pystr) (v : V).

Lemma dict_get_set_eq d k v : dict_get (dict_set d k v) k = Some v.
Proof.
  induction d as [|[k' v'] d IH]; simpl.
  - now rewrite decide_True.
  - destruct (decide (k' = k)) as [->|Hne]; simpl.
    + now rewrite decide_True.
    + now rewrite decide_False.
Qed.

Lemma dict_get_set_ne d k k' v :
  k' <> k -> dict_get (dict_set d k v) k' = dict_get d k'.
Proof.
  intros Hne. induction d as [|[k0 v0] d IH]; simpl.
  - now rewrite decide_False by congruence.
  - destruct (decide (k0 = k)) as [->|Hk]; simpl.
    + now rewrite !decide_False by congruence.
    + now rewrite IH.
Qed.

Lemma dict_set_same d k v : dict_get d k = Some v -> dict_set d k v = d.
Proof.
  induction d as [|[k0 v0] d IH]; simpl; [discriminate|].
  destruct (decide (k0 = k)) as [->|Hk]; intros H.
  - now injection H as ->.
  - now rewrite IH.
Qed.

Lemma dict_set_fresh d k v : dict_get d k = None -> dict_set d k v = d ++ [(k, v)].
Proof.
  induction d as [|[k0 v0] d IH]; simpl; [reflexivity|].
  destruct (decide (k0 = k)) as [->|Hk]; intros H; [discriminate|].
  now rewrite IH.
Qed.

Lemma dict_mem_get d k : dict_mem d k = true <-> exists v, dict_get d k = Some v.
Proof.
  unfold dict_mem. destruct (dict_get d k); split; eauto; try discriminate.
  intros [? ?]; discriminate.
Qed.
End DictFacts.

(** Symbolic execution of a script fragment: the monad unfolded, the
    fields of the world projected. *)
Ltac msimpl :=
  unfold shown, show, alloc, deref, update, st_rerun, st_stop;
  unfold bind, gets, modify, ret, lift, raise;
  cbn [fst snd key_file data_file read_only logged_in_user login_attempts heap
       current_page stored_data display set_key_file set_data_file
       set_logged_in_user set_login_attempts set_heap set_current_page
       set_stored_data set_display default from_option id negb andb orb
       nonempty truthy].

Section Retrieval.
Context {fernet : FernetLib} {json : JsonLib}.
Variable cs : bytes.

Lemma navigate_to_eq p w :
  navigate_to p w = (Raise RerunException, after_navigate p w).
Proof.
  unfold navigate_to, after_navigate, bind, gets, modify, st_rerun, raise, update, ret, dict_mem.
  destruct (logged_in_user w) as [[|c u]|] eqn:Eu; destruct p; cbn; try reflexivity;
    destruct (dict_get (login_attempts w) (c :: u)); reflexivity.
Qed.

Lemma first_match_split items h :
  match first_match items h with
  | Some (i, it) =>
      exists pre post, items = pre ++ (i, it) :: post
        /\ passkey_hash it = h
        /\ Forall (fun x => passkey_hash (snd x) <> h) pre
  | None => Forall (fun x => passkey_hash (snd x) <> h) items
  end.
Proof.
  induction items as [|[i it] items IH]; simpl; [constructor|].
  destruct (decide (passkey_hash it = h)) as [E|E].
  - exists [], items. repeat split; [exact E | constructor].
  - destruct (first_match items h) as [[j jt]|].
    + destruct IH as (pre & post & -> & Hh & Hpre).
      exists ((i, it) :: pre), post. repeat split; [exact Hh|]. now constructor.
    + now constructor.
Qed.

Lemma first_match_app pre i it post h :
  Forall (fun x => passkey_hash (snd x) <> h) pre ->
  passkey_hash it = h ->
  first_match (pre ++ (i, it) :: post) h = Some (i, it).
Proof.
  intros Hpre Hh. induction Hpre as [|[j jt] pre Hj _ IH]; simpl.
  - now rewrite decide_True.
  - simpl in Hj. now rewrite decide_False.
Qed.

Lemma first_match_none items h :
  Forall (fun x => passkey_hash (snd x) <> h) items -> first_match items h = None.
Proof.
  induction 1 as [|[j jt] items Hj _ IH]; simpl; [reflexivity|].
  simpl in Hj. now rewrite decide_False.
Qed.

Lemma scan_items_eq items h r w :
  scan_items cs items h r w =
    match first_match items h with
    | None => (Ret false, w)
    | Some (_, it) =>
        match decrypt_data cs (encrypted_text it) with
        | Ret (Some text) =>
            (Ret true,
             set_heap (alter (with_attempts 0) r (heap w))
               (shown [st_subheader DecryptedData; st_success (Decrypted text)] w))
        | Ret None => (Ret true, shown [st_error DecryptionFailed] w)
        | Raise e => (Raise e, w)
        end
    end.
Proof.
  induction items as [|[i it] items IH]; simpl; [reflexivity|].
  destruct (decide (passkey_hash it = h)) as [Eh|Eh]; [|exact IH].
  unfold bind, lift, show, modify, update, ret, shown.
  destruct (decrypt_data cs (encrypted_text it)) as [[text|]|ex]; cbn;
    rewrite <- ?app_assoc; reflexivity.
Qed.

Lemma lookup_alter_app {A : Type} (f : A -> A) (l : nat) (h g : list A) (s : A) :
  h !! l = Some s -> alter f l (h ++ g) !! l = Some (f s).
Proof.
  intros H. rewrite list_lookup_alter_eq.
  rewrite lookup_app_l by (eapply lookup_lt_Some; eassumption).
  now rewrite H.
Qed.

Lemma nonempty_true s : nonempty s = true <-> s <> [].
Proof. destruct s; simpl; split; congruence. Qed.

Lemma render_retrieve_submitted inp w u items l s h :
  logged_in_user w = Some u -> u <> [] ->
  dict_get (stored_data w) u = Some items -> items <> [] ->
  dict_get (login_attempts w) u = Some l ->
  heap w !! l = Some s -> locked s = false ->
  submitted_retrieve inp = true ->
  passkey_retrieve inp <> [] ->
  hash_passkey (passkey_retrieve inp) = Ret h ->
  retrieve_back_button inp = false ->
  render_retrieve cs inp w =
    let la := login_attempts w in
    let h1 := heap w ++ [AttemptState 0 false] in
    match first_match items h with
    | Some (_, it) =>
        match decrypt_data cs (encrypted_text it) with
        | Ret (Some text) =>
            (Ret tt,
             with_session la (alter (with_attempts 0) l h1)
               [st_header RetrieveHeader; st_subheader DecryptedData;
                st_success (Decrypted text)] w)
        | Ret None =>
            (Ret tt,
             with_session la h1
               [st_header RetrieveHeader; st_error DecryptionFailed] w)
        | Raise e => (Raise e, with_session la h1 [st_header RetrieveHeader] w)
        end
    | None =>
        if (MAX_ATTEMPTS <=? attempts s + 1)%Z then
          (Raise RerunException,
           with_session la (alter (with_locked true) l (alter incr_attempts l h1))
             [st_header RetrieveHeader;
              st_warning (IncorrectPasskey (attempts s + 1));
              st_error MaxAttemptsLocked] w)
        else
          (Ret tt,
           with_session la (alter incr_attempts l h1)
             [st_header RetrieveHeader;
              st_warning (IncorrectPasskey (attempts s + 1))] w)
    end.
Proof.
  intros Hu Hne Hsd Hitems Hla Hs Hlock Hsub Hpk Hh Hback.
  destruct u as [|c u]; [congruence|].
  destruct items as [|x items]; [congruence|].
  apply nonempty_true in Hpk.
  assert (Hs1 : (heap w ++ [AttemptState 0 false]) !! l = Some s).
  { rewrite lookup_app_l by (eapply lookup_lt_Some; eassumption). exact Hs. }
  unfold render_retrieve. msimpl. rewrite Hu. msimpl. rewrite Hsd. msimpl.
  rewrite Hla. msimpl. rewrite Hs1. msimpl. rewrite Hlock, Hsub, Hpk, Hh.
  rewrite scan_items_eq.
  destruct (first_match (x :: items) h) as [[i it]|] eqn:Efm.
  - destruct (decrypt_data cs (encrypted_text it)) as [[text|]|ex] eqn:Ed.
    + msimpl. rewrite Hback. unfold with_session, shown. msimpl.
      rewrite (dict_set_same _ _ _ Hla), <- !app_assoc. reflexivity.
    + msimpl. rewrite Hback. unfold with_session, shown. msimpl.
      rewrite (dict_set_same _ _ _ Hla), <- !app_assoc. reflexivity.
    + unfold with_session. reflexivity.
  - msimpl.
    rewrite (lookup_alter_app incr_attempts l _ _ _ Hs). msimpl.
    cbn [incr_attempts attempts].
    destruct (MAX_ATTEMPTS <=? attempts s + 1)%Z.
    + msimpl. unfold with_session. rewrite <- !app_assoc. reflexivity.
    + msimpl. rewrite Hback. unfold with_session. msimpl.
      rewrite (dict_set_same _ _ _ Hla), <- !app_assoc. reflexivity.
Qed.

Lemma render_retrieve_locked inp w u items l s :
  logged_in_user w = Some u -> u <> [] ->
  dict_get (stored_data w) u = Some items -> items <> [] ->
  dict_get (login_attempts w) u = Some l ->
  heap w !! l = Some s -> locked s = true ->
  retrieve_back_button inp = false ->
  render_retrieve cs inp w =
    (Ret tt,
     with_session (login_attempts w) (heap w ++ [AttemptState 0 false])
       [st_header RetrieveHeader; st_error MaxRetrievalAttempts] w).
Proof.
  intros Hu Hne Hsd Hitems Hla Hs Hlock Hback.
  destruct u as [|c u]; [congruence|].
  destruct items as [|x items]; [congruence|].
  assert (Hs1 : (heap w ++ [AttemptState 0 false]) !! l = Some s).
  { rewrite lookup_app_l by (eapply lookup_lt_Some; eassumption). exact Hs. }
  unfold render_retrieve. msimpl. rewrite Hu. msimpl. rewrite Hsd. msimpl.
  rewrite Hla. msimpl. rewrite Hs1. msimpl. rewrite Hlock. msimpl.
  rewrite Hback. unfold with_session. rewrite <- !app_assoc. reflexivity.
Qed.

Lemma render_login_submitted f w :
  submitted_login f = true ->
  username_login f <> [] ->
  (forall l, dict_get (login_attempts w) (username_login f) = Some l ->
             is_Some (heap w !! l)) ->
  let r := render_login f w in
  fst r = Raise RerunException
  /\ logged_in_user (snd r) = Some (username_login f)
  /\ current_page (snd r) = Home
  /\ attempt_of (snd r) (username_login f) = Some (AttemptState 0 false)
  /\ stored_data (snd r) = stored_data w.
Proof.
  intros Hsub Hne Hvalid. unfold render_login. rewrite Hsub.
  destruct (username_login f) as [|c u] eqn:Eu; [congruence|]. msimpl.
  destruct (dict_get (login_attempts w) (c :: u)) as [l|] eqn:Ela.
  - destruct (Hvalid l eq_refl) as [s Hs].
    msimpl. rewrite navigate_to_eq. unfold after_navigate, attempt_of. msimpl.
    rewrite Ela. msimpl. rewrite Ela.
    repeat split.
    rewrite !list_lookup_alter_eq, Hs. reflexivity.
  - msimpl. rewrite navigate_to_eq. unfold after_navigate, attempt_of. msimpl.
    rewrite !dict_get_set_eq. msimpl. rewrite dict_get_set_eq.
    repeat split.
    rewrite list_lookup_alter_eq, list_lookup_middle by reflexivity. reflexivity.
Qed.

Lemma attempt_of_with_session la h us w u :
  attempt_of (with_session la h us w) u =
    match dict_get la u with Some l => h !! l | None => None end.
Proof. reflexivity. Qed.

Lemma retrieving_with_session la h us w u items :
  retrieving w u items -> retrieving (with_session la h us w) u items.
Proof. exact (fun H => H). Qed.

Lemma decrypt_data_returns c : exists r, decrypt_data cs c = Ret r.
Proof.
  destruct (decrypt_data_total cs c) as [H|(? & ? & p & _ & _ & _ & H)]; eauto.
Qed.

(** One failed attempt below the threshold. *)
Lemma render_retrieve_failed inp w u items s :
  retrieving w u items ->
  attempt_of w u = Some s -> locked s = false ->
  failed_attempt items inp ->
  let r := render_retrieve cs inp w in
  retrieving (snd r) u items
  /\ attempt_of (snd r) u =
       Some (AttemptState (attempts s + 1) (MAX_ATTEMPTS <=? attempts s + 1)%Z)
  /\ fst r = (if (MAX_ATTEMPTS <=? attempts s + 1)%Z
              then Raise RerunException else Ret tt).
Proof.
  intros (Hu & Hne & Hsd & Hitems) Hs Hlock (h & (Hsub & Hpk & Hback & Hh) & Hno).
  unfold attempt_of in Hs.
  destruct (dict_get (login_attempts w) u) as [l|] eqn:Hla; [|discriminate].
  cbv zeta.
  rewrite (render_retrieve_submitted inp w u items l s h) by assumption.
  cbv zeta. rewrite (first_match_none _ _ Hno).
  destruct (MAX_ATTEMPTS <=? attempts s + 1)%Z; cbn [fst snd];
    (split; [apply retrieving_with_session; repeat split; assumption|]);
    (split; [|reflexivity]);
    rewrite attempt_of_with_session, Hla.
  - rewrite list_lookup_alter_eq, (lookup_alter_app _ _ _ _ _ Hs).
    destruct s; simpl in *. now subst.
  - rewrite (lookup_alter_app _ _ _ _ _ Hs). destruct s; simpl in *. now subst.
Qed.

(** C2. For every user [u] who is logged in with stored items and the
    attempt state [Unlocked(0)], three consecutive failed retrieval
    attempts (each a submitted, non-empty passkey whose hash matches no
    stored item) lead through [Unlocked(1)] and [Unlocked(2)] to
    [Locked]; while locked, every run of the Retrieve page, whatever the
    passkey, shows only the lockout message, processes no form and leaves
    the state locked; and a login of [u] brings the state back to
    [Unlocked(0)]. *)
Theorem three_failed_attempts_lock inp1 inp2 inp3 w u items :
  retrieving w u items ->
  attempt_of w u = Some (AttemptState 0 false) ->
  failed_attempt items inp1 ->
  failed_attempt items inp2 ->
  failed_attempt items inp3 ->
  let w1 := snd (render_retrieve cs inp1 w) in
  let w2 := snd (render_retrieve cs inp2 w1) in
  let w3 := snd (render_retrieve cs inp3 w2) in
  attempt_of w1 u = Some (AttemptState 1 false)
  /\ attempt_of w2 u = Some (AttemptState 2 false)
  /\ attempt_of w3 u = Some (AttemptState 3 true)
  /\ (forall inp,
        retrieve_back_button inp = false ->
        let r := render_retrieve cs inp w3 in
        fst r = Ret tt
        /\ display (snd r) =
             display w3 ++ [st_header RetrieveHeader; st_error MaxRetrievalAttempts]
        /\ attempt_of (snd r) u = Some (AttemptState 3 true))
  /\ (forall f,
        submitted_login f = true -> username_login f = u ->
        attempt_of (snd (render_login f w3)) u = Some (AttemptState 0 false)).
Proof.
  intros Hr H0 F1 F2 F3.
  destruct (render_retrieve_failed inp1 w u items _ Hr H0 eq_refl F1) as (Hr1 & H1 & _).
  change (attempt_of (snd (render_retrieve cs inp1 w)) u
          = Some (AttemptState 1 false)) in H1.
  destruct (render_retrieve_failed inp2 _ u items _ Hr1 H1 eq_refl F2) as (Hr2 & H2 & _).
  change (attempt_of (snd (render_retrieve cs inp2 (snd (render_retrieve cs inp1 w)))) u
          = Some (AttemptState 2 false)) in H2.
  destruct (render_retrieve_failed inp3 _ u items _ Hr2 H2 eq_refl F3) as (Hr3 & H3 & _).
  change (attempt_of (snd (render_retrieve cs inp3
            (snd (render_retrieve cs inp2 (snd (render_retrieve cs inp1 w)))))) u
          = Some (AttemptState 3 true)) in H3.
  cbv zeta.
  split; [exact H1|]. split; [exact H2|]. split; [exact H3|].
  set (w3 := snd (render_retrieve cs inp3 _)) in *.
  destruct Hr3 as (Hu & Hne & Hsd & Hitems).
  pose proof H3 as H3'. unfold attempt_of in H3'.
  destruct (dict_get (login_attempts w3) u) as [l|] eqn:Hla; [|discriminate H3'].
  split.
  - intros inp Hback.
    rewrite (render_retrieve_locked inp w3 u items l _ Hu Hne Hsd Hitems Hla H3' eq_refl Hback).
    cbn [fst snd]. split; [reflexivity|]. split; [reflexivity|].
    rewrite attempt_of_with_session, Hla.
    rewrite lookup_app_l by (eapply lookup_lt_Some; eassumption). exact H3'.
  - intros f Hsub Hf. subst u.
    apply (render_login_submitted f w3 Hsub Hne).
    intros l' Hl'. rewrite Hla in Hl'. injection Hl' as <-. eauto.
Qed.

Lemma first_match_In items h i it :
  In (i, it) items -> passkey_hash it = h ->
  exists j jt, first_match items h = Some (j, jt).
Proof.
  intros Hin Hh. pose proof (first_match_split items h) as Hs.
  destruct (first_match items h) as [[j jt]|]; [eauto|].
  rewrite Forall_forall in Hs.
  specialize (Hs _ Hin). simpl in Hs. contradiction.
Qed.

(** C4. When the hash of the submitted passkey matches a stored item
    whose ciphertext does not decrypt, the counter of failed attempts is
    not incremented: it keeps its value or is reset to zero, and the user
    stays unlocked. When that item is the first match, the one the loop
    examines, the attempt state is left exactly as it was and the
    decryption failure is reported. *)
Theorem decrypt_failure_not_counted inp w u items s h i it :
  retrieving w u items ->
  attempt_of w u = Some s -> locked s = false ->
  submits inp h ->
  In (i, it) items -> passkey_hash it = h ->
  decrypt_data cs (encrypted_text it) = Ret None ->
  let r := render_retrieve cs inp w in
  exists s',
    attempt_of (snd r) u = Some s'
    /\ locked s' = false
    /\ (attempts s' = attempts s \/ attempts s' = 0%Z)
    /\ (first_match items h = Some (i, it) ->
        s' = s
        /\ fst r = Ret tt
        /\ display (snd r) =
             display w ++ [st_header RetrieveHeader; st_error DecryptionFailed]).
Proof.
  intros (Hu & Hne & Hsd & Hitems) Hs Hlock (Hsub & Hpk & Hback & Hh) Hin Hit Hdec.
  unfold attempt_of in Hs.
  destruct (dict_get (login_attempts w) u) as [l|] eqn:Hla; [|discriminate Hs].
  cbv zeta.
  rewrite (render_retrieve_submitted inp w u items l s h) by assumption.
  cbv zeta.
  destruct (first_match_In items h i it Hin Hit) as (j & jt & Efm). rewrite Efm.
  destruct (decrypt_data_returns (encrypted_text jt)) as [[text|] Ej]; rewrite Ej;
    cbn [fst snd]; rewrite attempt_of_with_session, Hla.
  - rewrite (lookup_alter_app _ _ _ _ _ Hs). eexists. split; [reflexivity|].
    split; [exact Hlock|]. split; [now right|].
    intros E. injection E as -> ->. congruence.
  - rewrite lookup_app_l by (eapply lookup_lt_Some; eassumption).
    exists s. split; [exact Hs|]. split; [exact Hlock|]. split; [now left|].
    intros _. repeat split.
Qed.

Lemma render_retrieve_found inp w u items s h i it text :
  retrieving w u items ->
  attempt_of w u = Some s -> locked s = false ->
  submits inp h ->
  first_match items h = Some (i, it) ->
  decrypt_data cs (encrypted_text it) = Ret (Some text) ->
  let r := render_retrieve cs inp w in
  fst r = Ret tt
  /\ display (snd r) =
       display w ++ [st_header RetrieveHeader; st_subheader DecryptedData;
                     st_success (Decrypted text)]
  /\ attempt_of (snd r) u = Some (AttemptState 0 false).
Proof.
  intros (Hu & Hne & Hsd & Hitems) Hs Hlock (Hsub & Hpk & Hback & Hh) Hfm Hdec.
  unfold attempt_of in Hs.
  destruct (dict_get (login_attempts w) u) as [l|] eqn:Hla; [|discriminate Hs].
  cbv zeta.
  rewrite (render_retrieve_submitted inp w u items l s h) by assumption.
  cbv zeta. rewrite Hfm, Hdec. cbn [fst snd].
  split; [reflexivity|]. split; [reflexivity|].
  rewrite attempt_of_with_session, Hla, (lookup_alter_app _ _ _ _ _ Hs).
  unfold with_attempts. now rewrite Hlock.
Qed.

(** C6. Retrieval resolves to the first stored item, in insertion order,
    whose [passkey_hash] equals the hash of the submitted passkey: when
    the items before [(i, it)] do not match and [it] does, the page shows
    the decryption of [it] and no other plaintext, whatever follows [it]
    in the collection. With two items of distinct hashes and the passkey
    of the second, [pre] is the first item; with two items of one hash,
    [pre] is empty and the first item is shown. *)
Theorem retrieve_first_match inp w u items s h pre i it post text :
  retrieving w u items ->
  attempt_of w u = Some s -> locked s = false ->
  submits inp h ->
  items = pre ++ (i, it) :: post ->
  Forall (fun x => passkey_hash (snd x) <> h) pre ->
  passkey_hash it = h ->
  decrypt_data cs (encrypted_text it) = Ret (Some text) ->
  let r := render_retrieve cs inp w in
  fst r = Ret tt
  /\ display (snd r) =
       display w ++ [st_header RetrieveHeader; st_subheader DecryptedData;
                     st_success (Decrypted text)].
Proof.
  intros Hr Hs Hlock Hsub -> Hpre Hit Hdec.
  destruct (render_retrieve_found inp w u _ s h i it text Hr Hs Hlock Hsub
              (first_match_app _ _ _ _ _ Hpre Hit) Hdec) as (H1 & H2 & _).
  split; assumption.
Qed.
End Retrieval.

(** ** Key file, data file and storing *)

Section Persistence.
Context {fernet : FernetLib} {json : JsonLib}.
Variable cs : bytes.

Lemma set_key_file_same w k : key_file w = Some k -> set_key_file (Some k) w = w.
Proof. intros H. destruct w; simpl in *. now subst. Qed.

Lemma load_key_persisted u w k :
  key_file w = Some k -> load_key u w = (Ret k, w).
Proof. intros H. unfold load_key. msimpl. now rewrite H. Qed.

Lemma load_key_generates u w :
  key_file w = None -> read_only w = false ->
  load_key u w =
    (Ret (Fernet_generate_key u),
     set_key_file (Some (Fernet_generate_key u))
       (shown [st_info KeyFileNotFound] w)).
Proof.
  intros Hk Hro. unfold load_key, generate_key. msimpl. rewrite Hk. msimpl.
  now rewrite Hro.
Qed.

(** C7. Where the key file exists or can be created, [load_key] returns
    a key and leaves it in the key file, and a second call returns the
    same key and changes nothing, whatever the randomness offered to
    either call: without a key file the first call generates the key and
    persists it; with a key file every call returns its content
    unchanged. *)
Theorem load_key_idempotent u1 u2 w :
  key_file w <> None \/ read_only w = false ->
  exists key w1,
    load_key u1 w = (Ret key, w1)
    /\ key_file w1 = Some key
    /\ load_key u2 w1 = (Ret key, w1)
    /\ (key_file w = None -> key = Fernet_generate_key u1)
    /\ (forall k, key_file w = Some k -> key = k /\ w1 = w).
Proof.
  intros H. destruct (key_file w) as [k|] eqn:Hk.
  - exists k, w. rewrite !(load_key_persisted _ w k Hk).
    repeat split; try assumption; try congruence.
  - destruct H as [H|Hro]; [congruence|].
    eexists _, _. rewrite (load_key_generates u1 w Hk Hro).
    split; [reflexivity|]. split; [reflexivity|].
    split; [now apply load_key_persisted|].
    split; [reflexivity | discriminate].
Qed.

(** [load_data] *)
Lemma load_data_absent w : data_file w = None -> load_data w = (Ret [], w).
Proof. intros H. unfold load_data. msimpl. now rewrite H. Qed.

Lemma load_data_empty w : data_file w = Some [] -> load_data w = (Ret [], w).
Proof. intros H. unfold load_data. msimpl. now rewrite H. Qed.

Lemma load_data_not_json w raw content :
  data_file w = Some raw -> read_text raw = Ret content ->
  content <> [] -> json_loads content = None ->
  load_data w = (Ret [], shown [st_error ErrorReadingData] w).
Proof.
  intros H Hr Hc Hj. apply nonempty_true in Hc.
  unfold load_data, try_except. msimpl. rewrite H. msimpl.
  now rewrite Hr, Hc, Hj.
Qed.

Lemma load_data_parsed w raw content v :
  data_file w = Some raw -> read_text raw = Ret content ->
  content <> [] -> json_loads content = Some v ->
  load_data w = (Ret v, w).
Proof.
  intros H Hr Hc Hj. apply nonempty_true in Hc.
  unfold load_data, try_except. msimpl. rewrite H. msimpl.
  now rewrite Hr, Hc, Hj.
Qed.

Lemma load_data_undecodable w raw :
  data_file w = Some raw -> bytes_decode raw = Raise UnicodeDecodeError ->
  load_data w = (Raise UnicodeDecodeError, w).
Proof.
  intros H Hr. unfold load_data, try_except, read_text. msimpl. rewrite H. msimpl.
  now rewrite Hr.
Qed.

(** C8, where it fails. With a data file that holds the single byte
    [0xFF], which is not UTF-8, [load_data] raises
    [UnicodeDecodeError] past its boundary: [except json.JSONDecodeError]
    does not catch it, no warning is shown and no vault is returned. *)
Theorem load_data_raises_on_invalid_utf8 w :
  load_data (set_data_file (Some [xff]) w)
  = (Raise UnicodeDecodeError, set_data_file (Some [xff]) w).
Proof. apply (load_data_undecodable _ [xff]); reflexivity. Qed.

Lemma navigate_to_files p w :
  stored_data (snd (navigate_to p w)) = stored_data w
  /\ data_file (snd (navigate_to p w)) = data_file w.
Proof.
  rewrite navigate_to_eq. unfold after_navigate. cbn [snd].
  destruct p, (logged_in_user w) as [[|c u]|]; try (split; reflexivity);
    destruct (dict_get (login_attempts w) (c :: u)); split; reflexivity.
Qed.

Lemma render_store_submitted inp w u h c :
  logged_in_user w = Some u -> u <> [] ->
  submitted_store inp = true ->
  data_to_store inp <> [] -> passkey_store inp <> [] ->
  hash_passkey (passkey_store inp) = Ret h ->
  encrypt_data cs (store_entropy inp) (data_to_store inp) = Ret c ->
  exists w1,
    stored_data w1 = stored (stored_data w) u (Item c h)
    /\ data_file w1 =
         (if read_only w then data_file w
          else Some (json_dump (stored (stored_data w) u (Item c h))))
    /\ render_store cs inp w =
         (if store_back_button inp then navigate_to Home w1 else (Ret tt, w1)).
Proof.
  intros Hu Hne Hsub Hd Hp Hh Hc.
  destruct u as [|c0 u]; [congruence|].
  apply nonempty_true in Hd, Hp.
  unfold render_store, save_data, try_except, stored. msimpl. rewrite Hu. msimpl.
  rewrite Hsub, Hd, Hp. msimpl. rewrite Hh, Hc.
  unfold dict_mem.
  destruct (dict_get (stored_data w) (c0 :: u)) as [items|] eqn:Esd; msimpl.
  - rewrite Esd. msimpl.
    destruct (read_only w) eqn:Ero; msimpl; destruct (store_back_button inp);
      eexists; (split; [|split; [|reflexivity]]);
      cbn; rewrite ?Ero; reflexivity.
  - rewrite dict_get_set_eq. msimpl.
    destruct (read_only w) eqn:Ero; msimpl; destruct (store_back_button inp);
      eexists; (split; [|split; [|reflexivity]]);
      cbn; rewrite ?Ero, ?dict_get_set_eq; reflexivity.
Qed.

Lemma render_store_incomplete inp w :
  data_to_store inp = [] \/ passkey_store inp = [] ->
  stored_data (snd (render_store cs inp w)) = stored_data w
  /\ data_file (snd (render_store cs inp w)) = data_file w.
Proof.
  intros H.
  assert (E : nonempty (data_to_store inp) && nonempty (passkey_store inp) = false).
  { destruct H as [-> | ->]; [reflexivity | apply andb_false_r]. }
  unfold render_store. msimpl.
  destruct (logged_in_user w) as [[|c u]|]; try apply navigate_to_files.
  msimpl. rewrite E.
  destruct (submitted_store inp); msimpl;
    (destruct (store_back_button inp); [|split; reflexivity]);
    match goal with |- context [navigate_to ?p ?w1] =>
      destruct (navigate_to_files p w1) as [-> ->] end; split; reflexivity.
Qed.

Lemma stored_spec sd u it :
  let items := default [] (dict_get sd u) in
  let data_id := data_id_of (N.of_nat (length items) + 1) in
  dict_get (stored sd u it) u = Some (dict_set items data_id it)
  /\ forall u', u' <> u -> dict_get (stored sd u it) u' = dict_get sd u'.
Proof.
  unfold stored, dict_mem. cbv zeta.
  destruct (dict_get sd u) as [items|] eqn:E.
  - rewrite E. cbn [default from_option id]. split; [apply dict_get_set_eq|].
    intros u' Hne. now apply dict_get_set_ne.
  - rewrite !dict_get_set_eq. cbn [default from_option id length].
    split; [reflexivity|].
    intros u' Hne. now rewrite !dict_get_set_ne.
Qed.

(** C10, for a fresh id. A submitted store by the logged-in user [u], with
    non-empty text and passkey that both encode (no lone surrogate), when
    the id ["data_" + (count + 1)] is not yet a key of the collection of
    [u], adds exactly one entry, under that id, after the entries that [u]
    had, which stay as they were; the collections of all other users are
    unchanged. With an empty text or an empty passkey the vault and the
    data file are unchanged. *)
Theorem store_adds_one_entry inp w u :
  logged_in_user w = Some u -> u <> [] ->
  submitted_store inp = true ->
  let items := default [] (dict_get (stored_data w) u) in
  let data_id := data_id_of (N.of_nat (length items) + 1) in
  let w' := snd (render_store cs inp w) in
  (data_to_store inp <> [] -> passkey_store inp <> [] ->
   well_formed (data_to_store inp) -> well_formed (passkey_store inp) ->
   dict_get items data_id = None ->
   exists h c,
     hash_passkey (passkey_store inp) = Ret h
     /\ encrypt_data cs (store_entropy inp) (data_to_store inp) = Ret c
     /\ dict_get (stored_data w') u = Some (items ++ [(data_id, Item c h)])
     /\ (forall u', u' <> u ->
           dict_get (stored_data w') u' = dict_get (stored_data w) u'))
  /\ (data_to_store inp = [] \/ passkey_store inp = [] ->
      stored_data w' = stored_data w /\ data_file w' = data_file w).
Proof.
  intros Hu Hne Hsub. cbv zeta. split; [|apply render_store_incomplete].
  intros Hd Hp Wd Wp Hfresh.
  destruct (hash_passkey_spec _ Wp) as (b & _ & Hh).
  destruct (str_encode_decode _ Wd) as (bd & Ebd & _).
  pose proof (Fernet_token_ascii cs (store_entropy inp) bd) as Ha.
  destruct (bytes_decode_ascii _ Ha) as [Dt _].
  assert (Hc : encrypt_data cs (store_entropy inp) (data_to_store inp)
               = Ret (lit (Fernet_encrypt cs (store_entropy inp) bd))).
  { unfold encrypt_data. rewrite Ebd. exact Dt. }
  eexists _, _. split; [exact Hh|]. split; [exact Hc|].
  destruct (render_store_submitted inp w u _ _ Hu Hne Hsub Hd Hp Hh Hc)
    as (w1 & Hsd & _ & Hrun).
  assert (Hw : stored_data (snd (render_store cs inp w)) = stored_data w1).
  { rewrite Hrun. destruct (store_back_button inp); [|reflexivity].
    apply navigate_to_files. }
  rewrite Hw, Hsd.
  destruct (stored_spec (stored_data w) u
              (Item (lit (Fernet_encrypt cs (store_entropy inp) bd))
                    (SHA256.hexdigest b))) as [H1 H2].
  cbv zeta in H1. rewrite H1. split; [|exact H2].
  now rewrite (dict_set_fresh _ _ _ Hfresh).
Qed.
End Persistence.

(** ** Item ids *)

Lemma uint_chars_inj d d' : uint_chars d = uint_chars d' -> d = d'.
Proof.
  revert d'. induction d; intros d' H; destruct d'; simpl in H;
    try discriminate; try reflexivity;
    injection H as H; f_equal; auto.
Qed.

Lemma data_id_of_inj a b : data_id_of a = data_id_of b -> a = b.
Proof.
  unfold data_id_of, decimal. intros H. apply app_inv_head in H.
  now apply DecimalN.Unsigned.to_uint_inj, uint_chars_inj.
Qed.

Lemma sequential_nil : sequential [].
Proof. intros k H. now contradiction H. Qed.

Lemma sequential_fresh items :
  sequential items ->
  dict_get items (data_id_of (N.of_nat (length items) + 1)) = None.
Proof.
  intros Hseq. destruct (dict_get items _) eqn:E; [|reflexivity].
  assert (H : dict_get items (data_id_of (N.of_nat (length items) + 1)) <> None)
    by congruence.
  apply Hseq in H. lia.
Qed.

Lemma sequential_stored items it :
  sequential items ->
  sequential (dict_set items (data_id_of (N.of_nat (length items) + 1)) it).
Proof.
  intros Hseq. rewrite (dict_set_fresh _ _ _ (sequential_fresh _ Hseq)).
  intros k Hk. rewrite length_app, Nat2N.inj_add. cbn [length].
  destruct (decide (data_id_of k = data_id_of (N.of_nat (length items) + 1))) as [E|E].
  - apply data_id_of_inj in E. lia.
  - assert (dict_get items (data_id_of k) <> None).
    { intros Hn. apply Hk. rewrite <- (dict_set_fresh _ _ _ (sequential_fresh _ Hseq)).
      now rewrite dict_get_set_ne. }
    apply Hseq in H. lia.
Qed.

(** Storing keeps the ids sequential: the vaults that the application builds
    from an empty one always offer a fresh id to the next store. *)
Lemma stored_keeps_sequential sd u it :
  vault_sequential sd -> vault_sequential (stored sd u it).
Proof.
  intros Hseq u' items' Hget.
  destruct (stored_spec sd u it) as [Hu Hother]. cbv zeta in Hu.
  destruct (decide (u' = u)) as [->|Hne].
  - rewrite Hu in Hget. injection Hget as <-.
    apply sequential_stored.
    destruct (dict_get sd u) as [items|] eqn:E; [eapply Hseq; eassumption|].
    apply sequential_nil.
  - rewrite Hother in Hget by assumption. eapply Hseq; eassumption.
Qed.

Lemma empty_vault_sequential : vault_sequential [].
Proof. intros u items H. discriminate H. Qed.

(** ** The session across runs *)

Lemma state_of_in w u : state_of w u = state_in (login_attempts w) (heap w) u.
Proof. reflexivity. Qed.

Lemma refs_ok_in w : refs_ok w = refs_in (login_attempts w) (heap w).
Proof. reflexivity. Qed.

Section Extends.
Variables (u : pystr) (la : dict loc) (h : list attempt_state).

Lemma extends_refl : extends u la h la h.
Proof.
  unfold extends. repeat split; auto.
  destruct (dict_get la u); auto.
Qed.

Lemma extends_alloc la1 h1 s :
  extends u la h la1 h1 -> extends u la h la1 (h1 ++ [s]).
Proof.
  intros (Hlen & Hoth & Hold & Hu). unfold extends.
  rewrite length_app. cbn [length]. repeat split.
  - lia.
  - exact Hoth.
  - intros l Hl Hne. rewrite lookup_app_l by lia. now apply Hold.
  - destruct (dict_get la1 u); [|exact Hu]. destruct Hu; [now left | right; lia].
Qed.

Lemma extends_alter la1 h1 f l :
  extends u la h la1 h1 ->
  dict_get la u = Some l \/ (length h <= l)%nat ->
  extends u la h la1 (alter f l h1).
Proof.
  intros (Hlen & Hoth & Hold & Hu) Hl. unfold extends.
  rewrite length_alter. repeat split; try assumption.
  intros l0 Hl0 Hne. rewrite list_lookup_alter_ne; [now apply Hold|].
  destruct Hl as [Hl|Hl]; [congruence | lia].
Qed.

Lemma extends_set la1 h1 l :
  extends u la h la1 h1 ->
  dict_get la u = Some l \/ (length h <= l < length h1)%nat ->
  extends u la h (dict_set la1 u l) h1.
Proof.
  intros (Hlen & Hoth & Hold & Hu) Hl. unfold extends.
  rewrite dict_get_set_eq. repeat split; try assumption.
  intros u' Hne. rewrite dict_get_set_ne by assumption. now apply Hoth.
Qed.

Lemma extends_refs la' h' :
  refs_in la h -> extends u la h la' h' -> refs_in la' h'.
Proof.
  intros [Hval Hinj] (Hlen & Hoth & Hold & Hu). split.
  - intros u' l Hl. destruct (decide (u' = u)) as [->|Hne].
    + rewrite Hl in Hu. destruct Hu as [Hu|Hu]; [|lia].
      apply Hval in Hu. lia.
    + rewrite Hoth in Hl by assumption. apply Hval in Hl. lia.
  - intros u1 u2 l H1 H2.
    destruct (decide (u1 = u)) as [->|N1], (decide (u2 = u)) as [->|N2]; auto.
    + rewrite H1 in Hu. rewrite Hoth in H2 by assumption.
      destruct Hu as [Hu|Hu]; [symmetry; eauto|].
      apply Hval in H2. lia.
    + rewrite H2 in Hu. rewrite Hoth in H1 by assumption.
      destruct Hu as [Hu|Hu]; [eauto|].
      apply Hval in H1. lia.
    + rewrite Hoth in H1, H2 by assumption. eauto.
Qed.

Lemma extends_frame la' h' u' :
  refs_in la h -> extends u la h la' h' -> u' <> u ->
  state_in la' h' u' = state_in la h u'.
Proof.
  intros [Hval Hinj] (Hlen & Hoth & Hold & Hu) Hne. unfold state_in.
  rewrite Hoth by assumption.
  destruct (dict_get la u') as [l|] eqn:E; [|reflexivity].
  rewrite Hold; [reflexivity | eauto |].
  intros E'. apply Hne. eauto.
Qed.
End Extends.

Lemma run_of_session u w w' :
  refs_ok w -> run_of u w w' ->
  refs_ok w' /\ forall u', guard_step (state_of w u') (state_of w' u').
Proof.
  intros Hrefs [Hext Hstep]. split.
  - rewrite refs_ok_in in *. eapply extends_refs; eassumption.
  - intros u'. destruct (decide (u' = u)) as [->|Hne]; [exact Hstep|].
    rewrite !state_of_in, (extends_frame u _ _ _ _ u' Hrefs Hext Hne). constructor.
Qed.

Lemma guard_step_ok s s' : attempt_ok s -> guard_step s s' -> attempt_ok s'.
Proof.
  unfold attempt_ok, MAX_ATTEMPTS. intros [Hr Hl] Hstep.
  assert (locked s = false -> attempts s <> 3%Z)
    by (intros E1 E2; apply Hl in E2; congruence).
  destruct Hstep; unfold MAX_ATTEMPTS in *; cbn [attempts locked];
    (split; [try lia | intros; auto; try lia]).
Qed.

Lemma guard_step_lock s s' :
  attempt_ok s -> guard_step s s' -> locked s = false ->
  (locked s' = true <-> attempts s' = MAX_ATTEMPTS).
Proof.
  unfold attempt_ok, MAX_ATTEMPTS. intros [Hr Hl] Hstep Hu.
  assert (attempts s <> 3%Z) by (intros E; apply Hl in E; congruence).
  destruct Hstep; unfold MAX_ATTEMPTS in *; cbn [attempts locked]; rewrite ?Hu;
    (split; [try discriminate | try lia]); intros; try lia; try reflexivity.
Qed.

Lemma valid_ref w u l :
  refs_ok w -> dict_get (login_attempts w) u = Some l ->
  exists s, heap w !! l = Some s.
Proof.
  intros [Hval _] Hl. apply lookup_lt_is_Some. eauto.
Qed.

Lemma lookup_alter_same {A : Type} (f : A -> A) (l : nat) (h : list A) (s : A) :
  h !! l = Some s -> alter f l h !! l = Some (f s).
Proof. intros H. now rewrite list_lookup_alter_eq, H. Qed.

Lemma lookup_snoc_old {A : Type} (l : nat) (h : list A) (x s : A) :
  h !! l = Some s -> (h ++ [x]) !! l = Some s.
Proof.
  intros H. rewrite lookup_app_l by (eapply lookup_lt_Some; eassumption). exact H.
Qed.

Lemma lookup_snoc_new {A : Type} (h : list A) (x : A) :
  (h ++ [x]) !! length h = Some x.
Proof. now apply list_lookup_middle. Qed.

(** Tactics for the leaves of a run: the frame, then the step of the user. *)
Ltac ext_side :=
  first [ left; assumption
        | right; rewrite ?length_alter, ?length_app; cbn [length]; lia ].

Ltac solve_extends :=
  cbn [login_attempts heap set_key_file set_data_file set_logged_in_user
       set_login_attempts set_heap set_current_page set_stored_data set_display];
  repeat match goal with
  | |- extends _ _ _ (dict_set _ _ _) _ => apply extends_set; [|ext_side]
  | |- extends _ _ _ _ (alter _ _ _) => apply extends_alter; [|ext_side]
  | |- extends _ _ _ _ (_ ++ [_]) => apply extends_alloc
  | |- extends _ ?la ?h ?la ?h => apply extends_refl
  end.

Ltac guard_cases :=
  first
    [ apply guard_stay
    | apply guard_login
    | apply guard_reset_attempts
    | apply guard_failure;
        [first [assumption | reflexivity] | unfold MAX_ATTEMPTS; cbn [attempts]; lia]
    | apply guard_lock;
        [first [assumption | reflexivity] | unfold MAX_ATTEMPTS; cbn [attempts]; lia] ].

Ltac solve_guard :=
  unfold MAX_ATTEMPTS in *;
  first
    [ guard_cases
    | match goal with
      | H : locked ?s = _ |- context [locked ?s] => rewrite H
      end; guard_cases ].

Ltac lookups :=
  repeat first
    [ rewrite list_lookup_alter_eq
    | rewrite lookup_snoc_new
    | match goal with
      | H : ?h !! ?l = Some _ |- context [(?h ++ [_]) !! ?l] =>
          rewrite (lookup_snoc_old l h _ _ H)
      | H : ?h !! ?l = Some _ |- context [?h !! ?l] => rewrite H
      end ];
  cbn [fmap option_fmap option_map default from_option id].

Ltac states :=
  unfold state_of, attempt_of; msimpl;
  repeat match goal with
  | |- context [dict_get (dict_set _ ?k _) ?k] => rewrite dict_get_set_eq
  | H : dict_get ?d ?k = _ |- context [dict_get ?d ?k] => rewrite H
  end;
  msimpl; lookups;
  unfold with_attempts, with_locked, incr_attempts, fresh_attempts;
  cbn [attempts locked].

Ltac leaf :=
  rewrite ?navigate_to_eq; unfold after_navigate; msimpl;
  repeat match goal with
  | H : logged_in_user ?w = _ |- context [logged_in_user ?w] => rewrite H
  | |- context [dict_get (dict_set _ ?k _) ?k] => rewrite dict_get_set_eq
  | H : dict_get ?d ?k = _ |- context [dict_get ?d ?k] => rewrite H
  end;
  msimpl;
  split; [solve_extends | states; try solve_guard].

Section Session.
Context {fernet : FernetLib} {json : JsonLib}.
Variable cs : bytes.

Lemma after_navigate_run p w :
  refs_ok w -> run_of (user_of w) w (after_navigate p w).
Proof.
  intros Hrefs. unfold after_navigate, user_of, run_of, state_of, attempt_of.
  destruct (logged_in_user w) as [[|c u]|] eqn:Eu; cbn [default from_option id].
  1,3: destruct p; (split; [solve_extends | cbn; apply guard_stay]).
  destruct (dict_get (login_attempts w) (c :: u)) as [l|] eqn:Ela.
  - destruct (valid_ref _ _ _ Hrefs Ela) as [s Hs].
    destruct p; (split; [solve_extends|]); cbn; rewrite ?Ela, ?Hs;
      rewrite ?(lookup_alter_same _ _ _ _ Hs); cbn; solve_guard.
  - destruct p; (split; [solve_extends|]); cbn; rewrite ?Ela; solve_guard.
Qed.

Lemma render_retrieve_run inp w :
  refs_ok w -> run_of (user_of w) w (snd (render_retrieve cs inp w)).
Proof.
  intros Hrefs. unfold render_retrieve. msimpl.
  destruct (logged_in_user w) as [[|c u]|] eqn:Eu;
    try (rewrite navigate_to_eq; now apply after_navigate_run).
  unfold user_of, run_of. rewrite Eu. msimpl.
  destruct (dict_get (stored_data w) (c :: u)) as [[|x items]|] eqn:Esd; msimpl.
  1,3: destruct (dict_get (login_attempts w) (c :: u)) as [l|] eqn:Ela;
       [destruct (valid_ref _ _ _ Hrefs Ela) as [s Hs]|];
       destruct (retrieve_back_button inp); leaf.
  destruct (dict_get (login_attempts w) (c :: u)) as [l|] eqn:Ela; msimpl.
  - destruct (valid_ref _ _ _ Hrefs Ela) as [s Hs].
    rewrite (lookup_snoc_old _ _ _ _ Hs). msimpl.
    destruct (locked s) eqn:Hlock; msimpl.
    { destruct (retrieve_back_button inp); leaf. }
    destruct (submitted_retrieve inp); msimpl;
      [|destruct (retrieve_back_button inp); leaf].
    destruct (nonempty (passkey_retrieve inp)); msimpl;
      [|destruct (retrieve_back_button inp); leaf].
    destruct (hash_passkey (passkey_retrieve inp)) as [h|e]; msimpl; [|leaf].
    rewrite scan_items_eq.
    destruct (first_match (x :: items) h) as [[i it]|].
    + destruct (decrypt_data_returns cs (encrypted_text it)) as [[text|] ->];
        msimpl; destruct (retrieve_back_button inp); leaf.
    + msimpl. rewrite (lookup_alter_app _ _ _ _ _ Hs). msimpl.
      cbn [incr_attempts attempts].
      destruct (Z.leb_spec MAX_ATTEMPTS (attempts s + 1)); msimpl;
        [|destruct (retrieve_back_button inp)]; leaf.
  - rewrite lookup_snoc_new. msimpl. cbn [fresh_attempts locked].
    destruct (submitted_retrieve inp); msimpl;
      [|destruct (retrieve_back_button inp); leaf].
    destruct (nonempty (passkey_retrieve inp)); msimpl;
      [|destruct (retrieve_back_button inp); leaf].
    destruct (hash_passkey (passkey_retrieve inp)) as [h|e]; msimpl; [|leaf].
    rewrite scan_items_eq.
    destruct (first_match (x :: items) h) as [[i it]|].
    + destruct (decrypt_data_returns cs (encrypted_text it)) as [[text|] ->];
        msimpl; destruct (retrieve_back_button inp); leaf.
    + msimpl. rewrite list_lookup_alter_eq, lookup_snoc_new. msimpl.
      cbn [fmap option_fmap option_map default from_option id incr_attempts attempts].
      destruct (Z.leb_spec MAX_ATTEMPTS (0 + 1)); [unfold MAX_ATTEMPTS in *; lia|].
      msimpl. destruct (retrieve_back_button inp); leaf.
Qed.

Lemma run_of_same u w w' :
  login_attempts w' = login_attempts w -> heap w' = heap w -> run_of u w w'.
Proof.
  intros Hla Hh. unfold run_of, state_of, attempt_of. rewrite Hla, Hh.
  split; [apply extends_refl | apply guard_stay].
Qed.

Lemma render_login_run f w :
  refs_ok w -> exists u, run_of u w (snd (render_login f w)).
Proof.
  intros Hrefs. unfold render_login. msimpl.
  destruct (submitted_login f); [|exists []; now apply run_of_same].
  destruct (username_login f) as [|c u] eqn:Eu; msimpl;
    [exists []; now apply run_of_same|].
  exists (c :: u). unfold run_of.
  destruct (dict_get (login_attempts w) (c :: u)) as [l|] eqn:Ela; msimpl.
  - destruct (valid_ref _ _ _ Hrefs Ela) as [s Hs]. leaf.
  - leaf.
Qed.

Lemma render_home_run inp w :
  refs_ok w -> run_of (user_of w) w (snd (render_home inp w)).
Proof.
  intros Hrefs. unfold render_home. msimpl.
  destruct (logged_in_user w) as [[|c u]|] eqn:Eu;
    try (rewrite navigate_to_eq; now apply after_navigate_run).
  unfold user_of, run_of. rewrite Eu. msimpl.
  destruct (dict_get (login_attempts w) (c :: u)) as [l|] eqn:Ela;
    [destruct (valid_ref _ _ _ Hrefs Ela) as [s Hs]|].
  - destruct (store_button inp); msimpl; [leaf|].
    unfold attempt_of. msimpl. rewrite Ela, Hs. msimpl.
    destruct (locked s) eqn:Hlock; msimpl.
    + destruct (logout_button inp); msimpl; unfold dict_mem; msimpl;
        rewrite ?Ela; msimpl; leaf.
    + destruct (retrieve_button inp); msimpl; [leaf|].
      destruct (logout_button inp); msimpl; unfold dict_mem; msimpl;
        rewrite ?Ela; msimpl; leaf.
  - destruct (store_button inp); msimpl; [leaf|].
    unfold attempt_of. msimpl. rewrite Ela. msimpl.
    destruct (retrieve_button inp); msimpl; [leaf|].
    destruct (logout_button inp); msimpl; unfold dict_mem; msimpl;
      rewrite ?Ela; msimpl; leaf.
Qed.

Lemma render_store_run inp w :
  refs_ok w -> run_of (user_of w) w (snd (render_store cs inp w)).
Proof.
  intros Hrefs. unfold render_store, save_data, try_except. msimpl.
  destruct (logged_in_user w) as [[|c u]|] eqn:Eu;
    try (rewrite navigate_to_eq; now apply after_navigate_run).
  unfold user_of, run_of. rewrite Eu. msimpl.
  assert (Hs : forall l, dict_get (login_attempts w) (c :: u) = Some l ->
                         exists s, heap w !! l = Some s)
    by (intros l; apply valid_ref; assumption).
  destruct (dict_get (login_attempts w) (c :: u)) as [l|] eqn:Ela;
    [destruct (Hs l eq_refl) as [s Hl]|]; clear Hs.
  all: destruct (submitted_store inp); msimpl;
    [|destruct (store_back_button inp); leaf].
  all: destruct (nonempty (data_to_store inp) && nonempty (passkey_store inp)); msimpl;
    [|destruct (store_back_button inp); leaf].
  all: destruct (hash_passkey (passkey_store inp)) as [h|e]; msimpl; [|leaf].
  all: destruct (encrypt_data cs (store_entropy inp) (data_to_store inp)) as [ct|e];
    msimpl; [|leaf].
  all: unfold dict_mem;
    destruct (dict_get (stored_data w) (c :: u)) as [its|] eqn:Esd; msimpl;
    rewrite ?Esd, ?dict_get_set_eq; msimpl;
    destruct (read_only w); msimpl; destruct (store_back_button inp); leaf.
Qed.

Lemma render_page_run inp w :
  refs_ok w -> exists u, run_of u w (snd (render_page cs inp w)).
Proof.
  intros Hrefs. unfold render_page. msimpl.
  destruct (current_page w);
    destruct (truthy (logged_in_user w)); cbn [negb orb];
    try apply render_login_run; try assumption; eexists.
  - now apply render_home_run.
  - now apply render_store_run.
  - now apply render_retrieve_run.
Qed.

(** Every run of a page keeps the session well formed and moves each
    user's attempt state by one step of the guard. *)
Lemma render_page_session inp w :
  session_ok w ->
  session_ok (snd (render_page cs inp w))
  /\ forall u, guard_step (state_of w u) (state_of (snd (render_page cs inp w)) u).
Proof.
  intros [Hrefs Hok].
  destruct (render_page_run inp w Hrefs) as [u0 Hrun].
  destruct (run_of_session _ _ _ Hrefs Hrun) as [Hrefs' Hsteps].
  split; [|exact Hsteps]. split; [exact Hrefs'|].
  intros u. eapply guard_step_ok; [apply Hok | apply Hsteps].
Qed.
End Session.

Section Script.
Context {fernet : FernetLib} {json : JsonLib}.

Lemma same_session_ok w w' : same_session w w' -> session_ok w -> session_ok w'.
Proof.
  intros [Hla Hh]. unfold session_ok, refs_ok, state_of, attempt_of.
  now rewrite Hla, Hh.
Qed.

Lemma same_session_state w w' u : same_session w w' -> state_of w' u = state_of w u.
Proof. intros [Hla Hh]. unfold state_of, attempt_of. now rewrite Hla, Hh. Qed.

Lemma init_cipher_suite_session urandom w :
  same_session w (snd (init_cipher_suite urandom w)).
Proof.
  unfold init_cipher_suite, load_key, generate_key, try_except, Fernet. msimpl.
  destruct (key_file w) as [k|]; msimpl.
  - destruct (Fernet_valid_key k); split; reflexivity.
  - destruct (read_only w); msimpl; [split; reflexivity|].
    destruct (Fernet_valid_key _); split; reflexivity.
Qed.

Lemma load_data_session w : same_session w (snd (load_data w)).
Proof.
  unfold load_data, try_except. msimpl.
  destruct (data_file w) as [raw|]; msimpl; [|split; reflexivity].
  destruct (read_text raw) as [content|[]]; msimpl; try (split; reflexivity).
  destruct (nonempty content); [|split; reflexivity].
  destruct (json_loads content); split; reflexivity.
Qed.

Lemma script_page urandom inp w :
  exists w0,
    same_session w w0
    /\ (snd (script urandom inp w) = w0
        \/ exists cs, snd (script urandom inp w) = snd (render_page cs inp w0)).
Proof.
  unfold script, bind.
  pose proof (init_cipher_suite_session urandom w) as H1.
  destruct (init_cipher_suite urandom w) as [[cs|e] w1]; cbn [snd] in *;
    [|exists w1; split; [exact H1 | now left]].
  pose proof (load_data_session w1) as H2.
  destruct (load_data w1) as [[data|e] w2]; cbn [snd] in *.
  - exists (set_stored_data data w2). split.
    + destruct H1, H2; split; cbn; congruence.
    + right. exists cs. unfold modify.
      destruct (render_page cs inp (set_stored_data data w2)); reflexivity.
  - exists w2. split; [destruct H1, H2; split; congruence | now left].
Qed.

Lemma script_session urandom inp w :
  session_ok w ->
  session_ok (snd (script urandom inp w))
  /\ forall u, guard_step (state_of w u) (state_of (snd (script urandom inp w)) u).
Proof.
  intros Hok.
  destruct (script_page urandom inp w) as (w0 & Hsame & [-> | [cs ->]]).
  - split; [eapply same_session_ok; eassumption|].
    intros u. rewrite (same_session_state _ _ u Hsame). constructor.
  - destruct (render_page_session cs inp _ (same_session_ok _ _ Hsame Hok))
      as [Hok' Hsteps].
    split; [exact Hok'|].
    intros u. rewrite <- (same_session_state _ _ u Hsame). apply Hsteps.
Qed.

Lemma initial_world_ok key data ro : session_ok (initial_world key data ro).
Proof.
  split; [split; intros; discriminate|].
  intros u. unfold attempt_ok, MAX_ATTEMPTS. cbn. split; [lia | discriminate].
Qed.
(** The invariant holds in every world that the application reaches. *)
Lemma reachable_session_ok w : reachable w -> session_ok w.
Proof.
  induction 1 as [key data ro | w urandom inp _ IH].
  - apply initial_world_ok.
  - now apply script_session.
Qed.
End Script.

Section Guard.
Context {fernet : FernetLib} {json : JsonLib}.
Variable cs : bytes.

Lemma navigate_resets_attempts p w u s :
  p <> Retrieve -> logged_in_user w = Some u -> u <> [] ->
  attempt_of w u = Some s ->
  attempt_of (snd (navigate_to p w)) u = Some (AttemptState 0 (locked s)).
Proof.
  intros Hp Hu Hne Hs. rewrite navigate_to_eq. unfold after_navigate, attempt_of in *.
  rewrite Hu. destruct u as [|c u]; [congruence|].
  destruct (dict_get (login_attempts w) (c :: u)) as [l|] eqn:Hla; [|discriminate Hs].
  destruct p; try congruence; msimpl; rewrite Hla;
    now rewrite (lookup_alter_same _ _ _ _ Hs).
Qed.

(** C5. The attempt state of every user keeps its invariant across every
    run of the script, whatever the page and the widgets: the counter
    stays within [0 .. 3], a user at 3 is locked, the session stays well
    formed, and each user's state moves by one step of the guard; a user
    who was unlocked before a run is locked after it exactly when the
    counter has reached 3. A login resets the state of the user to
    [{0, false}], and so does a retrieval that finds and decrypts an item;
    navigation to a page other than Retrieve resets the counter only and
    leaves [locked] as it was. *)
Theorem attempt_state_invariant :
  (forall urandom inp w,
     session_ok w ->
     let w' := snd (script urandom inp w) in
     session_ok w'
     /\ forall u,
          guard_step (state_of w u) (state_of w' u)
          /\ (locked (state_of w u) = false ->
              (locked (state_of w' u) = true
               <-> attempts (state_of w' u) = MAX_ATTEMPTS)))
  /\ (forall f w,
        refs_ok w -> submitted_login f = true -> username_login f <> [] ->
        attempt_of (snd (render_login f w)) (username_login f)
        = Some (AttemptState 0 false))
  /\ (forall inp w u items s h i it text,
        retrieving w u items ->
        attempt_of w u = Some s -> locked s = false ->
        submits inp h ->
        first_match items h = Some (i, it) ->
        decrypt_data cs (encrypted_text it) = Ret (Some text) ->
        attempt_of (snd (render_retrieve cs inp w)) u = Some (AttemptState 0 false))
  /\ (forall p w u s,
        p <> Retrieve -> logged_in_user w = Some u -> u <> [] ->
        attempt_of w u = Some s ->
        attempt_of (snd (navigate_to p w)) u = Some (AttemptState 0 (locked s))).
Proof.
  split; [|split; [|split]].
  - intros urandom inp w Hok. cbv zeta.
    destruct (script_session urandom inp w Hok) as [Hok' Hsteps].
    split; [exact Hok'|]. intros u. split; [apply Hsteps|].
    apply guard_step_lock; [apply Hok | apply Hsteps].
  - intros f w Hrefs Hsub Hne.
    apply (render_login_submitted f w Hsub Hne).
    intros l Hl. destruct (valid_ref _ _ _ Hrefs Hl) as [s Hs]. eauto.
  - intros inp w u items s h i it text Hr Hs Hlock Hsub Hfm Hdec.
    apply (render_retrieve_found cs inp w u items s h i it text); assumption.
  - exact navigate_resets_attempts.
Qed.
End Guard.

(** ** Starting a run: the key, the cipher and the data file *)

Lemma str_encode_raised s e :
  str_encode s = Raise e -> e = UnicodeEncodeError /\ ~ well_formed s.
Proof.
  intros H. split.
  - unfold str_encode in H. destruct (utf8_encode s); congruence.
  - intros Hw. destruct (str_encode_decode s Hw) as (b & E & _). congruence.
Qed.

Lemma hash_passkey_raised passkey e :
  hash_passkey passkey = Raise e -> e = UnicodeEncodeError /\ ~ well_formed passkey.
Proof.
  unfold hash_passkey. intros H.
  destruct (str_encode passkey) as [b|e'] eqn:E; [discriminate H|].
  cbn in H. injection H as <-. now apply str_encode_raised.
Qed.

Lemma hash_passkey_returned passkey h :
  hash_passkey passkey = Ret h -> well_formed passkey.
Proof.
  unfold hash_passkey, str_encode. intros H. apply utf8_encode_well_formed.
  destruct (utf8_encode passkey); [eauto | discriminate H].
Qed.

Section Starting.
Context {fernet : FernetLib} {json : JsonLib}.
Variable cs : bytes.

Lemma encrypt_data_raised r P e :
  encrypt_data cs r P = Raise e -> e = UnicodeEncodeError /\ ~ well_formed P.
Proof.
  unfold encrypt_data. intros H.
  destruct (str_encode P) as [b|e'] eqn:E.
  - cbn in H. destruct (bytes_decode_ascii _ (Fernet_token_ascii cs r b)) as [D _].
    congruence.
  - cbn in H. injection H as <-. now apply str_encode_raised.
Qed.

Lemma encrypt_data_returned r P c :
  encrypt_data cs r P = Ret c -> well_formed P.
Proof.
  unfold encrypt_data, str_encode. intros H. apply utf8_encode_well_formed.
  destruct (utf8_encode P); [eauto | discriminate H].
Qed.

Lemma encrypt_data_returns r P :
  well_formed P -> exists c, encrypt_data cs r P = Ret c.
Proof.
  intros H. destruct (str_encode_decode _ H) as (b & E & _).
  destruct (bytes_decode_ascii _ (Fernet_token_ascii cs r b)) as [D _].
  eexists. unfold encrypt_data. rewrite E. exact D.
Qed.

Lemma encrypt_then_decrypt r P :
  Fernet_valid_key cs = true -> well_formed P ->
  exists c, encrypt_data cs r P = Ret c /\ decrypt_data cs c = Ret (Some P).
Proof.
  intros Hk HP.
  destruct (str_encode_decode P HP) as (b & Eb & Db).
  destruct (bytes_decode_ascii _ (Fernet_token_ascii cs r b)) as [Dt Et].
  exists (lit (Fernet_encrypt cs r b)). split.
  - unfold encrypt_data. rewrite Eb. exact Dt.
  - unfold decrypt_data. rewrite Et. cbn [obind].
    rewrite (Fernet_roundtrip _ _ _ Hk). cbn [obind]. rewrite Db. reflexivity.
Qed.

(** X2. Whenever lines 26-31 get past [Fernet(KEY)], the cipher suite is
    made from a key that Fernet accepts and that the key file holds
    afterwards: an existing key file is used as it is and nothing is
    changed; without a key file the key is the generated one, which was
    written to a writable location. *)
Theorem init_cipher_suite_returns urandom w key w' :
  init_cipher_suite urandom w = (Ret key, w') ->
  Fernet_valid_key key = true
  /\ key_file w' = Some key
  /\ (forall k, key_file w = Some k -> key = k /\ w' = w)
  /\ (key_file w = None ->
      key = Fernet_generate_key urandom /\ read_only w = false).
Proof.
  unfold init_cipher_suite, load_key, generate_key, try_except, Fernet. msimpl.
  destruct (key_file w) as [k|] eqn:Ek; msimpl.
  - destruct (Fernet_valid_key k) eqn:Ev; intros H; [|discriminate H].
    injection H as <- <-. repeat split; try assumption; try congruence.
  - destruct (read_only w) eqn:Ero; msimpl; [intros H; discriminate H|].
    destruct (Fernet_valid_key (Fernet_generate_key urandom)) eqn:Ev;
      intros H; [|discriminate H].
    injection H as <- <-. repeat split; try assumption; try discriminate.
Qed.

(** X3. Without a cipher the script goes no further. A key file that
    Fernet refuses ends the run in [st.stop()] after the initialization
    error is shown; a key file that is absent and cannot be created ends it
    in the [OSError] of [open], which nothing catches. In both cases the
    data file is not read, no page is rendered and the session is as it
    was. *)
Theorem script_halts_without_cipher urandom inp w :
  (forall k, key_file w = Some k -> Fernet_valid_key k = false ->
     script urandom inp w
     = (Raise StopException, shown [st_error FailedToInitialize] w))
  /\ (key_file w = None -> read_only w = true ->
      script urandom inp w = (Raise OSError, shown [st_info KeyFileNotFound] w)).
Proof.
  unfold script, init_cipher_suite, load_key, generate_key, try_except, Fernet.
  split.
  - intros k Hk Hv. msimpl. rewrite Hk. msimpl. now rewrite Hv.
  - intros Hk Hro. msimpl. rewrite Hk. msimpl. now rewrite Hro.
Qed.

End Starting.

Section Loading.
Context {json : JsonLib} {jv : JsonValues}.

(** [load_data] is [load_data_json] on the data files whose document is a
    vault or is not JSON. *)
Lemma load_data_restricts w :
  (forall raw content,
     data_file w = Some raw -> read_text raw = Ret content -> content <> [] ->
     reads_vault content) ->
  load_data_json w =
    (match fst (load_data w) with
     | Ret v => Ret (of_vault v)
     | Raise e => Raise e
     end, snd (load_data w)).
Proof.
  intros H. unfold load_data_json, load_data, try_except. msimpl.
  destruct (data_file w) as [raw|] eqn:Ed; msimpl; [|reflexivity].
  destruct (read_text raw) as [[|c content]|[]] eqn:Er; msimpl; try reflexivity.
  specialize (H raw (c :: content) eq_refl Er ltac:(discriminate)).
  unfold reads_vault in H.
  destruct (json_loads (c :: content)); rewrite H; reflexivity.
Qed.

(** What [json.loads] raises, other than [JSONDecodeError], escapes. *)
Lemma load_data_json_propagates w raw content e :
  data_file w = Some raw -> read_text raw = Ret content -> content <> [] ->
  json_loads_value content = Raise e -> e <> JSONDecodeError ->
  load_data_json w = (Raise e, w).
Proof.
  intros Hd Hr Hc He Hne. apply nonempty_true in Hc.
  unfold load_data_json, try_except. msimpl. rewrite Hd. msimpl.
  rewrite Hr, Hc, He. destruct e; try reflexivity. contradiction.
Qed.


End Loading.

(** ** What a page writes *)

Lemma after_navigate_fields p w :
  key_file (after_navigate p w) = key_file w
  /\ read_only (after_navigate p w) = read_only w
  /\ data_file (after_navigate p w) = data_file w
  /\ stored_data (after_navigate p w) = stored_data w
  /\ display (after_navigate p w) = display w
  /\ logged_in_user (after_navigate p w) = logged_in_user w
  /\ login_attempts (after_navigate p w) = login_attempts w
  /\ current_page (after_navigate p w) = p.
Proof.
  unfold after_navigate.
  destruct (logged_in_user w) as [[|c u]|] eqn:Eu; destruct p; cbn;
    repeat split; try assumption; try reflexivity;
    match goal with |- context [dict_get ?d ?k] => destruct (dict_get d k) end;
    try assumption; reflexivity.
Qed.

Lemma key_file_after_navigate p w : key_file (after_navigate p w) = key_file w.
Proof. apply after_navigate_fields. Qed.
Lemma read_only_after_navigate p w : read_only (after_navigate p w) = read_only w.
Proof. apply after_navigate_fields. Qed.
Lemma data_file_after_navigate p w : data_file (after_navigate p w) = data_file w.
Proof. apply after_navigate_fields. Qed.
Lemma stored_data_after_navigate p w : stored_data (after_navigate p w) = stored_data w.
Proof. apply after_navigate_fields. Qed.
Lemma display_after_navigate p w : display (after_navigate p w) = display w.
Proof. apply after_navigate_fields. Qed.
Lemma logged_in_user_after_navigate p w :
  logged_in_user (after_navigate p w) = logged_in_user w.
Proof. apply after_navigate_fields. Qed.
Lemma login_attempts_after_navigate p w :
  login_attempts (after_navigate p w) = login_attempts w.
Proof. apply after_navigate_fields. Qed.
Lemma current_page_after_navigate p w : current_page (after_navigate p w) = p.
Proof. apply after_navigate_fields. Qed.

Lemma plaintexts_app us vs : plaintexts (us ++ vs) = plaintexts us ++ plaintexts vs.
Proof. apply flat_map_app. Qed.

Lemma plaintexts_In t us : In (st_success (Decrypted t)) us <-> In t (plaintexts us).
Proof.
  unfold plaintexts. rewrite in_flat_map. split.
  - intros H. eexists. split; [exact H | now left].
  - intros (x & Hx & Ht).
    destruct x as [m|m|m|m|m|m|m]; try contradiction;
      destruct m; try contradiction.
    destruct Ht as [->|[]]. exact Hx.
Qed.

(** The leaves of a run, for the fields that navigation leaves alone. *)
Ltac fields :=
  rewrite ?navigate_to_eq; msimpl;
  rewrite ?key_file_after_navigate, ?read_only_after_navigate,
    ?data_file_after_navigate, ?stored_data_after_navigate,
    ?display_after_navigate, ?logged_in_user_after_navigate,
    ?login_attempts_after_navigate, ?current_page_after_navigate;
  msimpl.

Ltac vault_leaf :=
  unfold same_vault; fields; repeat split; reflexivity.

Ltac quiet_leaf :=
  fields; rewrite ?plaintexts_app; cbn [plaintexts flat_map app];
  rewrite ?app_nil_r; reflexivity.

Section Writes.
Context {fernet : FernetLib} {json : JsonLib}.
Variable cs : bytes.

Lemma render_login_vault f w : same_vault w (snd (render_login f w)).
Proof.
  unfold render_login. msimpl.
  destruct (submitted_login f); [|vault_leaf].
  destruct (username_login f) as [|c u]; msimpl; [vault_leaf|].
  destruct (dict_get (login_attempts w) (c :: u)); vault_leaf.
Qed.

Lemma render_home_vault inp w : same_vault w (snd (render_home inp w)).
Proof.
  unfold render_home. msimpl.
  destruct (logged_in_user w) as [[|c u]|]; try vault_leaf.
  msimpl. destruct (store_button inp); msimpl; [vault_leaf|].
  match goal with |- context [if ?b then _ else _] => destruct b end; msimpl.
  - destruct (logout_button inp); msimpl; [|vault_leaf].
    destruct (dict_mem (login_attempts w) (c :: u)); vault_leaf.
  - destruct (retrieve_button inp); msimpl; [vault_leaf|].
    destruct (logout_button inp); msimpl; [|vault_leaf].
    destruct (dict_mem (login_attempts w) (c :: u)); vault_leaf.
Qed.

Lemma render_retrieve_vault inp w : same_vault w (snd (render_retrieve cs inp w)).
Proof.
  unfold render_retrieve. msimpl.
  destruct (logged_in_user w) as [[|c u]|]; try vault_leaf.
  msimpl.
  destruct (dict_get (stored_data w) (c :: u)) as [[|x items]|]; msimpl.
  1,3: destruct (retrieve_back_button inp); vault_leaf.
  match goal with |- context [if locked ?s then _ else _] => destruct (locked s) end;
    msimpl; [destruct (retrieve_back_button inp); vault_leaf|].
  destruct (submitted_retrieve inp); msimpl;
    [|destruct (retrieve_back_button inp); vault_leaf].
  destruct (nonempty (passkey_retrieve inp)); msimpl;
    [|destruct (retrieve_back_button inp); vault_leaf].
  destruct (hash_passkey (passkey_retrieve inp)) as [h|e]; msimpl; [|vault_leaf].
  rewrite scan_items_eq.
  destruct (first_match (x :: items) h) as [[i it]|].
  - destruct (decrypt_data_returns cs (encrypted_text it)) as [[text|] ->];
      msimpl; destruct (retrieve_back_button inp); vault_leaf.
  - msimpl.
    match goal with |- context [if ?b then _ else _] => destruct b end; msimpl;
      [|destruct (retrieve_back_button inp)]; vault_leaf.
Qed.

Lemma render_store_writes inp w :
  let w' := snd (render_store cs inp w) in
  key_file w' = key_file w /\ read_only w' = read_only w
  /\ ((data_file w' = data_file w /\ stored_data w' = stored_data w)
      \/ (exists u, logged_in_user w = Some u /\ u <> [])
         /\ submitted_store inp = true
         /\ data_to_store inp <> [] /\ passkey_store inp <> []
         /\ well_formed (data_to_store inp) /\ well_formed (passkey_store inp)).
Proof.
  cbv zeta. unfold render_store, save_data, try_except. msimpl.
  destruct (logged_in_user w) as [[|c u]|] eqn:Eu;
    try (fields; repeat split; left; split; reflexivity).
  msimpl.
  destruct (submitted_store inp) eqn:Es; msimpl;
    [|destruct (store_back_button inp); fields; repeat split; left; split; reflexivity].
  destruct (nonempty (data_to_store inp)) eqn:Ed; msimpl;
    [|destruct (store_back_button inp); fields; repeat split; left; split; reflexivity].
  destruct (nonempty (passkey_store inp)) eqn:Ep; msimpl;
    [|destruct (store_back_button inp); fields; repeat split; left; split; reflexivity].
  destruct (hash_passkey (passkey_store inp)) as [h|e] eqn:Eh; msimpl;
    [|repeat split; left; split; reflexivity].
  destruct (encrypt_data cs (store_entropy inp) (data_to_store inp)) as [ct|e] eqn:Ec;
    msimpl; [|repeat split; left; split; reflexivity].
  apply nonempty_true in Ed, Ep.
  apply hash_passkey_returned in Eh. apply encrypt_data_returned in Ec.
  unfold dict_mem.
  destruct (dict_get (stored_data w) (c :: u)) as [its|] eqn:Esd; msimpl;
    rewrite ?Esd, ?dict_get_set_eq; msimpl;
    destruct (read_only w) eqn:Ero; msimpl; destruct (store_back_button inp);
    fields; rewrite ?Ero;
    (split; [reflexivity|]); (split; [reflexivity|]);
    right; repeat split; eauto; discriminate.
Qed.

Lemma render_page_files inp w :
  let w' := snd (render_page cs inp w) in
  key_file w' = key_file w /\ read_only w' = read_only w
  /\ ((data_file w' = data_file w /\ stored_data w' = stored_data w)
      \/ current_page w = Store
         /\ (exists u, logged_in_user w = Some u /\ u <> [])
         /\ submitted_store (on_store inp) = true
         /\ data_to_store (on_store inp) <> []
         /\ passkey_store (on_store inp) <> []
         /\ well_formed (data_to_store (on_store inp))
         /\ well_formed (passkey_store (on_store inp))).
Proof.
  cbv zeta. unfold render_page. msimpl.
  assert (Hsame : forall w', same_vault w w' ->
            key_file w' = key_file w /\ read_only w' = read_only w
            /\ ((data_file w' = data_file w /\ stored_data w' = stored_data w)
                \/ current_page w = Store
                   /\ (exists u, logged_in_user w = Some u /\ u <> [])
                   /\ submitted_store (on_store inp) = true
                   /\ data_to_store (on_store inp) <> []
                   /\ passkey_store (on_store inp) <> []
                   /\ well_formed (data_to_store (on_store inp))
                   /\ well_formed (passkey_store (on_store inp)))).
  { intros w' (H1 & H2 & H3 & H4). auto. }
  destruct (current_page w) eqn:Ep;
    destruct (truthy (logged_in_user w)); cbn [negb orb];
    try (apply Hsame, render_login_vault).
  - apply Hsame, render_home_vault.
  - destruct (render_store_writes (on_store inp) w) as (H1 & H2 & [H3|H3]); auto.
  - apply Hsame, render_retrieve_vault.
Qed.

(** X4. No page touches the key file, and the vault and the data file
    change in a run of a page only when that run is a complete submission
    of the Store form: the page is Store, a user is logged in, the form is
    submitted, and text and passkey are non-empty and encode. Login, Home
    and Retrieve never write. *)
Theorem only_store_writes inp w :
  let w' := snd (render_page cs inp w) in
  key_file w' = key_file w /\ read_only w' = read_only w
  /\ (stored_data w' <> stored_data w \/ data_file w' <> data_file w ->
      current_page w = Store
      /\ (exists u, logged_in_user w = Some u /\ u <> [])
      /\ submitted_store (on_store inp) = true
      /\ data_to_store (on_store inp) <> []
      /\ passkey_store (on_store inp) <> []
      /\ well_formed (data_to_store (on_store inp))
      /\ well_formed (passkey_store (on_store inp))).
Proof.
  cbv zeta. destruct (render_page_files inp w) as (H1 & H2 & H3).
  split; [exact H1|]. split; [exact H2|].
  intros Hch. destruct H3 as [[H3 H4]|H3]; [destruct Hch; contradiction | exact H3].
Qed.

End Writes.

(** ** Storing *)

Section Storing.
Context {fernet : FernetLib} {json : JsonLib}.
Variable cs : bytes.

(** The world after a complete store, when the Back button is not pressed. *)
Lemma render_store_complete inp w u h c :
  logged_in_user w = Some u -> u <> [] ->
  submitted_store inp = true -> store_back_button inp = false ->
  data_to_store inp <> [] -> passkey_store inp <> [] ->
  hash_passkey (passkey_store inp) = Ret h ->
  encrypt_data cs (store_entropy inp) (data_to_store inp) = Ret c ->
  render_store cs inp w =
    (Ret tt,
     let v := stored (stored_data w) u (Item c h) in
     if read_only w then
       set_stored_data v
         (shown [st_header StoreHeader; st_error FailedToSaveData;
                 st_success StoredSuccessfully] w)
     else
       set_data_file (Some (json_dump v))
         (set_stored_data v
            (shown [st_header StoreHeader; st_success StoredSuccessfully] w))).
Proof.
  intros Hu Hne Hsub Hback Hd Hp Hh Hc.
  destruct u as [|c0 u]; [congruence|].
  apply nonempty_true in Hd, Hp.
  unfold render_store, save_data, try_except, stored. msimpl. rewrite Hu. msimpl.
  rewrite Hsub, Hd, Hp. msimpl. rewrite Hh, Hc.
  unfold dict_mem.
  destruct (dict_get (stored_data w) (c0 :: u)) as [items|] eqn:Esd; msimpl.
  - rewrite Esd. msimpl.
    destruct (read_only w) eqn:Ero; msimpl; rewrite Hback, ?Ero;
      unfold shown; msimpl; rewrite <- ?app_assoc; reflexivity.
  - rewrite dict_get_set_eq. msimpl.
    destruct (read_only w) eqn:Ero; msimpl; rewrite Hback, ?Ero;
      unfold shown; msimpl; rewrite ?dict_get_set_eq, <- ?app_assoc; reflexivity.
Qed.


(** X6. On a vault, that is when [stored_data] has the shape
    [{user: {id: item}}] that the state of this development gives it (a
    data file whose document is not a vault is outside this statement, see
    [load_data_json]), [render_store] raises an exception other than the
    rerun of [navigate_to] only on a text or a passkey with a lone
    surrogate; the exception is [UnicodeEncodeError], raised by
    [hash_passkey] or [encrypt_data] before anything is stored: the run has
    shown the page header and changed nothing else (vault, data file and
    session are as they were). No [KeyError] escapes lines 217-222. *)
Theorem store_failure_stores_nothing inp w e :
  fst (render_store cs inp w) = Raise e -> e <> RerunException ->
  e = UnicodeEncodeError
  /\ ~ (well_formed (data_to_store inp) /\ well_formed (passkey_store inp))
  /\ snd (render_store cs inp w) = shown [st_header StoreHeader] w.
Proof.
  unfold render_store, save_data, try_except. msimpl.
  destruct (logged_in_user w) as [[|c u]|] eqn:Eu;
    try (rewrite navigate_to_eq; cbn [fst]; congruence).
  msimpl.
  destruct (submitted_store inp) eqn:Es; msimpl;
    [|destruct (store_back_button inp); rewrite ?navigate_to_eq; cbn [fst]; congruence].
  destruct (nonempty (data_to_store inp) && nonempty (passkey_store inp)); msimpl;
    [|destruct (store_back_button inp); rewrite ?navigate_to_eq; cbn [fst]; congruence].
  destruct (hash_passkey (passkey_store inp)) as [h|e0] eqn:Eh; msimpl.
  2:{ intros H _. injection H as <-. apply hash_passkey_raised in Eh as [-> Hw].
      split; [reflexivity|]. split; [tauto | reflexivity]. }
  destruct (encrypt_data cs (store_entropy inp) (data_to_store inp)) as [ct|e0] eqn:Ec;
    msimpl.
  2:{ intros H _. injection H as <-. apply encrypt_data_raised in Ec as [-> Hw].
      split; [reflexivity|]. split; [tauto | reflexivity]. }
  unfold dict_mem.
  destruct (dict_get (stored_data w) (c :: u)) as [its|] eqn:Esd; msimpl;
    rewrite ?Esd, ?dict_get_set_eq; msimpl;
    destruct (read_only w); msimpl; destruct (store_back_button inp);
    rewrite ?navigate_to_eq; cbn [fst]; congruence.
Qed.

(** X7. What a store saved, the next run loads. After a complete store
    on a writable location the data file holds [json.dump] of the vault in
    memory, and, provided [json.loads] reads that text back as the vault
    it was written from, [load_data] then returns exactly that vault,
    raising nothing and showing nothing. *)
Theorem stored_item_survives_rerun inp w u content :
  logged_in_user w = Some u -> u <> [] -> read_only w = false ->
  submitted_store inp = true ->
  data_to_store inp <> [] -> passkey_store inp <> [] ->
  well_formed (data_to_store inp) -> well_formed (passkey_store inp) ->
  let w1 := snd (render_store cs inp w) in
  read_text (json_dump (stored_data w1)) = Ret content -> content <> [] ->
  json_loads content = Some (stored_data w1) ->
  data_file w1 = Some (json_dump (stored_data w1))
  /\ load_data w1 = (Ret (stored_data w1), w1).
Proof.
  intros Hu Hne Hro Hsub Hd Hp Wd Wp. cbv zeta.
  destruct (hash_passkey_spec _ Wp) as (b & _ & Hh).
  destruct (encrypt_data_returns cs (store_entropy inp) _ Wd) as [c Hc].
  destruct (render_store_submitted cs inp w u _ c Hu Hne Hsub Hd Hp Hh Hc)
    as (w0 & Hsd & Hdf & Hrun).
  rewrite Hro in Hdf.
  assert (Hw : stored_data (snd (render_store cs inp w)) = stored_data w0
               /\ data_file (snd (render_store cs inp w)) = data_file w0).
  { rewrite Hrun. destruct (store_back_button inp); [|split; reflexivity].
    apply navigate_to_files. }
  destruct Hw as [Hw1 Hw2].
  intros Hr Hc' Hj.
  assert (Hfile : data_file (snd (render_store cs inp w))
                  = Some (json_dump (stored_data (snd (render_store cs inp w)))))
    by (rewrite Hw2, Hw1, Hsd; exact Hdf).
  split; [exact Hfile|].
  eapply load_data_parsed; eassumption.
Qed.

Lemma render_store_vault inp w :
  stored_data (snd (render_store cs inp w)) = stored_data w
  \/ exists u it, stored_data (snd (render_store cs inp w)) = stored (stored_data w) u it.
Proof.
  destruct (render_store_writes cs inp w) as (_ & _ & [[_ H]|H]); [now left|].
  destruct H as ((u & Hu & Hne) & Hsub & Hd & Hp & Wd & Wp).
  destruct (hash_passkey_spec _ Wp) as (b & _ & Hh).
  destruct (encrypt_data_returns cs (store_entropy inp) _ Wd) as [c Hc].
  destruct (render_store_submitted cs inp w u _ c Hu Hne Hsub Hd Hp Hh Hc)
    as (w0 & Hsd & _ & Hrun).
  right. exists u, (Item c (SHA256.hexdigest b)). rewrite <- Hsd, Hrun.
  destruct (store_back_button inp); [|reflexivity]. apply navigate_to_files.
Qed.

Lemma stored_appends sd u it u' items :
  vault_sequential sd -> dict_get sd u' = Some items ->
  exists more, dict_get (stored sd u it) u' = Some (items ++ more).
Proof.
  intros Hseq Hget. destruct (stored_spec sd u it) as [Hu Hother]. cbv zeta in Hu.
  destruct (decide (u' = u)) as [->|Hne].
  - rewrite Hu, Hget. cbn [default from_option id].
    rewrite (dict_set_fresh _ _ _ (sequential_fresh _ (Hseq _ _ Hget))). eauto.
  - exists []. rewrite Hother, app_nil_r by assumption. exact Hget.
Qed.

(** X8. Item ids stay sequential, and a vault with sequential ids only
    grows: if in every collection [data_k] is a key only for [k] from 1 to
    the number of items, the same holds after any run of any page, and
    every collection is then the old one followed by what the run added;
    no stored item is removed, replaced or reordered. *)
Theorem ids_stay_sequential inp w :
  vault_sequential (stored_data w) ->
  let w' := snd (render_page cs inp w) in
  vault_sequential (stored_data w')
  /\ forall u items,
       dict_get (stored_data w) u = Some items ->
       exists more, dict_get (stored_data w') u = Some (items ++ more).
Proof.
  intros Hseq. cbv zeta.
  assert (Hsame : forall w', stored_data w' = stored_data w ->
            vault_sequential (stored_data w')
            /\ forall u items,
                 dict_get (stored_data w) u = Some items ->
                 exists more, dict_get (stored_data w') u = Some (items ++ more)).
  { intros w' ->. split; [exact Hseq|]. intros u items H. exists [].
    now rewrite app_nil_r. }
  unfold render_page. msimpl.
  destruct (current_page w);
    destruct (truthy (logged_in_user w)); cbn [negb orb];
    try (apply Hsame, render_login_vault).
  - apply Hsame, render_home_vault.
  - destruct (render_store_vault (on_store inp) w) as [H|(u & it & H)];
      [now apply Hsame|].
    rewrite H. split; [now apply stored_keeps_sequential|].
    intros u' items. now apply stored_appends.
  - apply Hsame, render_retrieve_vault.
Qed.

End Storing.

Section KeyFile.
Context {fernet : FernetLib} {json : JsonLib}.

Lemma load_data_files w :
  key_file (snd (load_data w)) = key_file w
  /\ read_only (snd (load_data w)) = read_only w.
Proof.
  unfold load_data, try_except. msimpl.
  destruct (data_file w) as [raw|]; msimpl; [|split; reflexivity].
  destruct (read_text raw) as [content|[]]; msimpl; try (split; reflexivity).
  destruct (nonempty content); [|split; reflexivity].
  destruct (json_loads content); split; reflexivity.
Qed.

(** X9. A run of the whole script never changes a key file that exists:
    whatever the page and the widgets, the key file holds the same key
    afterwards, so that all the runs of a session read the same key. Only
    a run that finds no key file creates one, with the generated key, and
    only where the location is writable. *)
Theorem script_keeps_key urandom inp w :
  let w' := snd (script urandom inp w) in
  read_only w' = read_only w
  /\ (forall k, key_file w = Some k -> key_file w' = Some k)
  /\ (key_file w = None ->
      key_file w' = if read_only w then None
                    else Some (Fernet_generate_key urandom)).
Proof.
  cbv zeta.
  assert (Hinit : let w1 := snd (init_cipher_suite urandom w) in
            read_only w1 = read_only w
            /\ (forall k, key_file w = Some k -> key_file w1 = Some k)
            /\ (key_file w = None ->
                key_file w1 = if read_only w then None
                              else Some (Fernet_generate_key urandom))).
  { cbv zeta. unfold init_cipher_suite, load_key, generate_key, try_except, Fernet.
    msimpl. destruct (key_file w) as [k|] eqn:Ek; msimpl.
    - destruct (Fernet_valid_key k); cbn; rewrite Ek;
        (split; [reflexivity|]); (split; [auto | discriminate]).
    - destruct (read_only w) eqn:Ero; msimpl;
        [cbn; rewrite Ek, Ero; split; [reflexivity|]; split; [discriminate | auto]|].
      destruct (Fernet_valid_key _); cbn; rewrite Ero;
        (split; [reflexivity|]); (split; [discriminate | auto]). }
  cbv zeta in Hinit. unfold script, bind.
  destruct (init_cipher_suite urandom w) as [[cs|e] w1]; cbn [snd] in *;
    [|exact Hinit].
  pose proof (load_data_files w1) as [Hk Hr].
  destruct (load_data w1) as [[data|e] w2]; cbn [snd] in *.
  - unfold modify.
    destruct (render_page_files cs inp (set_stored_data data w2)) as (Hk' & Hr' & _).
    cbn [key_file read_only set_stored_data] in Hk', Hr'.
    destruct (render_page cs inp (set_stored_data data w2)) as [o w3]; cbn [snd] in *.
    rewrite Hk', Hr', Hk, Hr. exact Hinit.
  - rewrite Hk, Hr. exact Hinit.
Qed.

End KeyFile.

(** ** What a page discloses *)

Lemma deref_after_alloc (h : list attempt_state) (l : nat) :
  default fresh_attempts ((h ++ [fresh_attempts]) !! l)
  = default fresh_attempts (h !! l).
Proof.
  destruct (h !! l) as [s|] eqn:E.
  - now rewrite (lookup_snoc_old _ _ _ _ E).
  - apply lookup_ge_None in E.
    destruct (decide (l = length h)) as [->|Hne].
    + now rewrite lookup_snoc_new.
    + rewrite (proj2 (lookup_ge_None _ _)); [reflexivity|].
      rewrite length_app. cbn [length]. lia.
Qed.

Section Disclosure.
Context {fernet : FernetLib} {json : JsonLib}.
Variable cs : bytes.

Lemma render_login_quiet f w :
  plaintexts (display (snd (render_login f w))) = plaintexts (display w).
Proof.
  unfold render_login. msimpl.
  destruct (submitted_login f); [|quiet_leaf].
  destruct (username_login f) as [|c u]; msimpl; [quiet_leaf|].
  destruct (dict_get (login_attempts w) (c :: u)); quiet_leaf.
Qed.

Lemma render_home_quiet inp w :
  plaintexts (display (snd (render_home inp w))) = plaintexts (display w).
Proof.
  unfold render_home. msimpl.
  destruct (logged_in_user w) as [[|c u]|]; try quiet_leaf.
  msimpl. destruct (store_button inp); msimpl; [quiet_leaf|].
  match goal with |- context [if ?b then _ else _] => destruct b end; msimpl.
  - destruct (logout_button inp); msimpl; [|quiet_leaf].
    destruct (dict_mem (login_attempts w) (c :: u)); quiet_leaf.
  - destruct (retrieve_button inp); msimpl; [quiet_leaf|].
    destruct (logout_button inp); msimpl; [|quiet_leaf].
    destruct (dict_mem (login_attempts w) (c :: u)); quiet_leaf.
Qed.

Lemma render_store_quiet inp w :
  plaintexts (display (snd (render_store cs inp w))) = plaintexts (display w).
Proof.
  unfold render_store, save_data, try_except. msimpl.
  destruct (logged_in_user w) as [[|c u]|] eqn:Eu; try quiet_leaf.
  msimpl.
  destruct (submitted_store inp); msimpl;
    [|destruct (store_back_button inp); quiet_leaf].
  destruct (nonempty (data_to_store inp) && nonempty (passkey_store inp)); msimpl;
    [|destruct (store_back_button inp); quiet_leaf].
  destruct (hash_passkey (passkey_store inp)) as [h|e]; msimpl; [|quiet_leaf].
  destruct (encrypt_data cs (store_entropy inp) (data_to_store inp)) as [ct|e];
    msimpl; [|quiet_leaf].
  unfold dict_mem.
  destruct (dict_get (stored_data w) (c :: u)) as [its|] eqn:Esd; msimpl;
    rewrite ?Esd, ?dict_get_set_eq; msimpl;
    destruct (read_only w); msimpl; destruct (store_back_button inp); quiet_leaf.
Qed.

Lemma render_retrieve_plaintexts inp w :
  let w' := snd (render_retrieve cs inp w) in
  plaintexts (display w') = plaintexts (display w)
  \/ exists u items h i it t,
       logged_in_user w = Some u /\ u <> []
       /\ dict_get (stored_data w) u = Some items
       /\ locked (state_of w u) = false
       /\ submitted_retrieve inp = true
       /\ passkey_retrieve inp <> []
       /\ hash_passkey (passkey_retrieve inp) = Ret h
       /\ first_match items h = Some (i, it)
       /\ decrypt_data cs (encrypted_text it) = Ret (Some t)
       /\ plaintexts (display w') = plaintexts (display w) ++ [t].
Proof.
  cbv zeta. unfold render_retrieve. msimpl.
  destruct (logged_in_user w) as [[|c u]|] eqn:Eu; try (left; quiet_leaf).
  msimpl.
  destruct (dict_get (stored_data w) (c :: u)) as [[|x items]|] eqn:Esd; msimpl.
  1,3: left; destruct (retrieve_back_button inp); quiet_leaf.
  assert (Hs : default fresh_attempts
                 ((heap w ++ [AttemptState 0 false])
                    !! default (length (heap w)) (dict_get (login_attempts w) (c :: u)))
               = state_of w (c :: u)).
  { unfold state_of, attempt_of.
    destruct (dict_get (login_attempts w) (c :: u)) as [l|]; cbn [default from_option id].
    - apply deref_after_alloc.
    - now rewrite lookup_snoc_new. }
  rewrite Hs. clear Hs.
  destruct (locked (state_of w (c :: u))) eqn:Hlock; msimpl;
    [left; destruct (retrieve_back_button inp); quiet_leaf|].
  destruct (submitted_retrieve inp) eqn:Hsub; msimpl;
    [|left; destruct (retrieve_back_button inp); quiet_leaf].
  destruct (nonempty (passkey_retrieve inp)) eqn:Hpk; msimpl;
    [|left; destruct (retrieve_back_button inp); quiet_leaf].
  destruct (hash_passkey (passkey_retrieve inp)) as [h|e] eqn:Hh; msimpl;
    [|left; quiet_leaf].
  rewrite scan_items_eq.
  destruct (first_match (x :: items) h) as [[i it]|] eqn:Efm.
  - destruct (decrypt_data_returns cs (encrypted_text it)) as [[t|] Hd]; rewrite Hd.
    + right. exists (c :: u), (x :: items), h, i, it, t.
      apply nonempty_true in Hpk.
      repeat (split; [first [assumption | reflexivity | discriminate]|]).
      msimpl. destruct (retrieve_back_button inp); quiet_leaf.
    + left. msimpl. destruct (retrieve_back_button inp); quiet_leaf.
  - left. msimpl.
    match goal with |- context [if ?b then _ else _] => destruct b end; msimpl;
      [|destruct (retrieve_back_button inp)]; quiet_leaf.
Qed.

(** X10. A run of a page shows a decrypted text only to the logged-in
    user to whom it was stored and who gave its passkey: whenever
    [st.success] shows a plaintext [t] that was not on the page before,
    the page is Retrieve, a user [u] is logged in and not locked, the form
    was submitted with a non-empty passkey, and [t] is the decryption of
    the first item of the collection of [u] whose stored hash is the hash
    of that passkey. Login, Home and Store show no plaintext, and what
    Retrieve shows is read from the collection of the logged-in user. *)
Theorem plaintext_only_by_passkey inp w t :
  In (st_success (Decrypted t)) (display (snd (render_page cs inp w))) ->
  In (st_success (Decrypted t)) (display w)
  \/ exists u items h i it,
       logged_in_user w = Some u /\ u <> []
       /\ current_page w = Retrieve
       /\ dict_get (stored_data w) u = Some items
       /\ locked (state_of w u) = false
       /\ submitted_retrieve (on_retrieve inp) = true
       /\ passkey_retrieve (on_retrieve inp) <> []
       /\ hash_passkey (passkey_retrieve (on_retrieve inp)) = Ret h
       /\ first_match items h = Some (i, it)
       /\ decrypt_data cs (encrypted_text it) = Ret (Some t).
Proof.
  rewrite !plaintexts_In. unfold render_page. msimpl.
  destruct (current_page w) eqn:Ep;
    destruct (truthy (logged_in_user w)); cbn [negb orb];
    rewrite ?render_login_quiet, ?render_home_quiet, ?render_store_quiet; auto.
  destruct (render_retrieve_plaintexts (on_retrieve inp) w)
    as [H|(u & items & h & i & it & t' & Hu & Hne & Hsd & Hl & Hs & Hpk & Hh & Hfm
           & Hd & H)];
    rewrite H; [auto|].
  rewrite in_app_iff. intros [Hin|[<-|[]]]; [now left|].
  right. exists u, items, h, i, it.
  repeat (split; [first [assumption | reflexivity]|]). assumption.
Qed.

End Disclosure.

(** ** What a page does to the attempt state *)

Lemma run_of_frame u w w' v :
  refs_ok w -> run_of u w w' -> v <> u -> state_of w' v = state_of w v.
Proof.
  intros Hrefs [Hext _] Hne. rewrite !state_of_in.
  eapply extends_frame; eassumption.
Qed.

Lemma truthy_user w :
  truthy (logged_in_user w) = true ->
  exists u, logged_in_user w = Some u /\ u <> [] /\ user_of w = u.
Proof.
  unfold user_of. destruct (logged_in_user w) as [[|c u]|]; try discriminate.
  intros _. exists (c :: u). repeat split. discriminate.
Qed.

Lemma is_locked_state w u :
  match attempt_of w u with Some s => locked s | None => false end
  = locked (state_of w u).
Proof. unfold state_of. now destruct (attempt_of w u). Qed.

(** The leaves of a run, for the attempt state of the user. *)
Ltac run_leaf :=
  rewrite ?navigate_to_eq; unfold after_navigate; msimpl;
  repeat match goal with
  | H : logged_in_user ?w = _ |- context [logged_in_user ?w] => rewrite H
  | |- context [dict_get (dict_set _ ?k _) ?k] => rewrite dict_get_set_eq
  | H : dict_get ?d ?k = _ |- context [dict_get ?d ?k] => rewrite H
  end;
  msimpl; states.

Section Changes.
Context {fernet : FernetLib} {json : JsonLib}.
Variable cs : bytes.

Lemma render_retrieve_change inp w u :
  refs_ok w -> logged_in_user w = Some u -> u <> [] ->
  let s := state_of w u in
  let s' := state_of (snd (render_retrieve cs inp w)) u in
  s' = s \/ s' = AttemptState 0 (locked s)
  \/ (s' = AttemptState (attempts s + 1) (MAX_ATTEMPTS <=? attempts s + 1)%Z
      /\ locked s = false
      /\ submitted_retrieve inp = true /\ passkey_retrieve inp <> []
      /\ exists items h,
           dict_get (stored_data w) u = Some items /\ items <> []
           /\ hash_passkey (passkey_retrieve inp) = Ret h
           /\ first_match items h = None).
Proof.
  intros Hrefs Eu Hne. destruct u as [|c u]; [congruence|]. clear Hne. cbv zeta.
  unfold render_retrieve. msimpl. rewrite Eu. msimpl.
  destruct (dict_get (stored_data w) (c :: u)) as [[|x items]|] eqn:Esd; msimpl.
  1,3: destruct (dict_get (login_attempts w) (c :: u)) as [l|] eqn:Ela;
       [destruct (valid_ref _ _ _ Hrefs Ela) as [s Hs]|];
       destruct (retrieve_back_button inp); run_leaf.
  all: try (now left). all: try (now right; left).
  destruct (dict_get (login_attempts w) (c :: u)) as [l|] eqn:Ela; msimpl.
  - destruct (valid_ref _ _ _ Hrefs Ela) as [s Hs].
    rewrite (lookup_snoc_old _ _ _ _ Hs). msimpl.
    destruct (locked s) eqn:Hlock; msimpl.
    { destruct (retrieve_back_button inp); run_leaf; rewrite ?Hlock; auto. }
    destruct (submitted_retrieve inp) eqn:Hsub; msimpl;
      [|destruct (retrieve_back_button inp); run_leaf; rewrite ?Hlock; auto].
    destruct (nonempty (passkey_retrieve inp)) eqn:Hpk; msimpl;
      [|destruct (retrieve_back_button inp); run_leaf; rewrite ?Hlock; auto].
    destruct (hash_passkey (passkey_retrieve inp)) as [h|e] eqn:Hh; msimpl;
      [|run_leaf; auto].
    rewrite scan_items_eq.
    destruct (first_match (x :: items) h) as [[i it]|] eqn:Efm.
    + destruct (decrypt_data_returns cs (encrypted_text it)) as [[text|] ->];
        msimpl; destruct (retrieve_back_button inp); run_leaf; rewrite ?Hlock; auto.
    + msimpl. rewrite (lookup_alter_app _ _ _ _ _ Hs). msimpl.
      cbn [incr_attempts attempts].
      destruct (MAX_ATTEMPTS <=? attempts s + 1)%Z eqn:Hmax; msimpl;
        [|destruct (retrieve_back_button inp)]; run_leaf; rewrite ?Hlock, ?Hmax; auto.
      all: right; right; apply nonempty_true in Hpk;
        repeat (split; [first [assumption | reflexivity]|]);
        exists (x :: items), h; repeat split; try assumption; discriminate.
  - rewrite lookup_snoc_new. msimpl. cbn [fresh_attempts locked].
    destruct (submitted_retrieve inp) eqn:Hsub; msimpl;
      [|destruct (retrieve_back_button inp); run_leaf; auto].
    destruct (nonempty (passkey_retrieve inp)) eqn:Hpk; msimpl;
      [|destruct (retrieve_back_button inp); run_leaf; auto].
    destruct (hash_passkey (passkey_retrieve inp)) as [h|e] eqn:Hh; msimpl;
      [|run_leaf; auto].
    rewrite scan_items_eq.
    destruct (first_match (x :: items) h) as [[i it]|] eqn:Efm.
    + destruct (decrypt_data_returns cs (encrypted_text it)) as [[text|] ->];
        msimpl; destruct (retrieve_back_button inp); run_leaf; auto.
    + msimpl. rewrite list_lookup_alter_eq, lookup_snoc_new. msimpl.
      cbn [fmap option_fmap option_map default from_option id incr_attempts attempts].
      destruct (Z.leb_spec MAX_ATTEMPTS (0 + 1)); [unfold MAX_ATTEMPTS in *; lia|].
      msimpl. destruct (retrieve_back_button inp); run_leaf; auto.
      right; right. apply nonempty_true in Hpk.
      repeat (split; [first [assumption | reflexivity]|]).
      exists (x :: items), h; repeat split; try assumption; discriminate.
Qed.

Lemma render_store_change inp w u :
  refs_ok w -> logged_in_user w = Some u -> u <> [] ->
  let s := state_of w u in
  let s' := state_of (snd (render_store cs inp w)) u in
  s' = s \/ s' = AttemptState 0 (locked s).
Proof.
  intros Hrefs Eu Hne. destruct u as [|c u]; [congruence|]. clear Hne. cbv zeta.
  unfold render_store, save_data, try_except. msimpl. rewrite Eu. msimpl.
  assert (Hs : forall l, dict_get (login_attempts w) (c :: u) = Some l ->
                         exists s, heap w !! l = Some s)
    by (intros l; apply valid_ref; assumption).
  destruct (dict_get (login_attempts w) (c :: u)) as [l|] eqn:Ela;
    [destruct (Hs l eq_refl) as [s Hl]|]; clear Hs.
  all: destruct (submitted_store inp); msimpl;
    [|destruct (store_back_button inp); run_leaf; auto].
  all: destruct (nonempty (data_to_store inp) && nonempty (passkey_store inp)); msimpl;
    [|destruct (store_back_button inp); run_leaf; auto].
  all: destruct (hash_passkey (passkey_store inp)) as [h|e]; msimpl; [|run_leaf; auto].
  all: destruct (encrypt_data cs (store_entropy inp) (data_to_store inp)) as [ct|e];
    msimpl; [|run_leaf; auto].
  all: unfold dict_mem;
    destruct (dict_get (stored_data w) (c :: u)) as [its|] eqn:Esd; msimpl;
    rewrite ?Esd, ?dict_get_set_eq; msimpl;
    destruct (read_only w); msimpl; destruct (store_back_button inp); run_leaf; auto.
Qed.

Lemma render_home_change inp w u :
  refs_ok w -> logged_in_user w = Some u -> u <> [] ->
  let s := state_of w u in
  let s' := state_of (snd (render_home inp w)) u in
  s' = s \/ s' = AttemptState 0 (locked s)
  \/ (s' = AttemptState 0 false /\ logout_button inp = true).
Proof.
  intros Hrefs Eu Hne. destruct u as [|c u]; [congruence|]. clear Hne. cbv zeta.
  unfold render_home. msimpl. rewrite Eu. msimpl.
  destruct (dict_get (login_attempts w) (c :: u)) as [l|] eqn:Ela;
    [destruct (valid_ref _ _ _ Hrefs Ela) as [s Hs]|].
  - destruct (store_button inp); msimpl; [run_leaf; auto|].
    unfold attempt_of. msimpl. rewrite Ela, Hs. msimpl.
    destruct (locked s) eqn:Hlock; msimpl.
    + destruct (logout_button inp); msimpl; unfold dict_mem; msimpl;
        rewrite ?Ela; msimpl; run_leaf; auto.
    + destruct (retrieve_button inp); msimpl; [run_leaf; auto|].
      destruct (logout_button inp); msimpl; unfold dict_mem; msimpl;
        rewrite ?Ela; msimpl; run_leaf; auto.
  - destruct (store_button inp); msimpl; [run_leaf; auto|].
    unfold attempt_of. msimpl. rewrite Ela. msimpl.
    destruct (retrieve_button inp); msimpl; [run_leaf; auto|].
    destruct (logout_button inp); msimpl; unfold dict_mem; msimpl;
      rewrite ?Ela; msimpl; run_leaf; auto.
Qed.

Lemma render_login_run_user f w :
  refs_ok w -> run_of (username_login f) w (snd (render_login f w)).
Proof.
  intros Hrefs. unfold render_login. msimpl.
  destruct (submitted_login f); [|now apply run_of_same].
  destruct (username_login f) as [|c u] eqn:Eu; msimpl;
    [now apply run_of_same|].
  unfold run_of.
  destruct (dict_get (login_attempts w) (c :: u)) as [l|] eqn:Ela; msimpl.
  - destruct (valid_ref _ _ _ Hrefs Ela) as [s Hs]. leaf.
  - leaf.
Qed.

Lemma render_login_change f w :
  refs_ok w ->
  let u := username_login f in
  let s := state_of w u in
  let s' := state_of (snd (render_login f w)) u in
  s' = s \/ (s' = AttemptState 0 false /\ submitted_login f = true /\ u <> []).
Proof.
  intros Hrefs. cbv zeta. unfold render_login. msimpl.
  destruct (submitted_login f); [|now left].
  destruct (username_login f) as [|c u] eqn:Eu; msimpl; [now left|].
  right. split; [|split; [reflexivity | discriminate]].
  destruct (dict_get (login_attempts w) (c :: u)) as [l|] eqn:Ela; msimpl.
  - destruct (valid_ref _ _ _ Hrefs Ela) as [s Hs]. run_leaf. reflexivity.
  - run_leaf. reflexivity.
Qed.

End Changes.

Section Guarding.
Context {fernet : FernetLib} {json : JsonLib}.
Variable cs : bytes.

(** X11. The counter of failed attempts of a user grows in a run of a
    page only by a failed retrieval of that user: the user is logged in
    and unlocked on the Retrieve page, has stored items, and submits a
    non-empty passkey whose hash matches none of them; the counter then
    grows by one, and the user is locked exactly when it reaches
    [MAX_ATTEMPTS]. An empty passkey, an unsubmitted form, a user without
    items, a matching hash and every run of Login, Home and Store count
    nothing. *)
Theorem attempt_counted_only_on_mismatch inp w u :
  session_ok w ->
  let s := state_of w u in
  let s' := state_of (snd (render_page cs inp w)) u in
  (attempts s < attempts s')%Z ->
  logged_in_user w = Some u /\ current_page w = Retrieve
  /\ locked s = false
  /\ submitted_retrieve (on_retrieve inp) = true
  /\ passkey_retrieve (on_retrieve inp) <> []
  /\ (exists items h,
        dict_get (stored_data w) u = Some items /\ items <> []
        /\ hash_passkey (passkey_retrieve (on_retrieve inp)) = Ret h
        /\ first_match items h = None)
  /\ s' = AttemptState (attempts s + 1) (MAX_ATTEMPTS <=? attempts s + 1)%Z.
Proof.
  intros [Hrefs Hok]. cbv zeta.
  destruct (Hok u) as [[H0 _] _].
  assert (Hlogin :
    (attempts (state_of w u)
     < attempts (state_of (snd (render_login (on_login inp) w)) u))%Z -> False).
  { destruct (decide (username_login (on_login inp) = u)) as [E|E].
    - destruct (render_login_change (on_login inp) w Hrefs) as [H|(H & _)];
        rewrite E in H; rewrite H; cbn [attempts]; lia.
    - rewrite (run_of_frame _ _ _ u Hrefs (render_login_run_user _ _ Hrefs))
        by congruence.
      lia. }
  unfold render_page. msimpl.
  destruct (truthy (logged_in_user w)) eqn:Et;
    [|rewrite orb_true_r; intros H; now apply Hlogin in H].
  destruct (truthy_user w Et) as (v & Hv & Hne & Huser).
  assert (Hframe : forall w', run_of (user_of w) w w' -> u <> v ->
                     (attempts (state_of w u) < attempts (state_of w' u))%Z -> False).
  { intros w' Hrun Huv Hl'.
    rewrite (run_of_frame _ _ _ u Hrefs Hrun) in Hl' by congruence. lia. }
  destruct (current_page w) eqn:Ep; cbn [negb orb];
    [intros H; now apply Hlogin in H|..]; intros Hl';
    (destruct (decide (u = v)) as [->|Huv];
     [|exfalso; eapply Hframe; [|exact Huv|exact Hl']]).
  - destruct (render_home_change (on_home inp) w v Hrefs Hv Hne) as [H|[H|[H _]]];
      rewrite H in Hl'; cbn [attempts] in Hl'; lia.
  - now apply render_home_run.
  - destruct (render_store_change cs (on_store inp) w v Hrefs Hv Hne) as [H|H];
      rewrite H in Hl'; cbn [attempts] in Hl'; lia.
  - now apply render_store_run.
  - destruct (render_retrieve_change cs (on_retrieve inp) w v Hrefs Hv Hne)
      as [H|[H|(H & Hlock & Hsub & Hpk & Hitems)]];
      [rewrite H in Hl'; cbn [attempts] in Hl'; lia ..|].
    repeat (split; [first [assumption | reflexivity]|]). exact H.
  - now apply render_retrieve_run.
Qed.

(** X12. A lock holds until the user logs in again or logs out: if a
    user is locked before a run of a page and not locked after it, then
    the run was a submitted login under that user's name, or that user,
    logged in on Home, pressed Logout. Retrieval, storing, navigation and
    what other users do never unlock. *)
Theorem lock_persists inp w u :
  refs_ok w ->
  locked (state_of w u) = true ->
  locked (state_of (snd (render_page cs inp w)) u) = false ->
  (submitted_login (on_login inp) = true /\ username_login (on_login inp) = u)
  \/ (logged_in_user w = Some u /\ current_page w = Home
      /\ logout_button (on_home inp) = true).
Proof.
  intros Hrefs Hl.
  assert (Hlogin : locked (state_of (snd (render_login (on_login inp) w)) u) = false ->
            (submitted_login (on_login inp) = true /\ username_login (on_login inp) = u)
            \/ (logged_in_user w = Some u /\ current_page w = Home
                /\ logout_button (on_home inp) = true)).
  { intros Hl'. destruct (decide (username_login (on_login inp) = u)) as [E|E].
    - destruct (render_login_change (on_login inp) w Hrefs) as [H|(_ & H & _)];
        [|now left].
      rewrite E in H. congruence.
    - rewrite (run_of_frame _ _ _ u Hrefs (render_login_run_user _ _ Hrefs)) in Hl'
        by congruence.
      congruence. }
  unfold render_page. msimpl.
  destruct (truthy (logged_in_user w)) eqn:Et;
    [|now rewrite orb_true_r].
  destruct (truthy_user w Et) as (v & Hv & Hne & Huser).
  assert (Hframe : forall w', run_of (user_of w) w w' -> u <> v ->
                     locked (state_of w' u) = false -> False).
  { intros w' Hrun Huv Hl'.
    rewrite (run_of_frame _ _ _ u Hrefs Hrun) in Hl' by congruence. congruence. }
  destruct (current_page w) eqn:Ep; cbn [negb orb]; [exact Hlogin|..]; intros Hl';
    (destruct (decide (u = v)) as [->|Huv];
     [|exfalso; eapply Hframe; [|exact Huv|exact Hl']]).
  - destruct (render_home_change (on_home inp) w v Hrefs Hv Hne) as [H|[H|[_ H]]];
      [rewrite H in Hl'; cbn in Hl'; congruence ..|].
    right. auto.
  - now apply render_home_run.
  - destruct (render_store_change cs (on_store inp) w v Hrefs Hv Hne) as [H|H];
      rewrite H in Hl'; cbn in Hl'; congruence.
  - now apply render_store_run.
  - destruct (render_retrieve_change cs (on_retrieve inp) w v Hrefs Hv Hne)
      as [H|[H|(_ & H & _)]];
      [rewrite H in Hl'; cbn in Hl'; congruence ..|congruence].
  - now apply render_retrieve_run.
Qed.

(** X13. Attempt states are per user: a run of a page leaves the counter
    and the lock of every user untouched, except the user who is logged in
    and the user named in the login form. The failed attempts and the
    lockout of one user never count against another. *)
Theorem attempts_are_per_user inp w v :
  refs_ok w ->
  logged_in_user w <> Some v -> username_login (on_login inp) <> v ->
  state_of (snd (render_page cs inp w)) v = state_of w v.
Proof.
  intros Hrefs Hv Hf.
  assert (Hlogin : state_of (snd (render_login (on_login inp) w)) v = state_of w v).
  { eapply run_of_frame; [exact Hrefs | now apply render_login_run_user | congruence]. }
  unfold render_page. msimpl.
  destruct (truthy (logged_in_user w)) eqn:Et;
    [|now rewrite orb_true_r].
  destruct (truthy_user w Et) as (u & Hu & Hne & Huser).
  assert (Hvu : v <> user_of w) by congruence.
  destruct (current_page w); cbn [negb orb]; [exact Hlogin|..];
    eapply run_of_frame; try exact Hvu; try exact Hrefs.
  - now apply render_home_run.
  - now apply render_store_run.
  - now apply render_retrieve_run.
Qed.

(** X14. Logout, lines 192-197: when the logged-in user presses Logout
    on Home (and neither Store nor, where it is offered, Retrieve), the run
    ends in a rerun with nobody logged in and the Login page current, and
    the attempt state of that user is [{0, false}]: logging out alone
    clears a lock. *)
Theorem logout_resets inp w u :
  logged_in_user w = Some u -> u <> [] ->
  store_button inp = false ->
  (locked (state_of w u) = false -> retrieve_button inp = false) ->
  logout_button inp = true ->
  let r := render_home inp w in
  fst r = Raise RerunException
  /\ logged_in_user (snd r) = None
  /\ current_page (snd r) = Login
  /\ state_of (snd r) u = AttemptState 0 false.
Proof.
  intros Hu Hne Hst Hre Hlo. destruct u as [|c u]; [congruence|]. clear Hne. cbv zeta.
  unfold render_home. msimpl. rewrite Hu. msimpl. rewrite Hst. msimpl.
  unfold attempt_of. msimpl. fold (attempt_of w (c :: u)). rewrite is_locked_state.
  destruct (locked (state_of w (c :: u))) eqn:Hlock; msimpl;
    rewrite ?Hre by reflexivity; msimpl; rewrite Hlo; msimpl; unfold dict_mem;
    destruct (dict_get (login_attempts w) (c :: u)) as [l|] eqn:Ela; msimpl;
    rewrite navigate_to_eq; unfold after_navigate; msimpl;
    (split; [reflexivity|]); (split; [reflexivity|]); (split; [reflexivity|]);
    unfold state_of, attempt_of; msimpl;
    rewrite ?dict_get_set_eq, ?Ela, ?lookup_snoc_new; reflexivity.
Qed.

(** X15. Home offers no way to Retrieve to a locked user, lines 185-190:
    whatever buttons the run reports, [render_home] for a locked user
    never makes Retrieve the current page, and unless the run leaves for
    Store it shows the lockout error in place of the Retrieve button. *)
Theorem locked_home_never_opens_retrieve inp w u :
  logged_in_user w = Some u -> u <> [] ->
  locked (state_of w u) = true ->
  current_page w = Home ->
  let r := render_home inp w in
  current_page (snd r) <> Retrieve
  /\ (store_button inp = false ->
      In (st_error AccountLocked) (display (snd r))).
Proof.
  intros Hu Hne Hlock Hp. destruct u as [|c u]; [congruence|]. clear Hne. cbv zeta.
  unfold render_home. msimpl. rewrite Hu. msimpl.
  destruct (store_button inp); msimpl.
  { fields. split; [discriminate | discriminate]. }
  unfold attempt_of. msimpl. fold (attempt_of w (c :: u)).
  rewrite is_locked_state, Hlock. msimpl.
  destruct (logout_button inp); msimpl; unfold dict_mem;
    try destruct (dict_get (login_attempts w) (c :: u)); msimpl; fields;
    rewrite ?Hp; (split; [discriminate|]); intros _;
    rewrite !in_app_iff; cbn; auto.
Qed.

(** X16. [navigate_to], lines 135-142, always leaves by [st.rerun()]
    with the requested page current; it changes neither the logged-in
    user, nor the entries of [login_attempts], nor the files, the vault
    or what is shown, and it never changes the lock of any user: only
    counters are reset. Navigating to Retrieve changes nothing but the
    current page. *)
Theorem navigate_to_effect p w :
  let r := navigate_to p w in
  fst r = Raise RerunException
  /\ current_page (snd r) = p
  /\ logged_in_user (snd r) = logged_in_user w
  /\ login_attempts (snd r) = login_attempts w
  /\ key_file (snd r) = key_file w
  /\ data_file (snd r) = data_file w
  /\ stored_data (snd r) = stored_data w
  /\ display (snd r) = display w
  /\ (forall u, locked (state_of (snd r) u) = locked (state_of w u))
  /\ (p = Retrieve -> snd r = set_current_page Retrieve w).
Proof.
  cbv zeta. rewrite navigate_to_eq. cbn [fst snd].
  destruct (after_navigate_fields p w) as (H1 & H2 & H3 & H4 & H5 & H6 & H7 & H8).
  split; [reflexivity|]. split; [exact H8|]. split; [exact H6|].
  split; [exact H7|]. split; [exact H1|]. split; [exact H3|].
  split; [exact H4|]. split; [exact H5|].
  split; [|intros ->; reflexivity].
  intros u0. unfold state_of, attempt_of. rewrite H7.
  unfold after_navigate.
  destruct p, (logged_in_user w) as [[|c u]|]; cbn [heap set_current_page];
    try reflexivity;
    destruct (dict_get (login_attempts w) (c :: u)) as [l|]; cbn [heap set_heap];
    try reflexivity;
    destruct (dict_get (login_attempts w) u0) as [l0|]; try reflexivity;
    (destruct (decide (l0 = l)) as [->|Hl];
     [rewrite list_lookup_alter_eq; destruct (heap w !! l); reflexivity
     |rewrite list_lookup_alter_ne by congruence; reflexivity]).
Qed.

End Guarding.

(** ** Storing, then retrieving *)

Lemma first_match_set items k it h :
  Forall (fun x => passkey_hash (snd x) <> h) items ->
  passkey_hash it = h ->
  exists j, first_match (dict_set items k it) h = Some (j, it).
Proof.
  intros Hno Hit. induction Hno as [|[k' v'] items Hv _ IH]; cbn [dict_set].
  - exists k. cbn. now rewrite decide_True.
  - destruct (decide (k' = k)) as [E|E].
    + exists k'. cbn. now rewrite decide_True.
    + destruct IH as [j IH]. exists j. cbn. cbn in Hv. now rewrite decide_False.
Qed.

Lemma first_match_snoc items x h i it :
  first_match items h = Some (i, it) -> first_match (items ++ [x]) h = Some (i, it).
Proof.
  induction items as [|[k v] items IH]; cbn; [discriminate|].
  destruct (decide (passkey_hash v = h)); auto.
Qed.

Lemma dict_set_nonempty {V : Type} (d : dict V) k v : dict_set d k v <> [].
Proof. destruct d as [|[k' v'] d]; cbn; [|destruct (decide (k' = k))]; discriminate. Qed.

Section Composition.
Context {fernet : FernetLib} {json : JsonLib}.
Variable cs : bytes.

(** The session and the collection of the user after a complete store. *)
Lemma render_store_then inp w u h c s :
  logged_in_user w = Some u -> u <> [] ->
  submitted_store inp = true -> store_back_button inp = false ->
  data_to_store inp <> [] -> passkey_store inp <> [] ->
  hash_passkey (passkey_store inp) = Ret h ->
  encrypt_data cs (store_entropy inp) (data_to_store inp) = Ret c ->
  attempt_of w u = Some s ->
  let items := default [] (dict_get (stored_data w) u) in
  let data_id := data_id_of (N.of_nat (length items) + 1) in
  let w1 := snd (render_store cs inp w) in
  retrieving w1 u (dict_set items data_id (Item c h))
  /\ attempt_of w1 u = Some s.
Proof.
  intros Hu Hne Hsub Hback Hd Hp Hh Hc Hs. cbv zeta.
  rewrite (render_store_complete cs inp w u h c) by assumption.
  cbv zeta. cbn [snd].
  destruct (stored_spec (stored_data w) u (Item c h)) as [Hget _]. cbv zeta in Hget.
  destruct (read_only w); (split; [|exact Hs]);
    (split; [exact Hu|]); (split; [exact Hne|]);
    (split; [exact Hget | apply dict_set_nonempty]).
Qed.

(** X17. What a user stores, the same user retrieves in a later run with
    the same passkey. After a complete store on a writable location, of a
    text under a passkey whose hash none of the user's earlier items
    carries, take any later run of the whole script on the Retrieve page,
    over the key file and the data file that the store left, with that
    user logged in and not locked: the run reloads the vault from the data
    file (line 124), whatever the vault in memory was, and, provided
    [json.loads] reads the file back as the vault it was written from, a
    submission of the same passkey shows exactly the stored text. *)
Theorem store_then_retrieve st inp urandom w w2 u s content :
  Fernet_valid_key cs = true ->
  logged_in_user w = Some u -> u <> [] -> read_only w = false ->
  submitted_store st = true ->
  data_to_store st <> [] -> passkey_store st <> [] ->
  well_formed (data_to_store st) -> well_formed (passkey_store st) ->
  (forall h, hash_passkey (passkey_store st) = Ret h ->
     Forall (fun x => passkey_hash (snd x) <> h)
            (default [] (dict_get (stored_data w) u))) ->
  let w1 := snd (render_store cs st w) in
  read_text (json_dump (stored_data w1)) = Ret content -> content <> [] ->
  json_loads content = Some (stored_data w1) ->
  key_file w2 = Some cs -> data_file w2 = data_file w1 ->
  logged_in_user w2 = Some u -> current_page w2 = Retrieve ->
  attempt_of w2 u = Some s -> locked s = false ->
  submitted_retrieve (on_retrieve inp) = true ->
  retrieve_back_button (on_retrieve inp) = false ->
  passkey_retrieve (on_retrieve inp) = passkey_store st ->
  let r := script urandom inp w2 in
  fst r = Ret tt
  /\ display (snd r) =
       display w2 ++ [st_header RetrieveHeader; st_subheader DecryptedData;
                      st_success (Decrypted (data_to_store st))].
Proof.
  intros Hk Hu Hne Hro Hsub Hd Hp Wd Wp Hnew. cbv zeta.
  destruct (hash_passkey_spec _ Wp) as (b & _ & Hh).
  destruct (encrypt_then_decrypt cs (store_entropy st) _ Hk Wd) as (c & Hc & Hdec).
  destruct (render_store_submitted cs st w u _ c Hu Hne Hsub Hd Hp Hh Hc)
    as (w0 & Hsd & Hdf & Hrun).
  rewrite Hro in Hdf.
  assert (Hw : stored_data (snd (render_store cs st w)) = stored_data w0
               /\ data_file (snd (render_store cs st w)) = data_file w0).
  { rewrite Hrun. destruct (store_back_button st); [|split; reflexivity].
    apply navigate_to_files. }
  destruct Hw as [-> ->]. rewrite Hsd, Hdf.
  set (v1 := stored (stored_data w) u (Item c (SHA256.hexdigest b))).
  intros Hr Hc' Hj Hkey Hfile Hu2 Hpage Hs Hlock Hsr Hbr Hpk.
  assert (Hinit : init_cipher_suite urandom w2 = (Ret cs, w2)).
  { unfold init_cipher_suite, load_key, try_except, Fernet. msimpl.
    rewrite Hkey. msimpl. now rewrite Hk. }
  assert (Hload : load_data w2 = (Ret v1, w2))
    by (eapply load_data_parsed; eassumption).
  unfold script, bind, modify. rewrite Hinit, Hload.
  set (w3 := set_stored_data v1 w2).
  assert (Hpg : render_page cs inp w3 = render_retrieve cs (on_retrieve inp) w3).
  { unfold render_page, w3. msimpl. rewrite Hpage, Hu2.
    destruct u as [|c0 u]; [congruence | reflexivity]. }
  rewrite Hpg.
  destruct (stored_spec (stored_data w) u (Item c (SHA256.hexdigest b))) as [Hget _].
  cbv zeta in Hget. fold v1 in Hget.
  assert (Hret : retrieving w3 u
                   (dict_set (default [] (dict_get (stored_data w) u))
                      (data_id_of
                         (N.of_nat (length (default [] (dict_get (stored_data w) u))) + 1))
                      (Item c (SHA256.hexdigest b)))).
  { split; [exact Hu2|]. split; [exact Hne|].
    split; [exact Hget | apply dict_set_nonempty]. }
  destruct (first_match_set _
              (data_id_of (N.of_nat (length (default [] (dict_get (stored_data w) u))) + 1))
              (Item c (SHA256.hexdigest b)) _ (Hnew _ Hh) eq_refl) as [j Hfm].
  assert (Hsubmits : submits (on_retrieve inp) (SHA256.hexdigest b)).
  { split; [exact Hsr|]. rewrite Hpk. repeat split; assumption. }
  destruct (render_retrieve_found cs (on_retrieve inp) w3 u _ s _ j _ (data_to_store st)
              Hret Hs Hlock Hsubmits Hfm Hdec) as (H1 & H2 & _).
  split; assumption.
Qed.

(** X18. An item stored under a passkey that an earlier item of the
    user already carries is shadowed: the store appends it under the next
    id, yet a retrieval with that passkey still shows the text of the
    earlier item, the first match, and not the text just stored. *)
Theorem stored_under_used_passkey_is_shadowed st rt w u s h i it t :
  logged_in_user w = Some u -> u <> [] ->
  attempt_of w u = Some s -> locked s = false ->
  submitted_store st = true -> store_back_button st = false ->
  data_to_store st <> [] -> passkey_store st <> [] ->
  well_formed (data_to_store st) ->
  hash_passkey (passkey_store st) = Ret h ->
  let items := default [] (dict_get (stored_data w) u) in
  dict_get items (data_id_of (N.of_nat (length items) + 1)) = None ->
  first_match items h = Some (i, it) ->
  decrypt_data cs (encrypted_text it) = Ret (Some t) ->
  submitted_retrieve rt = true -> retrieve_back_button rt = false ->
  passkey_retrieve rt = passkey_store st ->
  let w1 := snd (render_store cs st w) in
  let r := render_retrieve cs rt w1 in
  (exists c, dict_get (stored_data w1) u
             = Some (items ++ [(data_id_of (N.of_nat (length items) + 1), Item c h)]))
  /\ fst r = Ret tt
  /\ display (snd r) =
       display w1 ++ [st_header RetrieveHeader; st_subheader DecryptedData;
                      st_success (Decrypted t)].
Proof.
  intros Hu Hne Hs Hlock Hsub Hback Hd Hp Wd Hh. cbv zeta.
  intros Hfresh Hfm Hdec Hsr Hbr Hpk.
  destruct (encrypt_data_returns cs (store_entropy st) _ Wd) as [c Hc].
  destruct (render_store_then st w u h c s Hu Hne Hsub Hback Hd Hp Hh Hc Hs)
    as [Hr Hs1].
  rewrite (dict_set_fresh _ _ _ Hfresh) in Hr.
  split; [exists c; apply Hr|].
  assert (Hsubmits : submits rt h).
  { split; [exact Hsr|]. rewrite Hpk. repeat split; assumption. }
  destruct (render_retrieve_found cs rt _ u _ s _ i it t
              Hr Hs1 Hlock Hsubmits (first_match_snoc _ _ _ _ _ Hfm) Hdec)
    as (H1 & H2 & _).
  split; assumption.
Qed.

(** X19. A text that [decrypt_data] returns is well formed (it holds no
    lone surrogate), so that [encrypt_data] and [hash_passkey] accept it:
    whatever the vault shows can be stored again, and used as a passkey,
    without an encoding error. *)
Theorem decrypted_text_encrypts_again c t r :
  decrypt_data cs c = Ret (Some t) ->
  well_formed t
  /\ (exists c', encrypt_data cs r t = Ret c')
  /\ exists h, hash_passkey t = Ret h.
Proof.
  intros H.
  destruct (decrypt_data_total cs c) as [E|(token & payload & p & _ & _ & Hp & E)];
    rewrite E in H; [discriminate H|]. injection H as ->.
  assert (Wt : well_formed t).
  { apply bytes_decode_encode in Hp. unfold str_encode in Hp.
    apply utf8_encode_well_formed.
    destruct (utf8_encode t); [eauto | discriminate Hp]. }
  split; [exact Wt|]. split; [now apply encrypt_data_returns|].
  destruct (hash_passkey_spec _ Wt) as (b & _ & Hh). eauto.
Qed.

End Composition.

(** ** The logged-in user *)

Lemma extends_mem u la h la' h' u0 :
  extends u la h la' h' -> dict_mem la u0 = true -> dict_mem la' u0 = true.
Proof.
  intros (_ & Hoth & _ & Hu). unfold dict_mem.
  destruct (decide (u0 = u)) as [->|Hne].
  - destruct (dict_get la' u); [reflexivity | now rewrite Hu].
  - now rewrite Hoth.
Qed.

Lemma user_known_step w w' :
  user_known w ->
  (forall u0, dict_mem (login_attempts w) u0 = true ->
              dict_mem (login_attempts w') u0 = true) ->
  logged_in_user w' = logged_in_user w \/ logged_in_user w' = None
  \/ (exists u, logged_in_user w' = Some u /\ u <> []
                /\ dict_mem (login_attempts w') u = true) ->
  user_known w'.
Proof.
  intros Hk Hmem [H|[H|(u & H & Hne & Hu)]] u0 Hu0; rewrite H in Hu0.
  - destruct (Hk _ Hu0). auto.
  - discriminate Hu0.
  - injection Hu0 as <-. auto.
Qed.

Section Known.
Context {fernet : FernetLib} {json : JsonLib}.
Variable cs : bytes.

Lemma render_login_user f w :
  let w' := snd (render_login f w) in
  logged_in_user w' = logged_in_user w \/ logged_in_user w' = None
  \/ (exists u, logged_in_user w' = Some u /\ u <> []
                /\ dict_mem (login_attempts w') u = true).
Proof.
  cbv zeta. unfold render_login. msimpl.
  destruct (submitted_login f); [|now left].
  destruct (username_login f) as [|c u] eqn:Eu; msimpl; [now left|].
  right; right. exists (c :: u).
  destruct (dict_get (login_attempts w) (c :: u)) as [l|] eqn:Ela; msimpl;
    fields; (split; [reflexivity|]); (split; [discriminate|]);
    unfold dict_mem; rewrite ?dict_get_set_eq, ?Ela; reflexivity.
Qed.

Lemma render_home_user inp w :
  let w' := snd (render_home inp w) in
  logged_in_user w' = logged_in_user w \/ logged_in_user w' = None.
Proof.
  cbv zeta. unfold render_home. msimpl.
  destruct (logged_in_user w) as [[|c u]|] eqn:Eu; try (fields; auto).
  msimpl. destruct (store_button inp); msimpl; [fields; auto|].
  match goal with |- context [if ?b then _ else _] => destruct b end; msimpl.
  - destruct (logout_button inp); msimpl; [|auto].
    destruct (dict_mem (login_attempts w) (c :: u)); fields; auto.
  - destruct (retrieve_button inp); msimpl; [fields; auto|].
    destruct (logout_button inp); msimpl; [|auto].
    destruct (dict_mem (login_attempts w) (c :: u)); fields; auto.
Qed.

Lemma render_store_user inp w :
  logged_in_user (snd (render_store cs inp w)) = logged_in_user w.
Proof.
  unfold render_store, save_data, try_except. msimpl.
  destruct (logged_in_user w) as [[|c u]|] eqn:Eu; try (fields; auto).
  msimpl.
  destruct (submitted_store inp); msimpl;
    [|destruct (store_back_button inp); fields; auto].
  destruct (nonempty (data_to_store inp) && nonempty (passkey_store inp)); msimpl;
    [|destruct (store_back_button inp); fields; auto].
  destruct (hash_passkey (passkey_store inp)) as [h|e]; msimpl; [|auto].
  destruct (encrypt_data cs (store_entropy inp) (data_to_store inp)) as [ct|e];
    msimpl; [|auto].
  unfold dict_mem.
  destruct (dict_get (stored_data w) (c :: u)) as [its|] eqn:Esd; msimpl;
    rewrite ?Esd, ?dict_get_set_eq; msimpl;
    destruct (read_only w); msimpl; destruct (store_back_button inp);
    fields; auto.
Qed.

Lemma render_retrieve_user inp w :
  logged_in_user (snd (render_retrieve cs inp w)) = logged_in_user w.
Proof.
  unfold render_retrieve. msimpl.
  destruct (logged_in_user w) as [[|c u]|] eqn:Eu; try (fields; auto).
  msimpl.
  destruct (dict_get (stored_data w) (c :: u)) as [[|x items]|]; msimpl.
  1,3: destruct (retrieve_back_button inp); fields; auto.
  match goal with |- context [if locked ?s then _ else _] => destruct (locked s) end;
    msimpl; [destruct (retrieve_back_button inp); fields; auto|].
  destruct (submitted_retrieve inp); msimpl;
    [|destruct (retrieve_back_button inp); fields; auto].
  destruct (nonempty (passkey_retrieve inp)); msimpl;
    [|destruct (retrieve_back_button inp); fields; auto].
  destruct (hash_passkey (passkey_retrieve inp)) as [h|e]; msimpl; [|auto].
  rewrite scan_items_eq.
  destruct (first_match (x :: items) h) as [[i it]|].
  - destruct (decrypt_data_returns cs (encrypted_text it)) as [[text|] ->];
      msimpl; destruct (retrieve_back_button inp); fields; auto.
  - msimpl.
    match goal with |- context [if ?b then _ else _] => destruct b end; msimpl;
      [|destruct (retrieve_back_button inp)]; fields; auto.
Qed.

Lemma render_page_known inp w :
  refs_ok w -> user_known w -> user_known (snd (render_page cs inp w)).
Proof.
  intros Hrefs Hk.
  destruct (render_page_run cs inp w Hrefs) as [u0 [Hext _]].
  apply (user_known_step w); [exact Hk | intros u1; eapply extends_mem; exact Hext |].
  unfold render_page. msimpl.
  destruct (current_page w);
    destruct (truthy (logged_in_user w)); cbn [negb orb];
    try apply render_login_user.
  - destruct (render_home_user (on_home inp) w); auto.
  - left. apply render_store_user.
  - left. apply render_retrieve_user.
Qed.
End Known.

Section KnownRuns.
Context {fernet : FernetLib} {json : JsonLib}.

Lemma init_cipher_suite_user urandom w :
  logged_in_user (snd (init_cipher_suite urandom w)) = logged_in_user w.
Proof.
  unfold init_cipher_suite, load_key, generate_key, try_except, Fernet. msimpl.
  destruct (key_file w) as [k|]; msimpl.
  - destruct (Fernet_valid_key k); reflexivity.
  - destruct (read_only w); msimpl; [reflexivity|].
    destruct (Fernet_valid_key _); reflexivity.
Qed.

Lemma load_data_user w : logged_in_user (snd (load_data w)) = logged_in_user w.
Proof.
  unfold load_data, try_except. msimpl.
  destruct (data_file w) as [raw|]; msimpl; [|reflexivity].
  destruct (read_text raw) as [content|[]]; msimpl; try reflexivity.
  destruct (nonempty content); [|reflexivity].
  destruct (json_loads content); reflexivity.
Qed.

Lemma script_known urandom inp w :
  session_ok w -> user_known w -> user_known (snd (script urandom inp w)).
Proof.
  intros Hok Hk. unfold script, bind.
  pose proof (init_cipher_suite_session urandom w) as [Hla1 Hh1].
  pose proof (init_cipher_suite_user urandom w) as Hu1.
  destruct (init_cipher_suite urandom w) as [[cs|e] w1]; cbn [snd] in *.
  2:{ unfold user_known. now rewrite Hu1, Hla1. }
  pose proof (load_data_session w1) as [Hla2 Hh2].
  pose proof (load_data_user w1) as Hu2.
  destruct (load_data w1) as [[data|e] w2]; cbn [snd] in *.
  2:{ unfold user_known. now rewrite Hu2, Hla2, Hu1, Hla1. }
  unfold modify.
  assert (Hk0 : user_known (set_stored_data data w2)).
  { unfold user_known. cbn. now rewrite Hu2, Hla2, Hu1, Hla1. }
  assert (Hr0 : refs_ok (set_stored_data data w2)).
  { destruct Hok as [Hrefs _]. unfold refs_ok in *. cbn.
    now rewrite Hla2, Hh2, Hla1, Hh1. }
  pose proof (render_page_known cs inp _ Hr0 Hk0) as H.
  destruct (render_page cs inp (set_stored_data data w2)); exact H.
Qed.

(** X20. In every world that runs of the script reach from a fresh
    session, a logged-in user has a non-empty name and an attempt
    dictionary of their own in [login_attempts], whose counter is within
    [0 .. 3] and which is locked when the counter is at 3: the defaults of
    lines 186 and 245 for a user without an entry are never used for a
    logged-in user, and no run logs in the empty name. *)
Theorem logged_in_user_has_attempts w u :
  reachable w -> logged_in_user w = Some u ->
  u <> [] /\ exists s, attempt_of w u = Some s /\ attempt_ok s.
Proof.
  intros Hr Hu.
  assert (Hk : user_known w).
  { clear u Hu. induction Hr as [key data ro | w urandom inp Hr IH].
    - intros u Hu. discriminate Hu.
    - apply script_known; [now apply reachable_session_ok | exact IH]. }
  pose proof (reachable_session_ok w Hr) as [Hrefs Hok].
  destruct (Hk u Hu) as [Hne Hmem]. split; [exact Hne|].
  unfold dict_mem in Hmem.
  destruct (dict_get (login_attempts w) u) as [l|] eqn:Ela; [|discriminate Hmem].
  destruct (valid_ref w u l Hrefs Ela) as [s Hs].
  exists s. unfold attempt_of. rewrite Ela. split; [exact Hs|].
  specialize (Hok u). unfold state_of, attempt_of in Hok. now rewrite Ela, Hs in Hok.
Qed.
End KnownRuns.

(** ** The small instance satisfies the interfaces *)

Module ToyLaws.
Import Toy.

Lemma hex_bytes_ascii b : is_ascii (hex_bytes b).
Proof.
  unfold is_ascii, hex_bytes. apply Forall_map.
  eapply Forall_weaken; [|apply SHA256Facts.hex_chars].
  intros c Hc. cbv beta in *. rewrite to_N_byte_of; lia.
Qed.

Lemma unhex_hex_digit n :
  n < 16 -> unhex_digit (SHA256.hex_digit n) = Some n.
Proof.
  intros H. unfold unhex_digit, SHA256.hex_digit.
  destruct (N.ltb_spec n 10); decide_tests; cbn [andb]; f_equal; lia.
Qed.

Lemma unhex_hex_bytes b : unhex (map Byte.to_N (hex_bytes b)) = Some b.
Proof.
  unfold hex_bytes.
  rewrite map_to_N_byte_of
    by (eapply Forall_weaken; [|apply SHA256Facts.hex_chars]; cbv beta; intros; lia).
  unfold SHA256.hex. induction b as [|x b IH]; [reflexivity|].
  pose proof (byte_to_N_lt x).
  cbn [flat_map app unhex].
  rewrite !unhex_hex_digit, IH by lia.
  replace (16 * (Byte.to_N x / 16) + Byte.to_N x mod 16) with (Byte.to_N x) by lia.
  now rewrite byte_of_to_N.
Qed.

Lemma decrypt_encrypt key r data : decrypt key (encrypt key r data) = Ret data.
Proof.
  unfold decrypt, encrypt. rewrite unhex_hex_bytes.
  rewrite take_app_length, drop_app_length.
  case_decide; [reflexivity | contradiction].
Qed.

Lemma decrypt_raises key token e :
  decrypt key token = Raise e -> is_Exception e = true.
Proof.
  unfold decrypt. intros H.
  destruct (unhex (map Byte.to_N token)); [destruct (decide _)|];
    inversion H; reflexivity.
Qed.

Lemma hex_unhex_digit c n :
  unhex_digit c = Some n -> n < 16 /\ SHA256.hex_digit n = c.
Proof.
  unfold unhex_digit, SHA256.hex_digit. intros H.
  destruct ((48 <=? c) && (c <? 58)) eqn:E1.
  - injection H as <-. apply andb_prop in E1 as [H1 H2].
    apply N.leb_le in H1. apply N.ltb_lt in H2.
    destruct (N.ltb_spec (c - 48) 10); lia.
  - destruct ((97 <=? c) && (c <? 103)) eqn:E2; [|discriminate H].
    injection H as <-. apply andb_prop in E2 as [H1 H2].
    apply N.leb_le in H1. apply N.ltb_lt in H2.
    destruct (N.ltb_spec (c - 87) 10); lia.
Qed.

Lemma hex_unhex b : forall t, unhex t = Some b -> t = SHA256.hex b.
Proof.
  induction b as [|x b IH]; intros t H.
  - destruct t as [|h [|l rest]]; [reflexivity | discriminate H|].
    cbn [unhex] in H.
    destruct (unhex_digit h), (unhex_digit l), (unhex rest); discriminate H.
  - destruct t as [|h [|l rest]]; [discriminate H | discriminate H|].
    cbn [unhex] in H.
    destruct (unhex_digit h) as [a|] eqn:Eh; [|discriminate H].
    destruct (unhex_digit l) as [c|] eqn:El; [|discriminate H].
    destruct (unhex rest) as [r|] eqn:Er; [|discriminate H].
    injection H as <- <-.
    apply hex_unhex_digit in Eh as [Ha <-]. apply hex_unhex_digit in El as [Hc <-].
    unfold SHA256.hex. cbn [flat_map app]. fold (SHA256.hex r).
    rewrite to_N_byte_of by lia.
    replace ((16 * a + c) / 16) with a by lia.
    replace ((16 * a + c) mod 16) with c by lia.
    now rewrite <- (IH rest Er).
Qed.

Lemma decrypt_authentic key token data :
  decrypt key token = Ret data ->
  exists r, token = encrypt key r data.
Proof.
  unfold decrypt, encrypt, hex_bytes. intros H.
  destruct (unhex (map Byte.to_N token)) as [b|] eqn:E; [|discriminate H].
  destruct (decide (firstn (length key) b = key)) as [Hk|]; [|discriminate H].
  injection H as <-. exists (Entropy 0 []).
  rewrite <- Hk at 1. rewrite firstn_skipn, <- (hex_unhex _ _ E), map_map.
  rewrite <- (map_id token) at 1. apply map_ext. intros x. now rewrite byte_of_to_N.
Qed.

Lemma encrypt_key_separation key key' r r' data data' :
  valid_key key = true -> valid_key key' = true ->
  encrypt key r data = encrypt key' r' data' -> key = key'.
Proof.
  unfold valid_key, encrypt. intros Hk Hk' H.
  apply Nat.eqb_eq in Hk, Hk'.
  assert (E : key ++ data = key' ++ data').
  { apply (f_equal (fun t => unhex (map Byte.to_N t))) in H.
    rewrite !unhex_hex_bytes in H. now injection H. }
  apply (f_equal (firstn 44)) in E.
  rewrite <- Hk in E at 1. rewrite <- Hk' in E at 1.
  now rewrite !take_app_length in E.
Qed.
End ToyLaws.

#[global] Instance toy_fernet : FernetLib := {|
  Fernet_generate_key := Toy.generate_key;
  Fernet_valid_key := Toy.valid_key;
  Fernet_encrypt := Toy.encrypt;
  Fernet_decrypt := Toy.decrypt;
  Fernet_token_ascii := fun key r data => ToyLaws.hex_bytes_ascii (key ++ data);
  Fernet_roundtrip := fun key r data _ => ToyLaws.decrypt_encrypt key r data;
  Fernet_decrypt_raises := ToyLaws.decrypt_raises
|}.

#[global] Instance toy_json : JsonLib := {|
  json_loads := Toy.loads;
  json_dump := Toy.dump
|}.

#[global] Instance toy_authentic : FernetAuthentic := {|
  Fernet_authentic := fun key token data _ => ToyLaws.decrypt_authentic key token data;
  Fernet_key_separation := ToyLaws.encrypt_key_separation
|}.

(** ** The scenario of the specification, run *)

Lemma well_formedb_true s : well_formedb s = true -> well_formed s.
Proof.
  unfold well_formedb, well_formed. induction s as [|c s IH]; simpl; [constructor|].
  intros H. apply andb_prop in H as [Hc Hs]. constructor; auto.
Qed.

(** C1, as stated, fails at a lone surrogate: [encrypt_data] raises and no
    ciphertext exists to decrypt. *)
Lemma encrypt_data_rejects_lone_surrogate :
  obind (encrypt_data Demo.key Demo.noon [0xD800]) (decrypt_data Demo.key)
  = Raise UnicodeEncodeError.
Proof. reflexivity. Qed.

Lemma encrypt_decrypt_roundtrip_witness :
  exists c,
    encrypt_data Demo.key Demo.noon Demo.hello_world = Ret c
    /\ decrypt_data Demo.key c = Ret (Some Demo.hello_world).
Proof.
  apply (encrypt_decrypt_roundtrip Demo.key Demo.noon Demo.hello_world).
  - reflexivity.
  - apply well_formedb_true. reflexivity.
Defined.


Lemma hash_passkey_deterministic_fixed_length_witness :
  exists digest,
    hash_passkey Demo.abc123 = Ret digest
    /\ length digest = 64%nat
    /\ forall passkey', passkey' = Demo.abc123 -> hash_passkey passkey' = Ret digest.
Proof.
  apply (hash_passkey_deterministic_fixed_length Demo.abc123).
  apply well_formedb_true. reflexivity.
Defined.

Lemma retrieving_demo v : v <> [] -> retrieving (Demo.world_with v) Demo.alice v.
Proof. intros H. repeat split; try reflexivity; try assumption; discriminate. Qed.

Lemma submits_wrong : submits (Demo.try_passkey Demo.wrong) Demo.hash_wrong.
Proof.
  split; [reflexivity|]. split; [discriminate|]. split; [reflexivity|].
  vm_compute. reflexivity.
Qed.

Lemma submits_abc123 : submits (Demo.try_passkey Demo.abc123) Demo.hash_abc123.
Proof.
  split; [reflexivity|]. split; [discriminate|]. split; [reflexivity|].
  vm_compute. reflexivity.
Qed.

Lemma submits_xyz789 : submits (Demo.try_passkey Demo.xyz789) Demo.hash_xyz789.
Proof.
  split; [reflexivity|]. split; [discriminate|]. split; [reflexivity|].
  vm_compute. reflexivity.
Qed.

Lemma failed_wrong : failed_attempt Demo.items (Demo.try_passkey Demo.wrong).
Proof.
  exists Demo.hash_wrong. split; [exact submits_wrong|].
  repeat constructor; vm_compute; discriminate.
Qed.

Lemma three_failed_attempts_lock_witness :
  attempt_of
    (snd (render_retrieve Demo.key (Demo.try_passkey Demo.wrong)
       (snd (render_retrieve Demo.key (Demo.try_passkey Demo.wrong)
          (snd (render_retrieve Demo.key (Demo.try_passkey Demo.wrong)
             (Demo.world_with Demo.items)))))))
    Demo.alice
  = Some (AttemptState 3 true).
Proof.
  refine (proj1 (proj2 (proj2
    (three_failed_attempts_lock Demo.key _ _ _ (Demo.world_with Demo.items)
       Demo.alice Demo.items _ _ failed_wrong failed_wrong failed_wrong)))).
  - apply retrieving_demo. discriminate.
  - reflexivity.
Defined.

Lemma decrypt_failure_not_counted_witness :
  exists s',
    attempt_of
      (snd (render_retrieve Demo.key (Demo.try_passkey Demo.abc123)
              (Demo.world_with [(data_id_of 1, Demo.corrupted)])))
      Demo.alice = Some s'
    /\ locked s' = false
    /\ (attempts s' = 0)%Z.
Proof.
  destruct (decrypt_failure_not_counted Demo.key (Demo.try_passkey Demo.abc123)
              (Demo.world_with [(data_id_of 1, Demo.corrupted)]) Demo.alice
              [(data_id_of 1, Demo.corrupted)] (AttemptState 0 false)
              Demo.hash_abc123 (data_id_of 1) Demo.corrupted)
    as (s' & H1 & H2 & H3 & _).
  - apply retrieving_demo. discriminate.
  - reflexivity.
  - reflexivity.
  - exact submits_abc123.
  - left. reflexivity.
  - reflexivity.
  - vm_compute. reflexivity.
  - exists s'. split; [exact H1|]. split; [exact H2|].
    destruct H3 as [H3|H3]; exact H3.
Defined.

Lemma retrieve_first_match_witness :
  display
    (snd (render_retrieve Demo.key (Demo.try_passkey Demo.xyz789)
            (Demo.world_with Demo.items)))
  = [st_header RetrieveHeader; st_subheader DecryptedData;
     st_success (Decrypted Demo.second_note)].
Proof.
  refine (proj2
    (retrieve_first_match Demo.key (Demo.try_passkey Demo.xyz789)
       (Demo.world_with Demo.items) Demo.alice Demo.items (AttemptState 0 false)
       Demo.hash_xyz789 [(data_id_of 1, Demo.item1)] (data_id_of 2) Demo.item2 []
       Demo.second_note _ _ _ submits_xyz789 _ _ _ _)).
  - apply retrieving_demo. discriminate.
  - reflexivity.
  - reflexivity.
  - reflexivity.
  - repeat constructor. vm_compute. discriminate.
  - reflexivity.
  - vm_compute. reflexivity.
Defined.

Lemma load_key_idempotent_witness :
  exists key w1,
    load_key [x2a] (initial_world None None false) = (Ret key, w1)
    /\ key_file w1 = Some key
    /\ load_key [x07] w1 = (Ret key, w1).
Proof.
  destruct (load_key_idempotent [x2a] [x07] (initial_world None None false))
    as (key & w1 & H1 & H2 & H3 & _).
  - right. reflexivity.
  - exists key, w1. split; [exact H1|]. split; [exact H2 | exact H3].
Defined.

Lemma attempt_state_invariant_witness :
  session_ok (snd (script [x2a] Demo.idle (initial_world None None false))).
Proof.
  refine (proj1 (proj1 (attempt_state_invariant Demo.key) [x2a] Demo.idle
                   (initial_world None None false) _)).
  split; [split; intros; discriminate|].
  intros u. unfold attempt_ok, MAX_ATTEMPTS. cbn. split; [lia | discriminate].
Defined.

Lemma store_adds_one_entry_witness :
  exists h c,
    hash_passkey Demo.abc123 = Ret h
    /\ encrypt_data Demo.key Demo.noon Demo.hello_world = Ret c
    /\ dict_get
         (stored_data
            (snd (render_store Demo.key (Demo.store_form_of Demo.hello_world Demo.abc123)
                    (Demo.world_with []))))
         Demo.alice
       = Some [(data_id_of 1, Item c h)].
Proof.
  destruct (proj1 (store_adds_one_entry Demo.key
                     (Demo.store_form_of Demo.hello_world Demo.abc123)
                     (Demo.world_with []) Demo.alice eq_refl
                     ltac:(discriminate) eq_refl))
    as (h & c & H1 & H2 & H3 & _).
  - discriminate.
  - discriminate.
  - apply well_formedb_true. reflexivity.
  - apply well_formedb_true. reflexivity.
  - reflexivity.
  - exists h, c. split; [exact H1|]. split; [exact H2 | exact H3].
Defined.

(** C10, as stated, fails in two ways. On a collection whose keys are not
    the ids that the application assigns, here the one key [data_2], the
    next id is [data_2] again: the store adds no entry and replaces the
    stored item. And a non-empty text with a lone surrogate does not
    encode: the run ends in [UnicodeEncodeError] and adds nothing. *)
Lemma store_without_new_entry :
  (let w := Demo.world_with [(data_id_of 2, Demo.item1)] in
   let w' := snd (render_store Demo.key
                    (Demo.store_form_of Demo.second_note Demo.xyz789) w) in
   dict_get (stored_data w) Demo.alice = Some [(data_id_of 2, Demo.item1)]
   /\ dict_get (stored_data w') Demo.alice = Some [(data_id_of 2, Demo.item2)]
   /\ Demo.item2 <> Demo.item1)
  /\ (let w := Demo.world_with [] in
      let r := render_store Demo.key (Demo.store_form_of [0xD800] Demo.abc123) w in
      fst r = Raise UnicodeEncodeError
      /\ stored_data (snd r) = stored_data w).
Proof.
  cbv zeta. split.
  - split; [reflexivity|]. split; [vm_compute; reflexivity|].
    vm_compute. discriminate.
  - split; vm_compute; reflexivity.
Qed.

(** The scenario of section 8: [alice] stores [hello world] under [abc123];
    retrieving with [abc123] shows it; three wrong passkeys lock her; a
    fourth attempt, with the right passkey, is refused. *)
Example scenario_of_the_specification :
  let start :=
    Demo.runs [Demo.logs_in Demo.alice;
               Demo.presses (HomeButtons true false false);
               Demo.stores Demo.hello_world Demo.abc123;
               Demo.goes_back;
               Demo.presses (HomeButtons false true false)]
              (initial_world None None false) in
  let found := Demo.run (Demo.retrieves Demo.abc123) start in
  let locked_out :=
    Demo.runs [Demo.retrieves Demo.wrong; Demo.retrieves Demo.wrong;
               Demo.retrieves Demo.wrong] found in
  let refused := Demo.run (Demo.retrieves Demo.abc123) locked_out in
  dict_get (stored_data start) Demo.alice = Some [(data_id_of 1, Demo.item1)]
  /\ display found = [st_header RetrieveHeader; st_subheader DecryptedData;
                      st_success (Decrypted Demo.hello_world)]
  /\ attempt_of locked_out Demo.alice = Some (AttemptState 3 true)
  /\ display refused = [st_header RetrieveHeader; st_error MaxRetrievalAttempts]
  /\ attempt_of refused Demo.alice = Some (AttemptState 3 true).
Proof. vm_compute. repeat split. Qed.

(** Two items under one passkey: retrieval shows the first. *)
Example shared_passkey_resolves_to_first :
  display
    (snd (render_retrieve Demo.key (Demo.try_passkey Demo.abc123)
            (Demo.world_with
               [(data_id_of 1, Demo.item1);
                (data_id_of 2, Item (encrypted_text Demo.item2) Demo.hash_abc123)])))
  = [st_header RetrieveHeader; st_subheader DecryptedData;
     st_success (Decrypted Demo.hello_world)].
Proof. vm_compute. reflexivity. Qed.

(** A token made under another key is reported as a failure. *)
Example wrong_key_is_reported :
  decrypt_data (Toy.generate_key [x07]) (encrypted_text Demo.item1) = Ret None.
Proof. vm_compute. reflexivity. Qed.

(** ** Further scenes, run *)

Lemma refs_ok_scene p s v ro : refs_ok (Scene.world_at p s v ro).
Proof.
  split.
  - intros u l H. cbn in H. destruct (decide (Demo.alice = u)); [|discriminate H].
    injection H as <-. cbn. lia.
  - intros u1 u2 l H1 H2. cbn in H1, H2.
    destruct (decide (Demo.alice = u1)); [|discriminate H1].
    destruct (decide (Demo.alice = u2)); [|discriminate H2]. congruence.
Qed.

Lemma session_ok_scene p v ro :
  session_ok (Scene.world_at p (AttemptState 0 false) v ro).
Proof.
  split; [apply refs_ok_scene|].
  intros u. unfold attempt_ok, MAX_ATTEMPTS, state_of, attempt_of. cbn.
  destruct (decide (Demo.alice = u)); cbn; (split; [lia | discriminate]).
Qed.

Lemma vault_sequential_scene : vault_sequential [(Demo.alice, [])].
Proof.
  intros u items H. cbn in H. destruct (decide (Demo.alice = u)); [|discriminate H].
  injection H as <-. apply sequential_nil.
Qed.


Lemma init_cipher_suite_returns_witness :
  Fernet_valid_key Demo.key = true
  /\ key_file (snd (init_cipher_suite [x2a] (initial_world None None false)))
     = Some Demo.key.
Proof.
  destruct (init_cipher_suite_returns [x2a] (initial_world None None false) Demo.key
              (snd (init_cipher_suite [x2a] (initial_world None None false))))
    as (H1 & H2 & _).
  - vm_compute. reflexivity.
  - split; [exact H1 | exact H2].
Defined.

Lemma script_halts_without_cipher_witness :
  script [x2a] Demo.idle (initial_world (Some []) None false)
  = (Raise StopException,
     shown [st_error FailedToInitialize] (initial_world (Some []) None false)).
Proof.
  apply (proj1 (script_halts_without_cipher [x2a] Demo.idle
                  (initial_world (Some []) None false)) []).
  - reflexivity.
  - reflexivity.
Defined.

Lemma only_store_writes_witness :
  current_page (Scene.world_at Store (AttemptState 0 false) [] false) = Store
  /\ submitted_store (on_store (Demo.stores Demo.hello_world Demo.abc123)) = true.
Proof.
  destruct (proj2 (proj2 (only_store_writes Demo.key
                            (Demo.stores Demo.hello_world Demo.abc123)
                            (Scene.world_at Store (AttemptState 0 false) [] false))))
    as (H1 & _ & H2 & _).
  - left. vm_compute. discriminate.
  - split; [exact H1 | exact H2].
Defined.


Lemma store_failure_stores_nothing_witness :
  snd (render_store Demo.key (Demo.store_form_of [0xD800] Demo.abc123)
         (Demo.world_with []))
  = shown [st_header StoreHeader] (Demo.world_with []).
Proof.
  apply (proj2 (proj2 (store_failure_stores_nothing Demo.key
                         (Demo.store_form_of [0xD800] Demo.abc123)
                         (Demo.world_with []) UnicodeEncodeError
                         ltac:(vm_compute; reflexivity) ltac:(discriminate)))).
Defined.

Lemma stored_item_survives_rerun_witness :
  let w1 :=
    snd (render_store (json := Scene.json_of Scene.vault1) Demo.key
           (Demo.store_form_of Demo.hello_world Demo.abc123)
           (Scene.world_at Store (AttemptState 0 false) [] false)) in
  load_data (json := Scene.json_of Scene.vault1) w1 = (Ret Scene.vault1, w1).
Proof.
  cbv zeta.
  destruct (stored_item_survives_rerun (json := Scene.json_of Scene.vault1) Demo.key
              (Demo.store_form_of Demo.hello_world Demo.abc123)
              (Scene.world_at Store (AttemptState 0 false) [] false)
              Demo.alice [118]) as [_ H].
  - reflexivity.
  - discriminate.
  - reflexivity.
  - reflexivity.
  - discriminate.
  - discriminate.
  - apply well_formedb_true. reflexivity.
  - apply well_formedb_true. reflexivity.
  - reflexivity.
  - discriminate.
  - vm_compute. reflexivity.
  - exact H.
Defined.

Lemma ids_stay_sequential_witness :
  vault_sequential
    (stored_data
       (snd (render_page Demo.key (Demo.stores Demo.hello_world Demo.abc123)
               (Scene.world_at Store (AttemptState 0 false) [] false)))).
Proof.
  apply (proj1 (ids_stay_sequential Demo.key
                  (Demo.stores Demo.hello_world Demo.abc123)
                  (Scene.world_at Store (AttemptState 0 false) [] false)
                  vault_sequential_scene)).
Defined.

Lemma script_keeps_key_witness :
  key_file (snd (script [x07] Demo.idle (initial_world (Some Demo.key) None false)))
  = Some Demo.key.
Proof.
  apply (proj1 (proj2 (script_keeps_key [x07] Demo.idle
                         (initial_world (Some Demo.key) None false)))).
  reflexivity.
Defined.

Lemma plaintext_only_by_passkey_witness :
  In (st_success (Decrypted Demo.hello_world)) (display (Demo.world_with Demo.items))
  \/ exists u items h i it,
       logged_in_user (Demo.world_with Demo.items) = Some u /\ u <> []
       /\ current_page (Demo.world_with Demo.items) = Retrieve
       /\ dict_get (stored_data (Demo.world_with Demo.items)) u = Some items
       /\ locked (state_of (Demo.world_with Demo.items) u) = false
       /\ submitted_retrieve (on_retrieve (Demo.retrieves Demo.abc123)) = true
       /\ passkey_retrieve (on_retrieve (Demo.retrieves Demo.abc123)) <> []
       /\ hash_passkey (passkey_retrieve (on_retrieve (Demo.retrieves Demo.abc123)))
          = Ret h
       /\ first_match items h = Some (i, it)
       /\ decrypt_data Demo.key (encrypted_text it) = Ret (Some Demo.hello_world).
Proof.
  apply (plaintext_only_by_passkey Demo.key (Demo.retrieves Demo.abc123)
           (Demo.world_with Demo.items) Demo.hello_world).
  vm_compute. auto.
Defined.

Lemma attempt_counted_only_on_mismatch_witness :
  state_of (snd (render_page Demo.key (Demo.retrieves Demo.wrong)
                   (Demo.world_with Demo.items))) Demo.alice
  = AttemptState 1 false.
Proof.
  apply (attempt_counted_only_on_mismatch Demo.key (Demo.retrieves Demo.wrong)
           (Demo.world_with Demo.items) Demo.alice).
  - apply (session_ok_scene Retrieve Demo.items false).
  - vm_compute. reflexivity.
Defined.

Lemma lock_persists_witness :
  (submitted_login (on_login (Demo.logs_in Demo.alice)) = true
   /\ username_login (on_login (Demo.logs_in Demo.alice)) = Demo.alice)
  \/ (logged_in_user (Scene.world_at Login (AttemptState 3 true) Demo.items false)
      = Some Demo.alice
      /\ current_page (Scene.world_at Login (AttemptState 3 true) Demo.items false)
         = Home
      /\ logout_button (on_home (Demo.logs_in Demo.alice)) = true).
Proof.
  apply (lock_persists Demo.key (Demo.logs_in Demo.alice)
           (Scene.world_at Login (AttemptState 3 true) Demo.items false) Demo.alice).
  - apply refs_ok_scene.
  - reflexivity.
  - vm_compute. reflexivity.
Defined.

Lemma attempts_are_per_user_witness :
  state_of (snd (render_page Demo.key (Demo.retrieves Demo.wrong)
                   (Demo.world_with Demo.items))) Scene.bob
  = state_of (Demo.world_with Demo.items) Scene.bob.
Proof.
  apply (attempts_are_per_user Demo.key (Demo.retrieves Demo.wrong)
           (Demo.world_with Demo.items) Scene.bob).
  - apply (refs_ok_scene Retrieve (AttemptState 0 false) Demo.items false).
  - vm_compute. discriminate.
  - vm_compute. discriminate.
Defined.

Lemma logout_resets_witness :
  logged_in_user
    (snd (render_home (HomeButtons false false true)
            (Scene.world_at Home (AttemptState 3 true) Demo.items false))) = None
  /\ state_of
       (snd (render_home (HomeButtons false false true)
               (Scene.world_at Home (AttemptState 3 true) Demo.items false)))
       Demo.alice
     = AttemptState 0 false.
Proof.
  destruct (logout_resets (HomeButtons false false true)
              (Scene.world_at Home (AttemptState 3 true) Demo.items false) Demo.alice)
    as (_ & H1 & _ & H2).
  - reflexivity.
  - discriminate.
  - reflexivity.
  - reflexivity.
  - reflexivity.
  - split; [exact H1 | exact H2].
Defined.

Lemma locked_home_never_opens_retrieve_witness :
  In (st_error AccountLocked)
     (display (snd (render_home (HomeButtons false true false)
                      (Scene.world_at Home (AttemptState 3 true) Demo.items false)))).
Proof.
  apply (proj2 (locked_home_never_opens_retrieve (HomeButtons false true false)
                  (Scene.world_at Home (AttemptState 3 true) Demo.items false)
                  Demo.alice eq_refl ltac:(discriminate) eq_refl eq_refl)).
  reflexivity.
Defined.

Lemma store_then_retrieve_witness :
  display (snd (script (json := Scene.json_of Scene.vault1) [x07]
                  (Demo.retrieves Demo.abc123) Scene.later))
  = [st_header RetrieveHeader; st_subheader DecryptedData;
     st_success (Decrypted Demo.hello_world)].
Proof.
  refine (proj2
    (store_then_retrieve (json := Scene.json_of Scene.vault1) Demo.key
       (Demo.store_form_of Demo.hello_world Demo.abc123)
       (Demo.retrieves Demo.abc123) [x07]
       (Scene.world_at Store (AttemptState 0 false) [] false) Scene.later
       Demo.alice (AttemptState 0 false) [118]
       _ _ _ _ _ _ _ _ _ _ _ _ _ _ _ _ _ _ _ _ _ _)).
  - reflexivity.
  - reflexivity.
  - discriminate.
  - reflexivity.
  - reflexivity.
  - discriminate.
  - discriminate.
  - apply well_formedb_true. reflexivity.
  - apply well_formedb_true. reflexivity.
  - intros h _. vm_compute. constructor.
  - reflexivity.
  - discriminate.
  - vm_compute. reflexivity.
  - reflexivity.
  - vm_compute. reflexivity.
  - reflexivity.
  - reflexivity.
  - reflexivity.
  - reflexivity.
  - reflexivity.
  - reflexivity.
  - reflexivity.
Defined.

Lemma stored_under_used_passkey_is_shadowed_witness :
  display
    (snd (render_retrieve Demo.key (Demo.try_passkey Demo.abc123)
            (snd (render_store Demo.key
                    (Demo.store_form_of Demo.second_note Demo.abc123)
                    (Demo.world_with Demo.items)))))
  = display (snd (render_store Demo.key
                    (Demo.store_form_of Demo.second_note Demo.abc123)
                    (Demo.world_with Demo.items)))
    ++ [st_header RetrieveHeader; st_subheader DecryptedData;
        st_success (Decrypted Demo.hello_world)].
Proof.
  refine (proj2 (proj2
    (stored_under_used_passkey_is_shadowed Demo.key
       (Demo.store_form_of Demo.second_note Demo.abc123)
       (Demo.try_passkey Demo.abc123) (Demo.world_with Demo.items) Demo.alice
       (AttemptState 0 false) Demo.hash_abc123 (data_id_of 1) Demo.item1
       Demo.hello_world _ _ _ _ _ _ _ _ _ _ _ _ _ _ _ _))).
  - reflexivity.
  - discriminate.
  - reflexivity.
  - reflexivity.
  - reflexivity.
  - reflexivity.
  - discriminate.
  - discriminate.
  - apply well_formedb_true. reflexivity.
  - vm_compute. reflexivity.
  - vm_compute. reflexivity.
  - vm_compute. reflexivity.
  - vm_compute. reflexivity.
  - reflexivity.
  - reflexivity.
  - reflexivity.
Defined.

Lemma decrypted_text_encrypts_again_witness :
  well_formed Demo.hello_world
  /\ (exists c', encrypt_data Demo.key Demo.noon Demo.hello_world = Ret c')
  /\ exists h, hash_passkey Demo.hello_world = Ret h.
Proof.
  apply (decrypted_text_encrypts_again Demo.key (encrypted_text Demo.item1)
           Demo.hello_world Demo.noon).
  vm_compute. reflexivity.
Defined.

Lemma logged_in_user_has_attempts_witness :
  Demo.alice <> []
  /\ exists s,
       attempt_of (snd (script [x2a] (Demo.logs_in Demo.alice)
                          (initial_world None None false))) Demo.alice = Some s
       /\ attempt_ok s.
Proof.
  apply (logged_in_user_has_attempts
           (snd (script [x2a] (Demo.logs_in Demo.alice) (initial_world None None false)))
           Demo.alice).
  - apply reachable_run, reachable_initial.
  - vm_compute. reflexivity.
Defined.
